(** * LLM_RAG: the adapter manager, the vector-store gateway and the
      ingestion pipeline, embedded in Rocq.

    The development follows the Python sources
      src/milvus_service.py, src/vllm_service.py, src/lora_manager.py and
      src/data_ingestion.py.
    Python integers are [Z], Python strings are [string], dictionaries used
    as maps are stdpp [gmap]s, numpy arrays are lists of rows.  External
    services (the Milvus collection, the vLLM HTTP endpoint, the embedding
    model, the document readers) are interfaces given as type classes; the
    state they keep is threaded explicitly through a state-and-exception
    monad. *)

From Stdlib Require Import ZArith String Ascii DecimalString DecimalZ Lia.
From stdpp Require Import base option list strings gmap.

Local Open Scope Z_scope.

(** ** Python values *)

Module Py.

(** [str(n)] for an integer. *)
Definition int_str (n : Z) : string := NilZero.string_of_int (Z.to_int n).

(** [s[:n]] for [0 <= n]. *)
Fixpoint str_take (n : N) (s : string) : string :=
  match s with
  | EmptyString => EmptyString
  | String c r =>
      if (n =? 0)%N then EmptyString else String c (str_take (N.pred n) r)
  end.

(** [s[n:]] for [0 <= n]. *)
Fixpoint str_drop (n : N) (s : string) : string :=
  match s with
  | EmptyString => EmptyString
  | String c r => if (n =? 0)%N then s else str_drop (N.pred n) r
  end.

(** [len(s)], as a binary number. *)
Fixpoint str_len (s : string) : N :=
  match s with
  | EmptyString => 0%N
  | String _ r => N.succ (str_len r)
  end.

(** [range(start, stop, step)] for [0 < step]. *)
Definition range_step (start stop step : nat) : list nat :=
  (λ k, start + k * step)%nat <$> seq 0 (Nat.div (stop - start + (step - 1)) step).

(** [l[i:j]] for [0 <= i <= j]. *)
Definition slice {A} (l : list A) (i j : nat) : list A :=
  take (j - i) (drop i l).

(** [max(l)] for a non-empty list of integers. *)
Definition max_list (l : list Z) : Z :=
  match l with
  | [] => 0
  | x :: r => fold_left Z.max r x
  end.

(** The values found in metadata and in filter maps: integers, strings
    and lists of integers. *)
Inductive pyval : Type :=
| PNone
| PInt (n : Z)
| PStr (s : string)
| PInts (l : list Z).

Fixpoint join (sep : string) (l : list string) : string :=
  match l with
  | [] => EmptyString
  | [x] => x
  | x :: r => x +:+ sep +:+ join sep r
  end.

(** [str(v)], what an f-string puts in place of [{v}]. *)
Definition val_str (v : pyval) : string :=
  match v with
  | PNone => "None"
  | PInt n => int_str n
  | PStr s => s
  | PInts l => "[" +:+ join ", " (int_str <$> l) +:+ "]"
  end.

(** Exceptions raised by the modelled code. *)
Inductive exn : Type :=
| IndexError
| TypeError
| ImportError (msg : string)
| ValueError (msg : string)
| Exception (msg : string).

(** [a[k]] on the first axis of a numpy array: negative indices count from
    the end, anything outside [-len, len) is an [IndexError]. *)
Definition ndarray_row {A} (a : list A) (k : Z) : exn + A :=
  let n := Z.of_nat (length a) in
  let j := if k <? 0 then n + k else k in
  if (0 <=? j) && (j <? n) then
    match a !! Z.to_nat j with
    | Some x => inr x
    | None => inl IndexError
    end
  else inl IndexError.

End Py.
Export Py.

(** ** State and exceptions *)

(** A computation over a state [S] that returns an [A] or raises; the state
    reached when the exception is raised is kept, as in Python. *)
Definition M (S A : Type) : Type := S → (exn + A) * S.

Definition ret {S A} (a : A) : M S A := λ s, (inr a, s).
Definition raise {S A} (e : exn) : M S A := λ s, (inl e, s).
Definition bind {S A B} (c : M S A) (k : A → M S B) : M S B :=
  λ s, match c s with
       | (inr a, s') => k a s'
       | (inl e, s') => (inl e, s')
       end.
Definition get {S} : M S S := λ s, (inr s, s).
Definition put {S} (s : S) : M S unit := λ _, (inr tt, s).
Definition modify {S} (f : S → S) : M S unit := λ s, (inr tt, f s).
Definition lift {S A} (r : exn + A) : M S A := λ s, (r, s).

(** [try: c except Exception: h]. *)
Definition try_except {S A} (c : M S A) (h : exn → M S A) : M S A :=
  λ s, match c s with
       | (inr a, s') => (inr a, s')
       | (inl e, s') => h e s'
       end.

Notation "'let*' x ':=' c 'in' k" := (bind c (λ x, k))
  (at level 10, x name, c at level 100, k at level 200).
Notation "c ;;; k" := (bind c (λ _, k))
  (at level 100, k at level 200, right associativity).

(** Run a computation on one component of the state. *)
Definition zoom {S T A} (proj : S → T) (upd : T → S → S) (c : M T A) : M S A :=
  λ s, match c (proj s) with (r, t) => (r, upd t s) end.

(** A [for] loop whose body may raise. *)
Fixpoint for_each {S A} (l : list A) (body : A → M S unit) : M S unit :=
  match l with
  | [] => ret tt
  | x :: r => bind (body x) (λ _, for_each r body)
  end.

(** ** The Milvus collection (external service)

    The collection [rag_vectors] of [create_collection_if_not_exists]: an
    auto-generated primary key and the nine declared fields.  Queries,
    searches and deletions select rows with a boolean expression given as
    text; the fragment of that language the gateway produces is modelled
    below: integer comparisons, membership in an integer list, [&&], [||]
    and parentheses, with [&&] binding tighter than [||]. *)

Module MilvusDB.

(** The dictionary handed to [collection.insert]. *)
Record Item (V : Type) : Type := mkItem {
  tenant_id : Z;
  document_id : Z;
  chunk_index : Z;
  chunk_version : Z;
  content_hash : string;
  text : string;
  source : pyval;
  metadata : gmap string pyval;
  embedding : option V
}.
Global Arguments mkItem {V}.
Global Arguments tenant_id {V}.
Global Arguments document_id {V}.
Global Arguments chunk_index {V}.
Global Arguments chunk_version {V}.
Global Arguments content_hash {V}.
Global Arguments text {V}.
Global Arguments source {V}.
Global Arguments metadata {V}.
Global Arguments embedding {V}.

(** A stored row: the primary key, the scalar fields and the vector. *)
Record Row (V : Type) : Type := mkRow {
  pk : Z;
  fields : Item V;
  vector : V
}.
Global Arguments mkRow {V}.
Global Arguments pk {V}.
Global Arguments fields {V}.
Global Arguments vector {V}.

Record Collection (V : Type) : Type := mkCollection {
  rows : list (Row V);
  next_pk : Z
}.
Global Arguments mkCollection {V}.
Global Arguments rows {V}.
Global Arguments next_pk {V}.

(** *** Boolean expressions *)

Inductive token : Type :=
| TInt (n : Z)
| TIdent (s : string)
| TEq | TAnd | TOr | TIn
| TLBracket | TRBracket | TComma | TLParen | TRParen.

Definition is_digit (c : ascii) : bool :=
  let n := nat_of_ascii c in (48 <=? n)%nat && (n <=? 57)%nat.

Definition is_ident_start (c : ascii) : bool :=
  let n := nat_of_ascii c in
  ((65 <=? n)%nat && (n <=? 90)%nat) || ((97 <=? n)%nat && (n <=? 122)%nat)
  || (n =? 95)%nat.

Definition is_ident_char (c : ascii) : bool := is_ident_start c || is_digit c.

Definition is_space (c : ascii) : bool :=
  let n := nat_of_ascii c in (n =? 32)%nat || (n =? 9)%nat || (n =? 10)%nat.

(** The longest prefix whose characters satisfy [p], and the rest. *)
Fixpoint span (p : ascii → bool) (s : string) : string * string :=
  match s with
  | EmptyString => (EmptyString, EmptyString)
  | String c r =>
      if p c then let '(a, b) := span p r in (String c a, b)
      else (EmptyString, s)
  end.

Definition lex_digits (s : string) : option (Z * string) :=
  let '(ds, rest) := span is_digit s in
  match ds with
  | EmptyString => None
  | _ => match NilEmpty.uint_of_string ds with
         | Some u => Some (Z.of_uint u, rest)
         | None => None
         end
  end.

(** An integer literal, with an optional sign. *)
Definition lex_number (s : string) : option (Z * string) :=
  match s with
  | String "-"%char r =>
      match lex_digits r with
      | Some (n, rest) => Some (- n, rest)
      | None => None
      end
  | _ => lex_digits s
  end.

Definition keyword (w : string) : token :=
  if String.eqb w "in" then TIn
  else if String.eqb w "and" then TAnd
  else if String.eqb w "or" then TOr
  else TIdent w.

Fixpoint lex (fuel : nat) (s : string) : option (list token) :=
  match fuel with
  | O => None
  | S fuel =>
      match s with
      | EmptyString => Some []
      | String c r =>
          if is_space c then lex fuel r
          else match lex_number s with
          | Some (n, rest) => cons (TInt n) <$> lex fuel rest
          | None =>
              if is_ident_start c then
                let '(w, rest) := span is_ident_char s in
                cons (keyword w) <$> lex fuel rest
              else match c, r with
              | "="%char, String "="%char r' => cons TEq <$> lex fuel r'
              | "&"%char, String "&"%char r' => cons TAnd <$> lex fuel r'
              | "|"%char, String "|"%char r' => cons TOr <$> lex fuel r'
              | "["%char, _ => cons TLBracket <$> lex fuel r
              | "]"%char, _ => cons TRBracket <$> lex fuel r
              | ","%char, _ => cons TComma <$> lex fuel r
              | "("%char, _ => cons TLParen <$> lex fuel r
              | ")"%char, _ => cons TRParen <$> lex fuel r
              | _, _ => None
              end
          end
      end
  end.

Definition tokenize (s : string) : option (list token) :=
  lex (S (String.length s)) s.

Inductive expr : Type :=
| EEq (field : string) (n : Z)
| EIn (field : string) (ns : list Z)
| EAnd (a b : expr)
| EOr (a b : expr).

(** The elements of a list literal, after the opening bracket. *)
Fixpoint parse_elems (ts : list token) : option (list Z * list token) :=
  match ts with
  | TRBracket :: rest => Some ([], rest)
  | TInt n :: TRBracket :: rest => Some ([n], rest)
  | TInt n :: TComma :: rest =>
      match parse_elems rest with
      | Some (ns, rest') => Some (n :: ns, rest')
      | None => None
      end
  | _ => None
  end.

Fixpoint parse_or (fuel : nat) (ts : list token) : option (expr * list token) :=
  match fuel with
  | O => None
  | S fuel =>
      match parse_and fuel ts with
      | Some (a, TOr :: rest) =>
          match parse_or fuel rest with
          | Some (b, rest') => Some (EOr a b, rest')
          | None => None
          end
      | r => r
      end
  end
with parse_and (fuel : nat) (ts : list token) : option (expr * list token) :=
  match fuel with
  | O => None
  | S fuel =>
      match parse_atom fuel ts with
      | Some (a, TAnd :: rest) =>
          match parse_and fuel rest with
          | Some (b, rest') => Some (EAnd a b, rest')
          | None => None
          end
      | r => r
      end
  end
with parse_atom (fuel : nat) (ts : list token) : option (expr * list token) :=
  match fuel with
  | O => None
  | S fuel =>
      match ts with
      | TIdent f :: TEq :: TInt n :: rest => Some (EEq f n, rest)
      | TIdent f :: TIn :: TLBracket :: rest =>
          match parse_elems rest with
          | Some (ns, rest') => Some (EIn f ns, rest')
          | None => None
          end
      | TLParen :: rest =>
          match parse_or fuel rest with
          | Some (e, TRParen :: rest') => Some (e, rest')
          | _ => None
          end
      | _ => None
      end
  end.

Definition parse (s : string) : option expr :=
  match tokenize s with
  | Some ts =>
      match parse_or (3 * S (length ts)) ts with
      | Some (e, []) => Some e
      | _ => None
      end
  | None => None
  end.

(** The integer fields of the schema. *)
Definition int_field {V} (f : string) : option (Row V → Z) :=
  if String.eqb f "id" then Some pk
  else if String.eqb f "tenant_id" then Some (λ r, tenant_id (fields r))
  else if String.eqb f "document_id" then Some (λ r, document_id (fields r))
  else if String.eqb f "chunk_index" then Some (λ r, chunk_index (fields r))
  else if String.eqb f "chunk_version" then Some (λ r, chunk_version (fields r))
  else None.

(** The predicate an expression denotes; [None] when it names something
    that is not an integer field. *)
Fixpoint denote {V} (e : expr) : option (Row V → bool) :=
  match e with
  | EEq f n => (λ g r, g r =? n) <$> int_field f
  | EIn f ns => (λ g r, bool_decide (g r ∈ ns)) <$> int_field f
  | EAnd a b =>
      match denote a, denote b with
      | Some p, Some q => Some (λ r, p r && q r)
      | _, _ => None
      end
  | EOr a b =>
      match denote a, denote b with
      | Some p, Some q => Some (λ r, p r || q r)
      | _, _ => None
      end
  end.

Definition compile {V} (s : string) : exn + (Row V → bool) :=
  match parse s with
  | Some e =>
      match denote e with
      | Some p => inr p
      | None => inl (Exception "MilvusException: field not supported")
      end
  | None => inl (Exception "MilvusException: cannot parse expression")
  end.

(** [collection.query(expr=...)]: the rows that satisfy the expression. *)
Definition query {V} (e : string) : M (Collection V) (list (Row V)) :=
  let* p := lift (compile e) in
  let* c := get in
  ret (filter (λ r, p r = true) (rows c)).

(** The distance the index ranks by (metric type L2). *)
Class Metric (V : Type) : Type := {
  score : Type;
  distance : V → V → score;
  score_leb : score → score → bool
}.

Fixpoint insert_hit {V} `{Metric V} (h : score * Row V)
    (l : list (score * Row V)) : list (score * Row V) :=
  match l with
  | [] => [h]
  | h' :: r => if score_leb h.1 h'.1 then h :: l else h' :: insert_hit h r
  end.

Definition nearest_first {V} `{Metric V} (q : V) (l : list (Row V))
    : list (score * Row V) :=
  foldr insert_hit [] ((λ r, (distance q (vector r), r)) <$> l).

(** [collection.search(data=[q], limit=k, expr=...)]: the client refuses
    a [limit] that is not positive before anything is sent
    ([ParamError]); otherwise the answer is the [k] nearest rows among
    those that satisfy the expression, with their distances. *)
Definition search {V} `{Metric V} (q : V) (limit : Z) (e : string)
    : M (Collection V) (list (score * Row V)) :=
  if limit <=? 0 then raise (Exception "ParamError: `limit` value is illegal")
  else
    let* p := lift (compile e) in
    let* c := get in
    ret (take (Z.to_nat limit)
           (nearest_first q (filter (λ r, p r = true) (rows c)))).

(** [collection.delete(expr)]: the rows that satisfy the expression go. *)
Definition delete {V} (e : string) : M (Collection V) unit :=
  let* p := lift (compile e) in
  modify (λ c, mkCollection (filter (λ r, p r = false) (rows c)) (next_pk c)).

(** One inserted entity: the vector is mandatory and [source] is a
    VARCHAR field. *)
Definition insert_one {V} (it : Item V) : M (Collection V) Z :=
  match embedding it, source it with
  | Some v, PStr _ =>
      let* c := get in
      put (mkCollection (rows c ++ [mkRow (next_pk c) it v]) (next_pk c + 1)) ;;;
      ret (next_pk c)
  | _, _ => raise (Exception "MilvusException: data does not match the schema")
  end.

Fixpoint insert_all {V} (its : list (Item V)) : M (Collection V) (list Z) :=
  match its with
  | [] => ret []
  | it :: rest =>
      let* k := insert_one it in
      let* ks := insert_all rest in
      ret (k :: ks)
  end.

(** [collection.insert(rows)]: nothing is stored unless every row is
    accepted; the result holds the generated primary keys. *)
Definition insert {V} (its : list (Item V)) : M (Collection V) (list Z) :=
  λ c, match insert_all its c with
       | (inr ks, c') => (inr ks, c')
       | (inl e, _) => (inl e, c)
       end.

End MilvusDB.

(** ** milvus_service.py *)

(** [hashlib.sha256(data).hexdigest()] of the UTF-8 encoding of a string. *)
Class Digest : Type := { sha256_hexdigest : string → string }.

Module MilvusService.
Import MilvusDB.

(** The service is modelled with its connection established
    ([get_collection] answers the collection) and with tenant and
    document ids that fit the INT64 fields of the schema; what the
    methods do when the server cannot be reached is outside the model. *)

(** A chunk dictionary; every key but ['text'] may be absent. *)
Record Chunk : Type := mkChunk {
  c_text : string;
  c_source : option pyval;
  c_metadata : option (gmap string pyval);
  c_chunk_index : option Z
}.

Record Stats : Type := mkStats { chunk_count : Z; latest_version : Z }.

(** One formatted search result. *)
Record Hit (S : Type) : Type := mkHit {
  hit_text : string;
  hit_source : pyval;
  hit_metadata : gmap string pyval;
  hit_score : S;
  hit_document_id : Z;
  hit_chunk_version : Z
}.
Global Arguments mkHit {S}.
Global Arguments hit_text {S}.
Global Arguments hit_source {S}.
Global Arguments hit_metadata {S}.
Global Arguments hit_score {S}.
Global Arguments hit_document_id {S}.
Global Arguments hit_chunk_version {S}.

Section Service.
Context {V : Type} `{Digest}.

Definition compute_content_hash (text : string) : string :=
  sha256_hexdigest text.

Definition batch_size : nat := 1000.

(** [chunk.get('source', '')[:512]]. *)
Definition source_prefix (chunk : Chunk) : exn + pyval :=
  match default (PStr EmptyString) (c_source chunk) with
  | PStr s => inr (PStr (str_take 512 s))
  | PInts l => inr (PInts (take 512 l))
  | PInt _ | PNone => inl TypeError
  end.

(** The dictionary built for the chunk at position [i]. *)
Definition prepare_item (tenant_id document_id chunk_version : Z)
    (embeddings : option (list V)) (i : nat) (chunk : Chunk) : exn + Item V :=
  let content_hash := compute_content_hash (c_text chunk) in
  match source_prefix chunk with
  | inr src =>
      match
        match embeddings with
        | Some a =>
            match ndarray_row a (Z.of_nat i) with
            | inr v => inr (Some v)
            | inl x => inl x
            end
        | None => inr None
        end
      with
      | inr e =>
          inr {| tenant_id := tenant_id;
                 document_id := document_id;
                 chunk_index := default (Z.of_nat i) (c_chunk_index chunk);
                 chunk_version := chunk_version;
                 content_hash := content_hash;
                 text := str_take 65535 (c_text chunk);
                 source := src;
                 metadata := default ∅ (c_metadata chunk);
                 embedding := e |}
      | inl x => inl x
      end
  | inl x => inl x
  end.

(** [for i, chunk in enumerate(chunks): data.append(...)], from [i]. *)
Fixpoint prepare_data (tenant_id document_id chunk_version : Z)
    (embeddings : option (list V)) (i : nat) (chunks : list Chunk)
    : exn + list (Item V) :=
  match chunks with
  | [] => inr []
  | chunk :: rest =>
      match prepare_item tenant_id document_id chunk_version embeddings i chunk with
      | inr item =>
          match prepare_data tenant_id document_id chunk_version embeddings (S i) rest with
          | inr items => inr (item :: items)
          | inl x => inl x
          end
      | inl x => inl x
      end
  end.

(** [item['embedding'] =
      batch_embeddings[item['chunk_index'] - batch[0]['chunk_index']]]. *)
Definition realign_item (first : Item V) (batch_embeddings : option (list V))
    (item : Item V) : exn + Item V :=
  match batch_embeddings with
  | Some be =>
      match ndarray_row be (chunk_index item - chunk_index first) with
      | inr v =>
          inr {| tenant_id := tenant_id item;
                 document_id := document_id item;
                 chunk_index := chunk_index item;
                 chunk_version := chunk_version item;
                 content_hash := content_hash item;
                 text := text item;
                 source := source item;
                 metadata := metadata item;
                 embedding := Some v |}
      | inl x => inl x
      end
  | None => inr item
  end.

Fixpoint realign_items (first : Item V) (batch_embeddings : option (list V))
    (items : list (Item V)) : exn + list (Item V) :=
  match items with
  | [] => inr []
  | item :: rest =>
      match realign_item first batch_embeddings item with
      | inr item' =>
          match realign_items first batch_embeddings rest with
          | inr rest' => inr (item' :: rest')
          | inl x => inl x
          end
      | inl x => inl x
      end
  end.

(** [insert_data] for one batch. *)
Definition realign (batch : list (Item V)) (batch_embeddings : option (list V))
    : exn + list (Item V) :=
  match batch with
  | [] => inr []
  | first :: _ => realign_items first batch_embeddings batch
  end.

(** One turn of [for i in range(0, len(data), batch_size)]. *)
Definition insert_batch (data : list (Item V)) (embeddings : option (list V))
    (i : nat) : M (Collection V) (list Z) :=
  let batch := slice data i (i + batch_size) in
  let batch_embeddings := (λ a, slice a i (i + batch_size)) <$> embeddings in
  let* insert_data := lift (realign batch batch_embeddings) in
  insert insert_data.

Fixpoint insert_batches (data : list (Item V)) (embeddings : option (list V))
    (starts : list nat) : M (Collection V) (list Z) :=
  match starts with
  | [] => ret []
  | i :: rest =>
      let* ks := insert_batch data embeddings i in
      let* ks' := insert_batches data embeddings rest in
      ret (ks ++ ks')
  end.

Definition insert_chunks (tenant_id document_id : Z) (chunks : list Chunk)
    (chunk_version : Z) (embeddings : option (list V))
    : M (Collection V) (list Z) :=
  let* data :=
    lift (prepare_data tenant_id document_id chunk_version embeddings 0 chunks) in
  insert_batches data embeddings (range_step 0 (length data) batch_size).

(** The filter expression of [search]. *)
Fixpoint add_filters (expr : string) (filters : list (string * pyval)) : string :=
  match filters with
  | [] => expr
  | (key, value) :: rest =>
      add_filters
        (match value with
         | PInts _ => expr +:+ " && " +:+ key +:+ " in " +:+ val_str value
         | _ => expr +:+ " && " +:+ key +:+ " == " +:+ val_str value
         end) rest
  end.

Definition search_expr (tenant_id : Z) (filters : option (list (string * pyval)))
    : string :=
  add_filters ("tenant_id == " +:+ int_str tenant_id) (default [] filters).

Definition format_hit `{Metric V} (h : score * Row V) : Hit score :=
  {| hit_text := text (fields h.2);
     hit_source := source (fields h.2);
     hit_metadata := metadata (fields h.2);
     hit_score := h.1;
     hit_document_id := document_id (fields h.2);
     hit_chunk_version := chunk_version (fields h.2) |}.

Definition search `{Metric V} (tenant_id : Z) (query_embedding : V) (top_k : Z)
    (filters : option (list (string * pyval)))
    : M (Collection V) (list (Hit score)) :=
  let expr := search_expr tenant_id filters in
  let* results := MilvusDB.search query_embedding top_k expr in
  ret (format_hit <$> results).

(** The expression shared by the per-document operations. *)
Definition document_expr (tenant_id document_id : Z) : string :=
  "tenant_id == " +:+ int_str tenant_id +:+ " && document_id == "
    +:+ int_str document_id.

Definition delete_document_chunks (tenant_id document_id : Z)
    : M (Collection V) unit :=
  let expr := document_expr tenant_id document_id in
  delete expr.

Definition get_document_stats (tenant_id document_id : Z)
    : M (Collection V) Stats :=
  let expr := document_expr tenant_id document_id in
  let* results := query expr in
  match results with
  | [] => ret {| chunk_count := 0; latest_version := 0 |}
  | _ =>
      let versions := (λ r, chunk_version (fields r)) <$> results in
      ret {| chunk_count := Z.of_nat (length results);
             latest_version := max_list versions |}
  end.

End Service.
End MilvusService.

(** ** models.py: the relational tables the core reads and writes *)

Module Models.

Record BaseModel : Type := mkBaseModel {
  bm_name : string;
  bm_model_type : string;
  bm_hf_model_id : string;
  bm_is_loaded : bool
}.

Record Model : Type := mkModel {
  m_tenant_id : Z;
  m_name : string;
  m_base_model_id : Z
}.

Record LoRAAdapter : Type := mkLoRAAdapter {
  a_id : Z;
  a_model_id : Z;
  a_name : string;
  a_adapter_path : string
}.

Record Document : Type := mkDocument {
  d_tenant_id : Z;
  d_name : string;
  d_status : string;
  d_chunk_count : Z;
  d_version : Z
}.

(** Tables read by primary key are maps from the key; the adapter table,
    read with a filter, is the list of its rows. *)
Record Database : Type := mkDatabase {
  base_models : gmap Z BaseModel;
  models : gmap Z Model;
  lora_adapters : list LoRAAdapter;
  documents : gmap Z Document
}.

Definition set_base_models (f : gmap Z BaseModel → gmap Z BaseModel)
    (d : Database) : Database :=
  mkDatabase (f (base_models d)) (models d) (lora_adapters d) (documents d).

Definition set_documents (f : gmap Z Document → gmap Z Document)
    (d : Database) : Database :=
  mkDatabase (base_models d) (models d) (lora_adapters d) (f (documents d)).

End Models.

(** ** vllm_service.py *)

Module vLLMService.

(** The requests posted to the inference server. *)
Inductive Request : Type :=
| ModelsLoad (model model_path : string)
| AdaptersLoad (model adapter_name adapter_path : string)
| AdaptersUnload (model adapter_name : string).

(** The inference server: the status code it answers to a request, given
    the requests it has received before; [None] when [requests.post]
    raises. *)
Class Server : Type := { post : list Request → Request → option Z }.

Record t : Type := mk {
  loaded_models : gmap string string;
  loaded_adapters : gmap string (gmap string string);
  sent : list Request
}.

Section Service.
Context `{Server}.

(** [requests.post(...)]: the request is recorded, the answer is the
    server's. *)
Definition send (r : Request) : M t (option Z) :=
  λ s, (inr (post (sent s) r),
        mk (loaded_models s) (loaded_adapters s) (sent s ++ [r])).

Definition load_base_model (model_name model_path : string) : M t bool :=
  let* response := send (ModelsLoad model_name model_path) in
  match response with
  | Some status_code =>
      if status_code =? 200 then
        modify (λ s, mk (<[model_name := model_path]> (loaded_models s))
                        (loaded_adapters s) (sent s)) ;;;
        ret true
      else ret false
  | None => ret false
  end.

Definition load_lora_adapter (model_name adapter_name adapter_path : string)
    : M t bool :=
  let* response := send (AdaptersLoad model_name adapter_name adapter_path) in
  match response with
  | Some status_code =>
      if status_code =? 200 then
        modify (λ s,
          let per_model := default ∅ (loaded_adapters s !! model_name) in
          mk (loaded_models s)
             (<[model_name := <[adapter_name := adapter_path]> per_model]>
                (loaded_adapters s))
             (sent s)) ;;;
        ret true
      else ret false
  | None => ret false
  end.

Definition unload_lora_adapter (model_name adapter_name : string) : M t bool :=
  let* response := send (AdaptersUnload model_name adapter_name) in
  match response with
  | Some status_code => ret (status_code =? 200)
  | None => ret false
  end.

End Service.
End vLLMService.

(** ** lora_manager.py *)

Module LoRAManager.
Import Models.

Record t : Type := mk {
  vllm : vLLMService.t;
  adapter_cache : gmap string string;
  adapter_base_path : string;
  db : Database
}.

Definition set_vllm (v : vLLMService.t) (s : t) : t :=
  mk v (adapter_cache s) (adapter_base_path s) (db s).
Definition set_adapter_cache (f : gmap string string → gmap string string)
    (s : t) : t :=
  mk (vllm s) (f (adapter_cache s)) (adapter_base_path s) (db s).
Definition set_db (f : Database → Database) (s : t) : t :=
  mk (vllm s) (adapter_cache s) (adapter_base_path s) (f (db s)).

(** [os.path.join(a, b)] for a relative [b]. *)
Fixpoint ends_with_slash (a : string) : bool :=
  match a with
  | EmptyString => false
  | String c EmptyString => Ascii.eqb c "/"
  | String _ r => ends_with_slash r
  end.

Definition path_join (a b : string) : string :=
  match a with
  | EmptyString => b
  | _ => if ends_with_slash a then a +:+ b else a +:+ "/" +:+ b
  end.

Section Manager.
Context `{vLLMService.Server}.

Definition get_adapter_path (adapter_id : Z) : M t string :=
  let* s := get in
  ret (path_join (adapter_base_path s) ("adapter_" +:+ int_str adapter_id)).

(** [LoRAAdapter.query.filter(LoRAAdapter.id.in_(adapter_ids),
      LoRAAdapter.model_id == model_id).all()]. *)
Definition query_adapters (adapter_ids : list Z) (model_id : Z)
    : M t (list LoRAAdapter) :=
  let* s := get in
  ret (filter (λ a, a_id a ∈ adapter_ids ∧ a_model_id a = model_id)
         (lora_adapters (db s))).

(** The body of [for adapter in adapters]. *)
Definition load_one (base_model : BaseModel) (adapter : LoRAAdapter)
    : M t string :=
  let* adapter_path := get_adapter_path (a_id adapter) in
  let cache_key := bm_name base_model +:+ "_" +:+ int_str (a_id adapter) in
  let* s := get in
  match adapter_cache s !! cache_key with
  | None =>
      let adapter_name := "adapter_" +:+ int_str (a_id adapter) in
      let* success :=
        zoom vllm set_vllm
          (vLLMService.load_lora_adapter (bm_name base_model) adapter_name
             adapter_path) in
      if success : bool then
        modify (set_adapter_cache (insert cache_key adapter_name)) ;;;
        ret adapter_name
      else
        raise (Exception ("Failed to load adapter " +:+ int_str (a_id adapter)))
  | Some name => ret name
  end.

Fixpoint load_each (base_model : BaseModel) (adapters : list LoRAAdapter)
    : M t (list string) :=
  match adapters with
  | [] => ret []
  | adapter :: rest =>
      let* name := load_one base_model adapter in
      let* names := load_each base_model rest in
      ret (name :: names)
  end.

Definition load_adapters_for_inference (model_id : Z) (adapter_ids : list Z)
    : M t (list string) :=
  let* s := get in
  match models (db s) !! model_id with
  | None => raise (ValueError ("Model " +:+ int_str model_id +:+ " not found"))
  | Some model =>
      match base_models (db s) !! m_base_model_id model with
      | None =>
          raise (ValueError ("Base model " +:+ int_str (m_base_model_id model)
                               +:+ " not found"))
      | Some base_model =>
          let* adapters := query_adapters adapter_ids model_id in
          if bool_decide (length adapters ≠ length adapter_ids) then
            raise (ValueError "Some adapters not found")
          else load_each base_model adapters
      end
  end.

Definition unload_adapter (model_id adapter_id : Z) : M t unit :=
  let* s := get in
  match models (db s) !! model_id with
  | None => ret tt
  | Some model =>
      match base_models (db s) !! m_base_model_id model with
      | None => ret tt
      | Some base_model =>
          let cache_key := bm_name base_model +:+ "_" +:+ int_str adapter_id in
          match adapter_cache s !! cache_key with
          | Some adapter_name =>
              zoom vllm set_vllm
                (vLLMService.unload_lora_adapter (bm_name base_model) adapter_name) ;;;
              modify (set_adapter_cache (base.delete cache_key))
          | None => ret tt
          end
      end
  end.

Definition ensure_base_model_loaded (base_model_id : Z) : M t string :=
  let* s := get in
  match base_models (db s) !! base_model_id with
  | None =>
      raise (ValueError ("Base model " +:+ int_str base_model_id +:+ " not found"))
  | Some base_model =>
      match vLLMService.loaded_models (vllm s) !! bm_name base_model with
      | None =>
          let* success :=
            zoom vllm set_vllm
              (vLLMService.load_base_model (bm_name base_model)
                 (bm_hf_model_id base_model)) in
          if success : bool then
            modify (set_db (set_base_models
              (insert base_model_id
                 (mkBaseModel (bm_name base_model) (bm_model_type base_model)
                    (bm_hf_model_id base_model) true)))) ;;;
            ret (bm_name base_model)
          else
            raise (Exception ("Failed to load base model " +:+ bm_name base_model))
      | Some _ => ret (bm_name base_model)
      end
  end.

End Manager.
End LoRAManager.

(** ** data_ingestion.py *)

Module DataIngestionService.
Import MilvusDB MilvusService.

(** A loaded unit ([llama_index.core.Document]). *)
Record Document : Type := mkDocument { doc_text : string; doc_metadata : gmap string pyval }.

Abbreviation DocModel := Models.Document.

(** The llama-index package: readers, splitter and embedding model. *)
Class LlamaIndex (V : Type) : Type := {
  LLAMA_INDEX_AVAILABLE : bool;
  SimpleDirectoryReader_load_data : option string → exn + list Document;
  CSVReader_load_data : option string → exn + list Document;
  PptxReader_load_data : option string → exn + list Document;
  TokenTextSplitter_split_text : string → list string;
  get_text_embedding_batch : list string → exn + list V
}.

(** The page fetch of [_load_url] (browser first, plain request as the
    fallback); its own failures end in an empty list. *)
Class Web : Type := { fetch_page : option string → list Document }.

(** A queue entry. *)
Record Job : Type := mkJob {
  job_tenant_id : Z;
  job_document_id : Z;
  job_file_type : string;
  job_file_path : option string;
  job_source_url : option string
}.

Record t (V : Type) : Type := mk {
  milvus : Collection V;
  db : Models.Database;
  embedding_calls : list (list string)
}.
Global Arguments mk {V}.
Global Arguments milvus {V}.
Global Arguments db {V}.
Global Arguments embedding_calls {V}.

Definition set_milvus {V} (c : Collection V) (s : t V) : t V :=
  mk c (db s) (embedding_calls s).
Definition set_db {V} (f : Models.Database → Models.Database) (s : t V) : t V :=
  mk (milvus s) (f (db s)) (embedding_calls s).

Section Service.
Context {V : Type} `{Digest} `{LlamaIndex V} `{Web}.

(** [try: return reader(...) except: return []]. *)
Definition or_empty (r : exn + list Document) : list Document :=
  match r with
  | inr docs => docs
  | inl _ => []
  end.

Definition _load_pdf (file_path : option string) : list Document :=
  if negb LLAMA_INDEX_AVAILABLE then []
  else or_empty (SimpleDirectoryReader_load_data file_path).

Definition _load_csv (file_path : option string) : list Document :=
  if negb LLAMA_INDEX_AVAILABLE then []
  else or_empty (CSVReader_load_data file_path).

Definition _load_txt (file_path : option string) : list Document :=
  if negb LLAMA_INDEX_AVAILABLE then []
  else or_empty (SimpleDirectoryReader_load_data file_path).

Definition _load_pptx (file_path : option string) : list Document :=
  if negb LLAMA_INDEX_AVAILABLE then []
  else or_empty (PptxReader_load_data file_path).

Definition _load_url (url : option string) : list Document :=
  if negb LLAMA_INDEX_AVAILABLE then [] else fetch_page url.

Definition opt_val (o : option string) : pyval :=
  match o with
  | Some s => PStr s
  | None => PNone
  end.

Definition _load_image (file_path : option string) (image_type : string)
    : list Document :=
  if negb LLAMA_INDEX_AVAILABLE then []
  else [ {| doc_text := "Image content from " +:+ val_str (opt_val file_path);
            doc_metadata := {[ "source"%string := opt_val file_path ]} |} ].

Definition _load_document (file_type : string) (file_path source_url : option string)
    : list Document :=
  if String.eqb file_type "pdf" then _load_pdf file_path
  else if String.eqb file_type "csv" then _load_csv file_path
  else if String.eqb file_type "txt" then _load_txt file_path
  else if String.eqb file_type "pptx" then _load_pptx file_path
  else if String.eqb file_type "url" then _load_url source_url
  else if bool_decide (file_type ∈ ["image"; "image_ocr"; "image_desc"; "image_tabular"]%string)
  then _load_image file_path file_type
  else [].

(** [text[i:i + 4096] for i in range(0, len(text), 4096)]. *)
Fixpoint fixed_slices (fuel : nat) (text : string) : list string :=
  match fuel with
  | O => []
  | S fuel =>
      match text with
      | EmptyString => []
      | _ => str_take 4096 text :: fixed_slices fuel (str_drop 4096 text)
      end
  end.

Definition doc_source (doc : Document) : pyval :=
  default (PStr EmptyString) (doc_metadata doc !! "source"%string).

(** The inner loop over the pieces of one document; [chunks] is the list
    built so far, [chunk_idx] the position of the next piece. *)
Fixpoint chunk_pieces (doc : Document) (doc_idx chunk_idx : nat)
    (pieces : list string) (chunks : list Chunk) : list Chunk :=
  match pieces with
  | [] => chunks
  | chunk_text :: rest =>
      chunk_pieces doc doc_idx (S chunk_idx) rest
        (chunks ++
           [ {| c_text := chunk_text;
                c_source := Some (doc_source doc);
                c_metadata :=
                  Some (if LLAMA_INDEX_AVAILABLE then
                          <[ "chunk_index"%string := PInt (Z.of_nat chunk_idx) ]>
                            (<[ "doc_index"%string := PInt (Z.of_nat doc_idx) ]>
                               (doc_metadata doc))
                        else doc_metadata doc);
                c_chunk_index := Some (Z.of_nat (length chunks)) |} ])
  end.

Fixpoint chunk_docs (docs : list Document) (doc_idx : nat) (chunks : list Chunk)
    : list Chunk :=
  match docs with
  | [] => chunks
  | doc :: rest =>
      let pieces :=
        if LLAMA_INDEX_AVAILABLE then TokenTextSplitter_split_text (doc_text doc)
        else fixed_slices (String.length (doc_text doc)) (doc_text doc) in
      chunk_docs rest (S doc_idx) (chunk_pieces doc doc_idx 0 pieces chunks)
  end.

Definition _chunk_documents (docs : list Document) (tenant_id document_id : Z)
    : list Chunk :=
  chunk_docs docs 0 [].

Definition _compute_embeddings (chunks : list Chunk) : M (t V) (list V) :=
  if negb LLAMA_INDEX_AVAILABLE then
    raise (ImportError "llama-index packages are required for data ingestion")
  else
    let texts := c_text <$> chunks in
    modify (λ s, mk (milvus s) (db s) (embedding_calls s ++ [texts])) ;;;
    lift (get_text_embedding_batch texts).

(** [doc = DocModel.query.get(document_id); if doc: ...; commit()]. *)
Definition update_document (document_id : Z) (f : DocModel → DocModel)
    : M (t V) unit :=
  modify (set_db (Models.set_documents (λ docs,
    match docs !! document_id with
    | Some doc => <[document_id := f doc]> docs
    | None => docs
    end))).

Definition with_status (status : string) (doc : DocModel) : DocModel :=
  Models.mkDocument (Models.d_tenant_id doc) (Models.d_name doc) status
    (Models.d_chunk_count doc) (Models.d_version doc).

Definition with_result (chunk_count version : Z) (doc : DocModel) : DocModel :=
  Models.mkDocument (Models.d_tenant_id doc) (Models.d_name doc) "ready"
    chunk_count version.

(** The hashes stored for the document, or the empty set when the
    statistics report no chunk. *)
Definition existing_hashes_of (existing_stats : Stats) (tenant_id document_id : Z)
    : M (t V) (gset string) :=
  if 0 <? chunk_count existing_stats then
    let* existing_chunks :=
      zoom milvus set_milvus
        (query ("tenant_id == " +:+ int_str tenant_id +:+ " && document_id == "
                  +:+ int_str document_id)) in
    ret (list_to_set ((λ c, content_hash (fields c)) <$> existing_chunks))
  else ret ∅.

(** The chunks whose hash is not stored yet, in their order. *)
Definition select_new (chunks : list Chunk) (existing_hashes : gset string)
    : list Chunk :=
  filter (λ chunk, compute_content_hash (c_text chunk) ∉ existing_hashes) chunks.

(** The [try] block of [_process_document]. *)
Definition process_body (doc_info : Job) : M (t V) unit :=
  let tenant_id := job_tenant_id doc_info in
  let document_id := job_document_id doc_info in
  let docs :=
    _load_document (job_file_type doc_info) (job_file_path doc_info)
      (job_source_url doc_info) in
  let* existing_stats :=
    zoom milvus set_milvus (get_document_stats tenant_id document_id) in
  let chunks := _chunk_documents docs tenant_id document_id in
  let* existing_hashes := existing_hashes_of existing_stats tenant_id document_id in
  let new_chunks := select_new chunks existing_hashes in
  match new_chunks with
  | _ :: _ =>
      let new_version := latest_version existing_stats + 1 in
      let* embeddings := _compute_embeddings new_chunks in
      let* inserted_ids :=
        zoom milvus set_milvus
          (insert_chunks tenant_id document_id new_chunks new_version
             (Some embeddings)) in
      update_document document_id
        (with_result (chunk_count existing_stats + Z.of_nat (length new_chunks))
           new_version)
  | [] => update_document document_id (with_status "ready")
  end.

Definition _process_document (doc_info : Job) : M (t V) unit :=
  try_except (process_body doc_info)
    (λ e, update_document (job_document_id doc_info) (with_status "failed")).

(** [asyncio.gather] with [return_exceptions=True] in the schedule in
    which each task runs to completion before the next one is resumed:
    an exception becomes the task's entry in the result list.  The
    other schedules are those of [event_loop] below. *)
Fixpoint gather_return_exceptions {S A} (tasks : list (M S A))
    : M S (list (exn + A)) :=
  match tasks with
  | [] => ret []
  | task :: rest =>
      λ s, match task s with
           | (r, s') =>
               match gather_return_exceptions rest s' with
               | (inr rs, s'') => (inr (r :: rs), s'')
               | (inl e, s'') => (inl e, s'')
               end
           end
  end.

Definition _process_batch (batch : list Job) : M (t V) unit :=
  let tasks := _process_document <$> batch in
  gather_return_exceptions tasks ;;; ret tt.

(** *** The coroutine of [_process_document] between its suspensions

    The coroutine gives the event loop back where it awaits the thread
    pool: in [_load_document] and in [_compute_embeddings].
    [_chunk_documents] awaits nothing and does not suspend.  A
    suspended coroutine holds the local variables it needs later. *)
Inductive Coroutine : Type :=
| AwaitLoad (doc_info : Job)
| AwaitEmbeddings (doc_info : Job) (existing_stats : Stats)
    (new_chunks : list Chunk)
| Returned.

(** The [except] block, after which the coroutine returns. *)
Definition on_exception (doc_info : Job) (e : exn) : M (t V) Coroutine :=
  update_document (job_document_id doc_info) (with_status "failed") ;;;
  ret Returned.

(** From the loaded documents to the submission of the embedding
    batch, or to the end when no chunk is new. *)
Definition after_load (doc_info : Job) : M (t V) Coroutine :=
  let tenant_id := job_tenant_id doc_info in
  let document_id := job_document_id doc_info in
  let docs :=
    _load_document (job_file_type doc_info) (job_file_path doc_info)
      (job_source_url doc_info) in
  let* existing_stats :=
    zoom milvus set_milvus (get_document_stats tenant_id document_id) in
  let chunks := _chunk_documents docs tenant_id document_id in
  let* existing_hashes := existing_hashes_of existing_stats tenant_id document_id in
  let new_chunks := select_new chunks existing_hashes in
  match new_chunks with
  | _ :: _ =>
      if negb LLAMA_INDEX_AVAILABLE then
        raise (ImportError "llama-index packages are required for data ingestion")
      else
        let texts := c_text <$> new_chunks in
        modify (λ s, mk (milvus s) (db s) (embedding_calls s ++ [texts])) ;;;
        ret (AwaitEmbeddings doc_info existing_stats new_chunks)
  | [] =>
      update_document document_id (with_status "ready") ;;;
      ret Returned
  end.

(** From the answer of the embedding batch to the end. *)
Definition after_embeddings (doc_info : Job) (existing_stats : Stats)
    (new_chunks : list Chunk) : M (t V) Coroutine :=
  let tenant_id := job_tenant_id doc_info in
  let document_id := job_document_id doc_info in
  let new_version := latest_version existing_stats + 1 in
  let* embeddings := lift (get_text_embedding_batch (c_text <$> new_chunks)) in
  let* inserted_ids :=
    zoom milvus set_milvus
      (insert_chunks tenant_id document_id new_chunks new_version
         (Some embeddings)) in
  update_document document_id
    (with_result (chunk_count existing_stats + Z.of_nat (length new_chunks))
       new_version) ;;;
  ret Returned.

(** The coroutine runs from one suspension to the next. *)
Definition resume (co : Coroutine) : M (t V) Coroutine :=
  match co with
  | AwaitLoad doc_info =>
      try_except (after_load doc_info) (on_exception doc_info)
  | AwaitEmbeddings doc_info existing_stats new_chunks =>
      try_except (after_embeddings doc_info existing_stats new_chunks)
        (on_exception doc_info)
  | Returned => ret Returned
  end.

(** One turn of the event loop: the coroutine at position [i], whose
    thread-pool call has completed, is resumed. *)
Definition turn (i : nat) (tasks : list Coroutine) : M (t V) (list Coroutine) :=
  match tasks !! i with
  | Some co =>
      let* co' := resume co in
      ret (<[i := co']> tasks)
  | None => ret tasks
  end.

(** The event loop under [asyncio.gather]: [schedule] is the order in
    which the thread-pool calls complete. *)
Fixpoint event_loop (schedule : list nat) (tasks : list Coroutine)
    : M (t V) (list Coroutine) :=
  match schedule with
  | [] => ret tasks
  | i :: rest =>
      let* tasks' := turn i tasks in
      event_loop rest tasks'
  end.

(** The tasks [_process_batch] hands to [asyncio.gather]. *)
Definition spawn (batch : list Job) : list Coroutine := AwaitLoad <$> batch.

End Service.
End DataIngestionService.

(** ** inference_service.py *)

Module InferenceService.
Import Models MilvusDB MilvusService.

(** A row of [prompt_templates], with the columns the service reads. *)
Record PromptTemplate : Type := mkPromptTemplate {
  pt_tenant_id : Z;
  pt_is_default : bool;
  pt_agent_role : option string;
  pt_specific_rules : option string;
  pt_business_info : option string
}.

(** The embedding model of the queries and the chat endpoint of the
    inference server.  [HuggingFaceEmbedding] is [None] when the import
    failed, and otherwise what the constructor does; [P] stands for the
    sampling parameters (temperature and token limit). *)
Class Backend (V P : Type) : Type := {
  HuggingFaceEmbedding : option (exn + unit);
  get_text_embedding : string → exn + V;
  chat_completions_create :
    string → string → P → list (string * string) → exn + string
}.

(** The service's own state and that of the services it holds: the
    vector store, the adapter manager (with the inference gateway and the
    tables), the prompt templates, whether the embedding model is built,
    and the chat requests made so far (model, prompt, extra headers). *)
Record t (V : Type) : Type := mk {
  milvus : Collection V;
  lora_manager : LoRAManager.t;
  prompt_templates : list PromptTemplate;
  embed_model : bool;
  completions : list (string * string * list (string * string))
}.
Global Arguments mk {V}.
Global Arguments milvus {V}.
Global Arguments lora_manager {V}.
Global Arguments prompt_templates {V}.
Global Arguments embed_model {V}.
Global Arguments completions {V}.

Definition set_milvus {V} (c : Collection V) (s : t V) : t V :=
  mk c (lora_manager s) (prompt_templates s) (embed_model s) (completions s).
Definition set_lora_manager {V} (m : LoRAManager.t) (s : t V) : t V :=
  mk (milvus s) m (prompt_templates s) (embed_model s) (completions s).

(** The answer of [inference_llm]. *)
Record Answer : Type := mkAnswer {
  result : string;
  context : option string;
  answer_model_id : Z;
  adapters_used : list string
}.

(** A line break. *)
Definition nl : string := String "010"%char EmptyString.

(** A column that is set and not empty. *)
Definition truthy (o : option string) : option string :=
  match o with
  | Some (String c r) => Some (String c r)
  | _ => None
  end.

(** The system prompt made from a template. *)
Definition system_prompt_of (prompt_template : PromptTemplate) : string :=
  let parts :=
    omap id
      [ truthy (pt_agent_role prompt_template);
        truthy (pt_specific_rules prompt_template);
        (λ info, "Business Information:" +:+ nl +:+ info)
          <$> truthy (pt_business_info prompt_template) ] in
  join (nl +:+ nl) parts.

Definition build_prompt (system_prompt context user_input : string) : string :=
  match context with
  | String _ _ =>
      system_prompt +:+ nl +:+ nl +:+ "Context:" +:+ nl +:+ context
        +:+ nl +:+ nl +:+ "User: " +:+ user_input +:+ nl +:+ "Assistant:"
  | EmptyString =>
      match system_prompt with
      | String _ _ =>
          system_prompt +:+ nl +:+ nl +:+ "User: " +:+ user_input +:+ nl
            +:+ "Assistant:"
      | EmptyString => user_input
      end
  end.

Section Service.
Context {V P : Type} `{Metric V} `{vLLMService.Server} `{Backend V P}.

(** [vLLMService.inference] with [stream=False]: the adapters go into
    a header, an exception of the client is raised again. *)
Definition inference (model_name prompt : string)
    (adapter_names : option (list string)) (params : P) : M (t V) string :=
  let headers :=
    match adapter_names with
    | Some (name :: names) =>
        [("X-LoRA-Adapters"%string, join "," (name :: names))]
    | _ => []
    end in
  modify (λ s, mk (milvus s) (lora_manager s) (prompt_templates s)
                 (embed_model s)
                 (completions s ++ [(model_name, prompt, headers)])) ;;;
  lift (chat_completions_create model_name prompt params headers).

Definition _get_embed_model : M (t V) unit :=
  match HuggingFaceEmbedding with
  | None =>
      raise (ImportError
               "llama-index-embeddings-huggingface is required for RAG features")
  | Some construct =>
      let* s := get in
      if embed_model s then ret tt
      else
        lift construct ;;;
        modify (λ s, mk (milvus s) (lora_manager s) (prompt_templates s)
                       true (completions s))
  end.

Definition _retrieve_context (tenant_id : Z) (query : string) (top_k : Z)
    : M (t V) string :=
  _get_embed_model ;;;
  let* query_embedding := lift (get_text_embedding query) in
  let* results :=
    zoom milvus set_milvus
      (MilvusService.search tenant_id query_embedding top_k None) in
  match results with
  | _ :: _ => ret (join (nl +:+ nl) (hit_text <$> results))
  | [] => ret EmptyString
  end.

Definition inference_llm (tenant_id model_id : Z) (user_input : string)
    (adapter_ids : option (list Z)) (use_rag : bool) (params : P)
    : M (t V) Answer :=
  let* s := get in
  let db := LoRAManager.db (lora_manager s) in
  match
    filter (λ m, m_tenant_id m = tenant_id) (option_list (models db !! model_id))
  with
  | [] =>
      raise (ValueError ("Model " +:+ int_str model_id
                           +:+ " not found for tenant " +:+ int_str tenant_id))
  | model :: _ =>
      match base_models db !! m_base_model_id model with
      | None => raise (ValueError "Base model not found")
      | Some base_model =>
          let system_prompt :=
            match
              filter (λ p, pt_tenant_id p = tenant_id ∧ pt_is_default p = true)
                (prompt_templates s)
            with
            | prompt_template :: _ => system_prompt_of prompt_template
            | [] => EmptyString
            end in
          let* context :=
            if use_rag then _retrieve_context tenant_id user_input 3
            else ret EmptyString in
          let prompt := build_prompt system_prompt context user_input in
          let* model_name :=
            zoom lora_manager set_lora_manager
              (LoRAManager.ensure_base_model_loaded (m_base_model_id model)) in
          let* adapter_names :=
            match adapter_ids with
            | Some (adapter_id :: rest) =>
                let* names :=
                  zoom lora_manager set_lora_manager
                    (LoRAManager.load_adapters_for_inference model_id
                       (adapter_id :: rest)) in
                ret (Some names)
            | _ => ret None
            end in
          let* result := inference model_name prompt adapter_names params in
          ret {| result := result;
                 context := if use_rag then Some context else None;
                 answer_model_id := model_id;
                 adapters_used := default [] adapter_names |}
      end
  end.

End Service.
End InferenceService.

(** * Vocabulary of the statements

    The definitions below name what the properties talk about: the rows an
    expression selects, the states an operation reaches, and small concrete
    scenarios. *)

Module ExprSpec.
Import MilvusDB.

Definition no_digit_ahead (rest : string) : Prop :=
  ∀ c r, rest = String c r → is_digit c = false.

(** The rows a per-document expression selects. *)
Definition of_document {V} (tenant_id document_id : Z) (r : Row V) : bool :=
  (MilvusDB.tenant_id (fields r) =? tenant_id)
  && (MilvusDB.document_id (fields r) =? document_id).

End ExprSpec.

Module LoRASpec.
Import Models vLLMService LoRAManager.

Section Facts.

Context `{Server}.

Definition cache_key (base_model : BaseModel) (adapter : LoRAAdapter) : string :=
  bm_name base_model +:+ "_" +:+ int_str (a_id adapter).

Definition adapter_name (adapter : LoRAAdapter) : string :=
  "adapter_" +:+ int_str (a_id adapter).

Definition load_request (s : LoRAManager.t) (base_model : BaseModel)
    (adapter : LoRAAdapter) : Request :=
  AdaptersLoad (bm_name base_model) (adapter_name adapter)
    (path_join (adapter_base_path s) (adapter_name adapter)).

(** The state after the runtime accepted the adapter. *)
Definition loaded (s : LoRAManager.t) (base_model : BaseModel)
    (adapter : LoRAAdapter) : LoRAManager.t :=
  LoRAManager.mk
    (vLLMService.mk (loaded_models (vllm s))
       (<[bm_name base_model :=
            <[adapter_name adapter :=
                path_join (adapter_base_path s) (adapter_name adapter)]>
              (default ∅ (loaded_adapters (vllm s) !! bm_name base_model))]>
          (loaded_adapters (vllm s)))
       (sent (vllm s) ++ [load_request s base_model adapter]))
    (<[cache_key base_model adapter := adapter_name adapter]> (adapter_cache s))
    (adapter_base_path s) (db s).

(** The state after the runtime refused it. *)
Definition refused (s : LoRAManager.t) (base_model : BaseModel)
    (adapter : LoRAAdapter) : LoRAManager.t :=
  LoRAManager.mk
    (vLLMService.mk (loaded_models (vllm s)) (loaded_adapters (vllm s))
       (sent (vllm s) ++ [load_request s base_model adapter]))
    (adapter_cache s) (adapter_base_path s) (db s).

(** The rows the adapter query returns. *)
Definition resolved (s : LoRAManager.t) (model_id : Z) (adapter_ids : list Z)
    : list LoRAAdapter :=
  filter (λ a, a_id a ∈ adapter_ids ∧ a_model_id a = model_id)
    (lora_adapters (db s)).

(** The adapter is in the gateway's registry of adapters of the base
    model, under its runtime name and its managed path. *)
Definition in_runtime (s : LoRAManager.t) (base_model : BaseModel)
    (adapter : LoRAAdapter) : Prop :=
  (loaded_adapters (vllm s) !! bm_name base_model)
    ≫= (.!! adapter_name adapter)
  = Some (path_join (adapter_base_path s) (adapter_name adapter)).

(** What a call that started in [s] and ended in [s1] left of an adapter
    it went past: an adapter that was cached keeps its cache entry; an
    adapter that was not cached has been loaded, and it is now in the
    cache under its runtime name and in the registry of the gateway. *)
Definition kept_loaded (s s1 : LoRAManager.t) (base_model : BaseModel)
    (adapter : LoRAAdapter) : Prop :=
  (∃ n, adapter_cache s !! cache_key base_model adapter = Some n
        ∧ adapter_cache s1 !! cache_key base_model adapter = Some n)
  ∨ (adapter_cache s !! cache_key base_model adapter = None
     ∧ adapter_cache s1 !! cache_key base_model adapter
       = Some (adapter_name adapter)
     ∧ in_runtime s1 base_model adapter).

End Facts.

End LoRASpec.

Module LoRAOutcomes.
Import Models vLLMService LoRAManager LoRASpec.

(** The state [ensure_base_model_loaded] reaches when the runtime accepts
    the model: the registry and the flag are set, the request is recorded. *)
Definition model_loaded (s : LoRAManager.t) (base_model_id : Z)
    (base_model : BaseModel) : LoRAManager.t :=
  LoRAManager.mk
    (vLLMService.mk
       (<[bm_name base_model := bm_hf_model_id base_model]> (loaded_models (vllm s)))
       (loaded_adapters (vllm s))
       (sent (vllm s)
          ++ [ModelsLoad (bm_name base_model) (bm_hf_model_id base_model)]))
    (adapter_cache s) (adapter_base_path s)
    (set_base_models
       (insert base_model_id
          (mkBaseModel (bm_name base_model) (bm_model_type base_model)
             (bm_hf_model_id base_model) true)) (db s)).

(** The state it reaches when the runtime refuses: only the request is
    recorded. *)
Definition model_refused (s : LoRAManager.t) (base_model : BaseModel)
    : LoRAManager.t :=
  LoRAManager.mk
    (vLLMService.mk (loaded_models (vllm s)) (loaded_adapters (vllm s))
       (sent (vllm s)
          ++ [ModelsLoad (bm_name base_model) (bm_hf_model_id base_model)]))
    (adapter_cache s) (adapter_base_path s) (db s).

End LoRAOutcomes.

Module PickyRuntime.
Import Models vLLMService LoRAManager LoRASpec LoRAOutcomes.

(** The runtime answers 200 to every request but the load of
    [adapter_2]. *)
#[export] Instance picky : Server :=
  {| post := λ _ r,
       match r with
       | AdaptersLoad _ n _ => if String.eqb n "adapter_2" then Some 500 else Some 200
       | _ => Some 200
       end |}.

(** One base model whose flag is set although nothing is loaded, one model
    on it with two adapters, and an adapter of another model. *)
Definition tables : Database :=
  mkDatabase
    {[ 1 := mkBaseModel "base" "llm" "org/base" true ]}
    {[ 1 := mkModel 7 "assistant" 1 ]}
    [ mkLoRAAdapter 1 1 "tone" "/w/1";
      mkLoRAAdapter 2 1 "legal" "/w/2";
      mkLoRAAdapter 3 2 "other" "/w/3" ]
    ∅.

Definition fresh : LoRAManager.t :=
  LoRAManager.mk (vLLMService.mk ∅ ∅ []) ∅ "./adapters" tables.

Definition after_first : LoRAManager.t :=
  (load_adapters_for_inference 1 [1] fresh).2.

Definition after_refusal : LoRAManager.t :=
  (load_adapters_for_inference 1 [1; 2] fresh).2.

End PickyRuntime.

Module InsertSpec.
Import MilvusDB MilvusService.

Section Facts.

Context {V : Type} `{Digest}.

(** Everything of an item but its vector. *)
Definition scalars (it : Item V) :=
  (tenant_id it, document_id it, chunk_index it, chunk_version it,
   content_hash it, text it, source it, metadata it).

(** The item [prepare_item] builds from a chunk, up to the vector. *)
Definition prepared (tenant_id document_id chunk_version : Z)
    (chunk : Chunk) (it : Item V) : Prop :=
  MilvusDB.tenant_id it = tenant_id
  ∧ MilvusDB.document_id it = document_id
  ∧ MilvusDB.chunk_version it = chunk_version
  ∧ content_hash it = compute_content_hash (c_text chunk)
  ∧ text it = str_take 65535 (c_text chunk)
  ∧ source_prefix chunk = inr (source it)
  ∧ metadata it = default ∅ (c_metadata chunk).

(** The row an accepted item becomes. *)
Definition row_of (k : Z) (it : Item V) : option (Row V) :=
  match embedding it, source it with
  | Some v, PStr _ => Some (mkRow k it v)
  | _, _ => None
  end.

(** The item rows carry the tags given to [insert_chunks]. *)
Definition tagged (tenant_id document_id : Z) (r : Row V) : Prop :=
  MilvusDB.tenant_id (fields r) = tenant_id
  ∧ MilvusDB.document_id (fields r) = document_id.

(** How a computation ended: the exception, if any. *)
Definition outcome {A} (r : exn + A) : option exn :=
  match r with
  | inl e => Some e
  | inr _ => None
  end.

End Facts.

End InsertSpec.

Module InsertInputs.
Import MilvusDB MilvusService InsertSpec.

(** [stored] is what the slice [s[:n]] keeps of [s]: the first
    [min n (len s)] characters. *)
Definition first_chars (n : N) (s stored : string) : Prop :=
  (∃ rest, s = stored +:+ rest) ∧ str_len stored = N.min n (str_len s).

(** The digest takes the same value on two different texts. *)
Definition collides `{Digest} (a b : string) : Prop :=
  a ≠ b ∧ sha256_hexdigest a = sha256_hexdigest b.

Definition piece (t : string) (i : Z) : Chunk := mkChunk t None None (Some i).

Definition no_rows : Collection (list Z) := mkCollection [] 0.

End InsertInputs.

Module IngestionSpec.
Import MilvusDB MilvusService DataIngestionService ExprSpec InsertSpec.

Section Facts.

Context {V : Type} `{Digest} `{LlamaIndex V} `{Web}.

(** The stored rows of a document of a tenant. *)
Definition matching (c : Collection V) (tenant_id document_id : Z) : list (Row V) :=
  filter (λ r, of_document tenant_id document_id r = true) (rows c).

Definition stats_of (results : list (Row V)) : Stats :=
  match results with
  | [] => {| chunk_count := 0; latest_version := 0 |}
  | _ => {| chunk_count := Z.of_nat (length results);
            latest_version :=
              max_list ((λ r, chunk_version (fields r)) <$> results) |}
  end.

(** The hashes stored for a document of a tenant, over all versions. *)
Definition stored_hashes (c : Collection V) (tenant_id document_id : Z)
    : gset string :=
  list_to_set ((λ r, content_hash (fields r)) <$> matching c tenant_id document_id).

(** The chunks the loader and the splitter yield for a job. *)
Definition job_chunks (doc_info : Job) : list Chunk :=
  _chunk_documents
    (_load_document (job_file_type doc_info) (job_file_path doc_info)
       (job_source_url doc_info))
    (job_tenant_id doc_info) (job_document_id doc_info).

(** The chunks of a job whose hash is not stored. *)
Definition new_chunks (doc_info : Job) (s : DataIngestionService.t V) : list Chunk :=
  select_new (job_chunks doc_info)
    (stored_hashes (milvus s) (job_tenant_id doc_info) (job_document_id doc_info)).

(** The state after the status of a document was written. *)
Definition marked (status : string) (document_id : Z)
    (s : DataIngestionService.t V) : DataIngestionService.t V :=
  set_db (Models.set_documents (λ docs,
    match docs !! document_id with
    | Some doc => <[document_id := with_status status doc]> docs
    | None => docs
    end)) s.

(** The state after a successful ingestion was recorded. *)
Definition recorded (chunk_count version document_id : Z)
    (s : DataIngestionService.t V) : DataIngestionService.t V :=
  set_db (Models.set_documents (λ docs,
    match docs !! document_id with
    | Some doc => <[document_id := with_result chunk_count version doc]> docs
    | None => docs
    end)) s.

(** The part of the [try] block after the new chunks were selected. *)
Definition store_new (doc_info : Job) (existing_stats : Stats)
    (new : list Chunk) : M (DataIngestionService.t V) unit :=
  let new_version := latest_version existing_stats + 1 in
  let* embeddings := _compute_embeddings new in
  let* inserted_ids :=
    zoom milvus set_milvus
      (insert_chunks (job_tenant_id doc_info) (job_document_id doc_info) new
         new_version (Some embeddings)) in
  update_document (job_document_id doc_info)
    (with_result (chunk_count existing_stats + Z.of_nat (length new))
       new_version).

(** What a task decides for its document, from the rows stored for it. *)
Definition verdict (doc_info : Job) (stored : list (Row V))
    : DocModel → DocModel :=
  let existing_stats := stats_of stored in
  let new :=
    select_new (job_chunks doc_info)
      (list_to_set ((λ r, content_hash (fields r)) <$> stored)) in
  match new with
  | [] => with_status "ready"
  | _ :: _ =>
      if LLAMA_INDEX_AVAILABLE then
        match get_text_embedding_batch (c_text <$> new) with
        | inr embeddings =>
            match
              outcome
                (insert_chunks (job_tenant_id doc_info) (job_document_id doc_info)
                   new (latest_version existing_stats + 1) (Some embeddings)
                   (mkCollection [] 0)).1
            with
            | None =>
                with_result (chunk_count existing_stats + Z.of_nat (length new))
                  (latest_version existing_stats + 1)
            | Some _ => with_status "failed"
            end
        | inl _ => with_status "failed"
        end
      else with_status "failed"
  end.

(** The job a suspended coroutine works on. *)
Definition owner (co : Coroutine) : option Job :=
  match co with
  | AwaitLoad doc_info | AwaitEmbeddings doc_info _ _ => Some doc_info
  | Returned => None
  end.

(** The suspensions a coroutine has before it. *)
Definition rank (co : Coroutine) : nat :=
  match co with
  | AwaitLoad _ => 2
  | AwaitEmbeddings _ _ _ => 1
  | Returned => 0
  end.

(** The state after the embedding batch for [new] was submitted. *)
Definition logged (new : list Chunk) (s : DataIngestionService.t V)
    : DataIngestionService.t V :=
  mk (milvus s) (db s) (embedding_calls s ++ [c_text <$> new]).

(** What the end of the [try] block writes, from the answer of the
    embedding batch. *)
Definition settle (doc_info : Job) (existing_stats : Stats) (new : list Chunk)
    : DocModel → DocModel :=
  match get_text_embedding_batch (c_text <$> new) with
  | inr embeddings =>
      match
        outcome
          (insert_chunks (job_tenant_id doc_info) (job_document_id doc_info)
             new (latest_version existing_stats + 1) (Some embeddings)
             (mkCollection [] 0)).1
      with
      | None =>
          with_result (chunk_count existing_stats + Z.of_nat (length new))
            (latest_version existing_stats + 1)
      | Some _ => with_status "failed"
      end
  | inl _ => with_status "failed"
  end.

(** Where the coroutine of [doc_info] stands when the rows stored for
    its document were [stored] and its table row was [row] at the
    start: until it returns, rows and table row are as they were, and
    what it holds was computed from them; when it has returned, the
    table row is the one [verdict] gives. *)
Definition on_track (doc_info : Job) (stored : list (Row V))
    (row : option DocModel) (co : Coroutine) (s : DataIngestionService.t V)
    : Prop :=
  match co with
  | AwaitLoad _ =>
      matching (milvus s) (job_tenant_id doc_info) (job_document_id doc_info)
      = stored
      ∧ Models.documents (db s) !! job_document_id doc_info = row
  | AwaitEmbeddings _ existing_stats new =>
      existing_stats = stats_of stored
      ∧ new = select_new (job_chunks doc_info)
                (list_to_set ((λ r, content_hash (fields r)) <$> stored))
      ∧ new ≠ []
      ∧ LLAMA_INDEX_AVAILABLE = true
      ∧ Models.documents (db s) !! job_document_id doc_info = row
  | Returned =>
      Models.documents (db s) !! job_document_id doc_info
      = verdict doc_info stored <$> row
  end.

End Facts.

End IngestionSpec.

Module BatchSpec.
Import MilvusDB MilvusService DataIngestionService ExprSpec InsertSpec IngestionSpec.

Section Claims.

Context {V : Type} `{Digest} `{LlamaIndex V} `{Web}.

(** The state a batch ends in. *)
Definition run_all (batch : list Job) (s : DataIngestionService.t V)
    : DataIngestionService.t V :=
  (gather_return_exceptions (_process_document <$> batch) s).2.

(** Every suspended coroutine of the list works on the job at its
    position in the batch. *)
Definition owned_by (batch : list Job) (tasks : list Coroutine) : Prop :=
  length tasks = length batch
  ∧ ∀ i co doc_info,
      tasks !! i = Some co → owner co = Some doc_info →
      batch !! i = Some doc_info.

(** How often a schedule resumes the coroutine at position [i]. *)
Definition resumptions (i : nat) (schedule : list nat) : nat :=
  length (filter (λ k, k = i) schedule).

(** The reader behind a file type that is read from a file. *)
Definition reader_of (file_type : string)
    : option (option string → exn + list Document) :=
  if String.eqb file_type "pdf" then Some SimpleDirectoryReader_load_data
  else if String.eqb file_type "csv" then Some CSVReader_load_data
  else if String.eqb file_type "txt" then Some SimpleDirectoryReader_load_data
  else if String.eqb file_type "pptx" then Some PptxReader_load_data
  else None.

End Claims.

End BatchSpec.

Module ScopeSpec.
Import MilvusDB MilvusService ExprSpec.

(** The rows of a tenant. *)
Definition of_tenant {V} (tenant_id : Z) (r : Row V) : bool :=
  MilvusDB.tenant_id (fields r) =? tenant_id.

End ScopeSpec.

Module SharedCollection.
Import MilvusDB MilvusService.

#[export] Instance squared_l2 : Metric (list Z) :=
  {| score := Z;
     distance := λ a b,
       foldr Z.add 0 (zip_with (λ x y, (x - y) * (x - y)) a b);
     score_leb := Z.leb |}.

(** Two tenants share the collection. *)
Definition shared : Collection (list Z) :=
  mkCollection
    [ mkRow 1 (mkItem 1 5 0 1 "h1" "opening hours of tenant 1" (PStr "a.txt") ∅
                 (Some [0; 0])) [0; 0];
      mkRow 2 (mkItem 2 9 0 1 "h2" "payroll of tenant 2" (PStr "b.txt") ∅
                 (Some [3; 4])) [3; 4] ]
    3.

(** The filter map [{"document_id": "0 || tenant_id == 2"}]. *)
Definition injected : option (list (string * pyval)) :=
  Some [("document_id"%string, PStr "0 || tenant_id == 2")].

End SharedCollection.

Module SmallCorpus.
Import MilvusDB MilvusService DataIngestionService InsertSpec InsertInputs IngestionSpec BatchSpec.

(** Stands for SHA-256 on the texts used here: distinct texts, distinct
    digests. *)
#[export] Instance tagging_digest : Digest :=
  {| sha256_hexdigest := λ s, ("sha256:" +:+ s)%string |}.

(** A splitter that makes one chunk per character. *)
Fixpoint letters (s : string) : list string :=
  match s with
  | EmptyString => []
  | String c r => String c EmptyString :: letters r
  end.

Definition file_text (path : option string) : string :=
  match path with
  | Some p =>
      if String.eqb p "v1.txt" then "abc"
      else if String.eqb p "v2.txt" then "xbz"
      else if String.eqb p "v3.txt" then "abz"
      else if String.eqb p "bad.txt" then "!"
      else "ok"
  | None => ""
  end.

(** The embedding of a text is its length and its first character; the
    backend refuses a batch that holds the text ["!"]. *)
#[export] Instance small_llama : LlamaIndex (list Z) :=
  {| LLAMA_INDEX_AVAILABLE := true;
     SimpleDirectoryReader_load_data := λ p,
       inr [ {| doc_text := file_text p; doc_metadata := ∅ |} ];
     CSVReader_load_data := λ _, inl (Exception "no reader");
     PptxReader_load_data := λ _, inl (Exception "no reader");
     TokenTextSplitter_split_text := letters;
     get_text_embedding_batch := λ texts,
       if bool_decide ("!"%string ∈ texts) then inl (Exception "backend down")
       else
         inr ((λ t, [Z.of_nat (String.length t);
                     match t with
                     | String c _ => Z.of_nat (nat_of_ascii c)
                     | EmptyString => 0
                     end]) <$> texts) |}.

#[export] Instance no_web : Web := {| fetch_page := λ _, [] |}.

Definition job (document_id : Z) (path : string) : Job :=
  {| job_tenant_id := 1; job_document_id := document_id;
     job_file_type := "txt"; job_file_path := Some path;
     job_source_url := None |}.

Definition pending (name : string) : DocModel :=
  Models.mkDocument 1 name "pending" 0 1.

(** Three documents wait; nothing is stored yet. *)
Definition start : DataIngestionService.t (list Z) :=
  DataIngestionService.mk (mkCollection [] 100)
    (Models.mkDatabase ∅ ∅ []
       {[ 7 := pending "notes"; 8 := pending "broken"; 9 := pending "memo" ]})
    [].

(** The state after the first ingestion of document 7, text ["abc"]. *)
Definition ingested : DataIngestionService.t (list Z) :=
  (_process_document (job 7 "v1.txt") start).2.

(** A text of 65537 characters, and a chunk that holds it. *)
Definition long_text : string := Pos.iter (String "a"%char) "b"%string 65536.

Definition long_chunk : Chunk :=
  mkChunk long_text (Some (PStr "long.txt")) None (Some 0).

(** The collection after the long chunk was inserted. *)
Definition long_stored : Collection (list Z) :=
  (insert_chunks 1 7 [long_chunk] 1 (Some [[1]]) (mkCollection [] 100)).2.

(** The same installation with a file reader that cannot read
    [bad.txt]. *)
Definition unreadable : LlamaIndex (list Z) :=
  {| LLAMA_INDEX_AVAILABLE := true;
     SimpleDirectoryReader_load_data := λ p,
       match p with
       | Some path =>
           if String.eqb path "bad.txt"
           then inl (Exception "cannot read the file")
           else inr [ {| doc_text := file_text p; doc_metadata := ∅ |} ]
       | None => inl (Exception "cannot read the file")
       end;
     CSVReader_load_data := λ _, inl (Exception "no reader");
     PptxReader_load_data := λ _, inl (Exception "no reader");
     TokenTextSplitter_split_text := letters;
     get_text_embedding_batch :=
       get_text_embedding_batch (LlamaIndex := small_llama) |}.

End SmallCorpus.

Module NameSpec.
Import Models vLLMService LoRAManager ExprSpec LoRASpec.

(** [int(s)] for the text of an integer. *)
Definition str_int (s : string) : option Z :=
  Z.of_int <$> NilZero.int_of_string s.

(** No character of the string is an underscore. *)
Fixpoint no_underscore (s : string) : Prop :=
  match s with
  | EmptyString => True
  | String c r => c ≠ "_"%char ∧ no_underscore r
  end.

End NameSpec.

Module ManagerSpec.
Import Models vLLMService LoRAManager ExprSpec LoRASpec LoRAOutcomes NameSpec.

Section Facts.

Context `{Server}.

(** The base model a model id leads to. *)
Definition base_of (s : LoRAManager.t) (model_id : Z) : option BaseModel :=
  models (db s) !! model_id ≫= λ model,
    base_models (db s) !! m_base_model_id model.

(** The registration of an adapter under a model in the gateway. *)
Definition registered (v : vLLMService.t) (model_name adapter_name : string)
    : option string :=
  loaded_adapters v !! model_name ≫= λ per_model, per_model !! adapter_name.

End Facts.

End ManagerSpec.

Module WillingRuntime.
Import Models vLLMService LoRAManager LoRASpec LoRAOutcomes PickyRuntime NameSpec ManagerSpec.

Definition willing : Server := {| post := λ _ _, Some 200 |}.

(** The state after the model was ensured and adapters 2 and 1 were
    requested, in this order. *)
Definition warmed : LoRAManager.t :=
  (load_adapters_for_inference (H := willing) 1 [2; 1]
     (ensure_base_model_loaded (H := willing) 1 fresh).2).2.

End WillingRuntime.

Module AlignmentSpec.
Import MilvusDB MilvusService ExprSpec InsertSpec.

Section Facts.

Context {V : Type} `{Digest}.

(** The row an item was stored as: its fields, and its vector. *)
Definition stored_as (it : Item V) (r : Row V) : Prop :=
  fields r = it ∧ embedding it = Some (vector r).

(** The items [prepare_data] builds, position by position: the item at
    position [k] holds row [k] of the embeddings and the index that
    position [k] of the chunks has. *)
Definition in_step (base : Z) (embeddings : list V) (data : list (Item V))
    : Prop :=
  ∀ k it, data !! k = Some it →
    chunk_index it = base + Z.of_nat k
    ∧ is_Some (embeddings !! k)
    ∧ embedding it = embeddings !! k
    ∧ ∃ s, source it = PStr s.

End Facts.

End AlignmentSpec.

Module ChunkSpec.
Import MilvusDB MilvusService DataIngestionService ExprSpec.

Section Facts.

Context {V : Type} `{LlamaIndex V}.

(** The pieces a document is cut into. *)
Definition pieces_of (doc : Document) : list string :=
  if LLAMA_INDEX_AVAILABLE then TokenTextSplitter_split_text (doc_text doc)
  else fixed_slices (String.length (doc_text doc)) (doc_text doc).

(** Every chunk of the list carries its own position as its index, and
    the source of one of the documents. *)
Definition numbered (docs : list Document) (chunks : list Chunk) : Prop :=
  ∀ k chunk, chunks !! k = Some chunk →
    c_chunk_index chunk = Some (Z.of_nat k)
    ∧ is_Some (c_metadata chunk)
    ∧ ∃ doc, doc ∈ docs ∧ c_source chunk = Some (doc_source doc).

End Facts.

End ChunkSpec.

Module PassSpec.
Import MilvusDB MilvusService DataIngestionService ExprSpec InsertSpec IngestionSpec BatchSpec AlignmentSpec ChunkSpec.

(** Checks by computation that the indices of a list of chunks are in
    step, and that their sources are strings. *)
Definition indices_from (base : Z) (chunks : list Chunk) : bool :=
  bool_decide (c_chunk_index <$> chunks
               = (λ i, Some (base + Z.of_nat i)) <$> seq 0 (length chunks)).

Definition sources_are_strings (chunks : list Chunk) : bool :=
  forallb (λ chunk, match c_source chunk with
                    | Some (PStr _) => true
                    | _ => false
                    end) chunks.

Section Facts.

Context {V : Type} `{Digest} `{LlamaIndex V} `{Web}.

(** The file types [_load_document] has a loader for. *)
Definition known_types : list string :=
  ["pdf"; "csv"; "txt"; "pptx"; "url";
   "image"; "image_ocr"; "image_desc"; "image_tabular"]%string.

(** The status a document has in the table. *)
Definition status_of (s : DataIngestionService.t V) (document_id : Z)
    : option string :=
  Models.d_status <$> Models.documents (db s) !! document_id.

End Facts.

End PassSpec.

Module CoverageInputs.
Import MilvusDB MilvusService DataIngestionService InsertSpec InsertInputs IngestionSpec BatchSpec ScopeSpec SharedCollection SmallCorpus AlignmentSpec ChunkSpec PassSpec.

(** An installation without the llama-index package. *)
Definition no_llama : LlamaIndex (list Z) :=
  {| LLAMA_INDEX_AVAILABLE := false;
     SimpleDirectoryReader_load_data := λ _, inl (ImportError "llama_index");
     CSVReader_load_data := λ _, inl (ImportError "llama_index");
     PptxReader_load_data := λ _, inl (ImportError "llama_index");
     TokenTextSplitter_split_text := λ _, [];
     get_text_embedding_batch := λ _, inl (ImportError "llama_index") |}.

(** Two chunks with the indices 5 and 6. *)
Definition pair_of_chunks : list Chunk := [piece "p" 5; piece "q" 6].

(** The collection after the two chunks were inserted with version 1. *)
Definition two_rows : Collection (list Z) :=
  (insert_chunks 1 7 pair_of_chunks 1 (Some [[10]; [20]]) no_rows).2.

(** The state after document 7 was ingested as ["abc"] and then, in a
    batch of its own, as ["abz"]. *)
Definition changed : DataIngestionService.t (list Z) :=
  (_process_batch [job 7 "v3.txt"] ingested).2.

(** Tenant 1 asks for the five rows nearest to the origin. *)
Definition found :=
  MilvusService.search (H0 := squared_l2) 1 [0; 0] 5 None shared.

(** The statistics of document 7 after the two chunks were stored. *)
Definition counted : (exn + Stats) * Collection (list Z) :=
  get_document_stats 1 7 two_rows.

End CoverageInputs.

Module InferenceSpec.
Import Models MilvusDB MilvusService vLLMService LoRAManager InferenceService ExprSpec LoRASpec LoRAOutcomes ScopeSpec NameSpec ManagerSpec.

Section Facts.

Context {V P : Type} `{Metric V} `{Server} `{Backend V P}.

(** The retrieval step of [inference_llm]. *)
Definition context_step (use_rag : bool) (tenant_id : Z) (user_input : string)
    : M (InferenceService.t V) string :=
  if use_rag then _retrieve_context tenant_id user_input 3
  else ret EmptyString.

(** The adapter step of [inference_llm]. *)
Definition adapters_step (model_id : Z) (adapter_ids : option (list Z))
    : M LoRAManager.t (option (list string)) :=
  match adapter_ids with
  | Some (adapter_id :: rest) =>
      let* names :=
        load_adapters_for_inference model_id (adapter_id :: rest) in
      ret (Some names)
  | _ => ret None
  end.

(** The extra headers of a chat request for the given adapters. *)
Definition headers_of (names : list string) : list (string * string) :=
  match names with
  | [] => []
  | _ => [("X-LoRA-Adapters"%string, join "," names)]
  end.

(** The system prompt of a tenant: that of its first default template. *)
Definition system_prompt (s : InferenceService.t V) (tenant_id : Z) : string :=
  match
    filter (λ p, pt_tenant_id p = tenant_id ∧ pt_is_default p = true)
      (prompt_templates s)
  with
  | prompt_template :: _ => system_prompt_of prompt_template
  | [] => EmptyString
  end.

(** The state after a chat request. *)
Definition requested (request : string * string * list (string * string))
    (s : InferenceService.t V) : InferenceService.t V :=
  InferenceService.mk (milvus s) (lora_manager s) (prompt_templates s)
    (embed_model s) (completions s ++ [request]).

(** The model a tenant may use under an id. *)
Definition model_of (s : InferenceService.t V) (tenant_id model_id : Z)
    : option Model :=
  match models (db (lora_manager s)) !! model_id with
  | Some model => if decide (m_tenant_id model = tenant_id) then Some model else None
  | None => None
  end.

(** The context made from the rows that were found. *)
Definition context_of (found : list (Row V)) : string :=
  join (nl +:+ nl) ((λ r, text (fields r)) <$> found).

(** The rows [search] answers from when no filter is given. *)
Definition nearest (tenant_id : Z) (q : V) (top_k : Z) (c : Collection V)
    : list (Row V) :=
  snd <$> take (Z.to_nat top_k)
            (nearest_first q
               (filter (λ r, of_tenant tenant_id r = true) (rows c))).

End Facts.

End InferenceSpec.

Module FrontDesk.
Import Models MilvusDB MilvusService vLLMService LoRAManager InferenceService SharedCollection WillingRuntime InferenceSpec.

(** An embedding model that maps every query to the origin, and a chat
    endpoint that answers. *)
Definition scripted : Backend (list Z) unit :=
  {| HuggingFaceEmbedding := Some (inr tt);
     get_text_embedding := λ _, inr [0; 0];
     chat_completions_create := λ _ _ _ _, inr "We open at nine."%string |}.

(** An embedding model that fails on every query, and a chat endpoint
    that is down. *)
Definition stalled : Backend (list Z) unit :=
  {| HuggingFaceEmbedding := Some (inr tt);
     get_text_embedding := λ _, inl (Exception "CUDA out of memory");
     chat_completions_create := λ _ _ _ _, inl (Exception "Connection error.") |}.

(** Tenant 1 has a model with one adapter, tenant 2 has another model on
    the same base model. *)
Definition front_desk_tables : Database :=
  mkDatabase
    {[ 1 := mkBaseModel "base" "llm" "org/base" false ]}
    {[ 1 := mkModel 1 "assistant" 1; 2 := mkModel 2 "payroll" 1 ]}
    [ mkLoRAAdapter 1 1 "tone" "/w/1" ]
    ∅.

Definition desk : InferenceService.t (list Z) :=
  InferenceService.mk shared
    (LoRAManager.mk (vLLMService.mk ∅ ∅ []) ∅ "./adapters" front_desk_tables)
    [ mkPromptTemplate 1 true (Some "You are a clerk."%string) None
        (Some "Open 9 to 5."%string) ]
    false [].

(** The state after a retrieval for tenant 1. *)
Definition retrieved : InferenceService.t (list Z) :=
  (_retrieve_context (H := squared_l2) (H1 := scripted) 1 "When do you open?" 3
     desk).2.

(** The state after a retrieval that failed. *)
Definition unretrieved : InferenceService.t (list Z) :=
  (_retrieve_context (H := squared_l2) (H1 := stalled) 1 "When do you open?" 3
     desk).2.

(** A RAG request of tenant 1 with its adapter. *)
Definition asked : (exn + Answer) * InferenceService.t (list Z) :=
  inference_llm (H := squared_l2) (H0 := willing) (H1 := scripted)
    1 1 "When do you open?" (Some [1]) true tt desk.

Definition reply : Answer :=
  {| result := "We open at nine.";
     context := Some "opening hours of tenant 1"%string;
     answer_model_id := 1;
     adapters_used := ["adapter_1"%string] |}.

(** A plain request of tenant 1: no RAG, no adapter. *)
Definition plain : (exn + Answer) * InferenceService.t (list Z) :=
  inference_llm (H := squared_l2) (H0 := willing) (H1 := scripted)
    1 1 "When do you open?" None false tt desk.

(** The same request while the chat endpoint is down. *)
Definition unanswered : (exn + Answer) * InferenceService.t (list Z) :=
  inference_llm (H := squared_l2) (H0 := willing) (H1 := stalled)
    1 1 "When do you open?" None false tt desk.

End FrontDesk.

(** * Properties *)

(** ** Reading back the expressions built from integers *)

Module ExprFacts.
Import MilvusDB ExprSpec.

Lemma app_String c a b : String c a +:+ b = String c (a +:+ b).
Proof. reflexivity. Qed.

Lemma app_Empty b : "" +:+ b = b.
Proof. reflexivity. Qed.

Lemma app_empty_r (s : string) : s +:+ "" = s.
Proof.
  induction s as [|c s IH]; [reflexivity|]. rewrite app_String, IH. reflexivity.
Qed.

Lemma digit_not_space c : is_digit c = true → is_space c = false.
Proof.
  destruct c as [[|] [|] [|] [|] [|] [|] [|] [|]]; intros Hc;
    try discriminate Hc; reflexivity.
Qed.

Lemma lex_number_digit c r :
  is_digit c = true → lex_number (String c r) = lex_digits (String c r).
Proof.
  destruct c as [[|] [|] [|] [|] [|] [|] [|] [|]]; intros Hc;
    try discriminate Hc; reflexivity.
Qed.

Lemma span_digits_uint d rest :
  no_digit_ahead rest →
  span is_digit (NilEmpty.string_of_uint d +:+ rest)
  = (NilEmpty.string_of_uint d, rest).
Proof.
  intros Hrest.
  induction d; cbn [NilEmpty.string_of_uint];
    rewrite ?app_String, ?app_Empty; cbn [span];
    try (rewrite IHd; reflexivity).
  destruct rest as [|c r]; [reflexivity|].
  cbn [span]. rewrite (Hrest c r eq_refl). reflexivity.
Qed.

Lemma head_of_uint p :
  ∃ c r, NilEmpty.string_of_uint (Pos.to_uint p) = String c r
         ∧ is_digit c = true.
Proof.
  pose proof (DecimalPos.Unsigned.to_uint_nonnil p) as Hn.
  destruct (Pos.to_uint p); cbn [NilEmpty.string_of_uint];
    try congruence; eauto.
Qed.

Lemma pos_string_of_uint p :
  NilZero.string_of_uint (Pos.to_uint p)
  = NilEmpty.string_of_uint (Pos.to_uint p).
Proof.
  pose proof (DecimalPos.Unsigned.to_uint_nonnil p) as Hn.
  unfold NilZero.string_of_uint. destruct (Pos.to_uint p); congruence.
Qed.

Lemma lex_digits_pos p rest :
  no_digit_ahead rest →
  lex_digits (NilEmpty.string_of_uint (Pos.to_uint p) +:+ rest)
  = Some (Z.pos p, rest).
Proof.
  intros Hrest. unfold lex_digits.
  rewrite span_digits_uint by assumption.
  destruct (head_of_uint p) as (c & r & E & _).
  rewrite E at 1. rewrite NilEmpty.usu.
  unfold Z.of_uint. rewrite DecimalPos.Unsigned.of_to. reflexivity.
Qed.

(** A printed integer is read back as the same integer. *)
Lemma lex_number_int_str n rest :
  no_digit_ahead rest →
  lex_number (int_str n +:+ rest) = Some (n, rest).
Proof.
  intros Hrest. unfold int_str.
  destruct n as [|p|p]; cbn [Z.to_int NilZero.string_of_int].
  - destruct rest as [|c r]; [reflexivity|].
    change (NilZero.string_of_uint (Decimal.D0 Decimal.Nil)) with "0"%string.
    rewrite app_String, app_Empty, lex_number_digit by reflexivity.
    unfold lex_digits. cbn [span].
    change (is_digit "0") with true. cbn iota.
    rewrite (Hrest c r eq_refl). reflexivity.
  - rewrite pos_string_of_uint.
    pose proof (lex_digits_pos p rest Hrest) as Hd.
    destruct (head_of_uint p) as (c & r & E & Hc).
    rewrite E in *. rewrite app_String in *.
    rewrite lex_number_digit by assumption. exact Hd.
  - rewrite pos_string_of_uint, app_String.
    cbn [lex_number]. rewrite lex_digits_pos by assumption. reflexivity.
Qed.

Lemma int_str_head n :
  ∃ c r, int_str n = String c r ∧ is_space c = false.
Proof.
  unfold int_str.
  destruct n as [|p|p]; cbn [Z.to_int NilZero.string_of_int].
  - exists "0"%char, EmptyString. split; reflexivity.
  - rewrite pos_string_of_uint.
    destruct (head_of_uint p) as (c & r & E & Hc).
    exists c, r. split; [exact E|]. apply digit_not_space, Hc.
  - eexists _, _. split; reflexivity.
Qed.

Lemma lex_int_str fuel n rest :
  no_digit_ahead rest →
  lex (S fuel) (int_str n +:+ rest) = cons (TInt n) <$> lex fuel rest.
Proof.
  intros Hrest.
  pose proof (lex_number_int_str n rest Hrest) as Hn.
  destruct (int_str_head n) as (c & r & E & Hs).
  rewrite E in *. rewrite app_String in *.
  cbn [lex]. rewrite Hs, Hn. reflexivity.
Qed.

Lemma lex_space fuel r : lex (S fuel) (String " " r) = lex fuel r.
Proof. reflexivity. Qed.

Lemma lex_eq fuel r :
  lex (S fuel) (String "=" (String "=" r)) = cons TEq <$> lex fuel r.
Proof. reflexivity. Qed.

Lemma lex_and fuel r :
  lex (S fuel) (String "&" (String "&" r)) = cons TAnd <$> lex fuel r.
Proof. reflexivity. Qed.

Lemma lex_tenant_id fuel r :
  lex (S fuel) (String "t" (String "e" (String "n" (String "a" (String "n" (String "t" (String "_" (String "i" (String "d" (String " " r))))))))))
  = cons (TIdent "tenant_id") <$> lex fuel (String " " r).
Proof. reflexivity. Qed.

Lemma lex_document_id fuel r :
  lex (S fuel) (String "d" (String "o" (String "c" (String "u" (String "m" (String "e" (String "n" (String "t" (String "_" (String "i" (String "d" (String " " r))))))))))))
  = cons (TIdent "document_id") <$> lex fuel (String " " r).
Proof. reflexivity. Qed.

Lemma lex_document_shape k sa sb na nb :
  (∀ f rest, no_digit_ahead rest →
     lex (S f) (sa +:+ rest) = cons (TInt na) <$> lex f rest) →
  (∀ f rest, no_digit_ahead rest →
     lex (S f) (sb +:+ rest) = cons (TInt nb) <$> lex f rest) →
  lex (14 + k) ("tenant_id == " +:+ sa +:+ " && document_id == " +:+ sb +:+ "")
  = Some [TIdent "tenant_id"; TEq; TInt na; TAnd;
          TIdent "document_id"; TEq; TInt nb].
Proof.
  intros Ha Hb.
  rewrite !app_String, !app_Empty. cbn [Nat.add].
  rewrite lex_tenant_id, lex_space, lex_eq, lex_space.
  rewrite Ha by (intros c r [= <- _]; reflexivity).
  rewrite lex_space, lex_and, lex_space, lex_document_id, lex_space,
    lex_eq, lex_space.
  rewrite Hb by (intros c r [=]).
  reflexivity.
Qed.

Lemma tokenize_document_expr tenant_id document_id :
  tokenize (MilvusService.document_expr tenant_id document_id)
  = Some [TIdent "tenant_id"; TEq; TInt tenant_id; TAnd;
          TIdent "document_id"; TEq; TInt document_id].
Proof.
  unfold tokenize, MilvusService.document_expr.
  rewrite <- (app_empty_r (int_str document_id)).
  assert (Hk : ∃ k, S (String.length
      ("tenant_id == " +:+ int_str tenant_id +:+ " && document_id == "
         +:+ int_str document_id +:+ "")) = (14 + k)%nat).
  { rewrite !app_String, !app_Empty. cbn [String.length Nat.add].
    eexists. reflexivity. }
  destruct Hk as [k ->].
  apply lex_document_shape; intros f rest Hr; apply lex_int_str, Hr.
Qed.

Lemma compile_document_expr {V} tenant_id document_id :
  compile (MilvusService.document_expr tenant_id document_id)
  = inr (of_document (V := V) tenant_id document_id).
Proof.
  unfold compile, parse. rewrite tokenize_document_expr. reflexivity.
Qed.

Lemma query_document_expr {V} tenant_id document_id (c : Collection V) :
  query (MilvusService.document_expr tenant_id document_id) c
  = (inr (filter (λ r, of_document tenant_id document_id r = true) (rows c)), c).
Proof.
  unfold query, bind, lift. rewrite compile_document_expr. reflexivity.
Qed.

Lemma delete_document_expr {V} tenant_id document_id (c : Collection V) :
  delete (MilvusService.document_expr tenant_id document_id) c
  = (inr tt,
     mkCollection
       (filter (λ r, of_document tenant_id document_id r = false) (rows c))
       (next_pk c)).
Proof.
  unfold delete, bind, lift. rewrite compile_document_expr. reflexivity.
Qed.

End ExprFacts.

(** ** The adapter manager *)

Module LoRAFacts.
Import Models vLLMService LoRAManager LoRASpec.

Section Facts.

Context `{Server}.

Lemma load_one_hit s base_model adapter name :
  adapter_cache s !! cache_key base_model adapter = Some name →
  load_one base_model adapter s = (inr name, s).
Proof.
  intros Hc. unfold cache_key in Hc.
  cbv beta iota zeta delta [load_one get_adapter_path bind get ret].
  rewrite Hc. reflexivity.
Qed.

Lemma load_one_miss s base_model adapter :
  adapter_cache s !! cache_key base_model adapter = None →
  load_one base_model adapter s
  = if bool_decide (post (sent (vllm s)) (load_request s base_model adapter)
                    = Some 200)
    then (inr (adapter_name adapter), loaded s base_model adapter)
    else (inl (Exception ("Failed to load adapter " +:+ int_str (a_id adapter))),
          refused s base_model adapter).
Proof.
  intros Hc. unfold cache_key in Hc.
  cbv beta iota zeta delta [load_one get_adapter_path bind get ret].
  rewrite Hc.
  cbv beta iota zeta delta
    [zoom load_lora_adapter bind send modify ret raise loaded refused
     load_request adapter_name cache_key].
  destruct (post _ _) as [code|] eqn:E.
  - destruct (Z.eqb_spec code 200) as [->|Hne].
    + rewrite bool_decide_eq_true_2 by reflexivity. reflexivity.
    + rewrite bool_decide_eq_false_2 by congruence. reflexivity.
  - rewrite bool_decide_eq_false_2 by congruence. reflexivity.
Qed.

Lemma load_each_cons base_model adapter rest s :
  load_each base_model (adapter :: rest) s
  = match load_one base_model adapter s with
    | (inr name, s') =>
        match load_each base_model rest s' with
        | (inr names, s'') => (inr (name :: names), s'')
        | (inl e, s'') => (inl e, s'')
        end
    | (inl e, s') => (inl e, s')
    end.
Proof.
  cbn [load_each]. unfold bind at 1.
  destruct (load_one base_model adapter s) as [[e|name] s']; [reflexivity|].
  unfold bind, ret.
  destruct (load_each base_model rest s') as [[e|names] s'']; reflexivity.
Qed.

Lemma load_adapters_unfold model_id adapter_ids s :
  load_adapters_for_inference model_id adapter_ids s
  = match models (db s) !! model_id with
    | None =>
        (inl (ValueError ("Model " +:+ int_str model_id +:+ " not found")), s)
    | Some model =>
        match base_models (db s) !! m_base_model_id model with
        | None =>
            (inl (ValueError ("Base model " +:+ int_str (m_base_model_id model)
                                +:+ " not found")), s)
        | Some base_model =>
            if bool_decide (length (resolved s model_id adapter_ids)
                            ≠ length adapter_ids)
            then (inl (ValueError "Some adapters not found"), s)
            else load_each base_model (resolved s model_id adapter_ids) s
        end
    end.
Proof.
  unfold load_adapters_for_inference, resolved.
  cbv beta iota zeta delta [bind get].
  destruct (models (db s) !! model_id) as [model|]; [|reflexivity].
  destruct (base_models (db s) !! m_base_model_id model) as [base_model|];
    [|reflexivity].
  cbv beta iota zeta delta [bind get query_adapters ret].
  destruct (bool_decide _); reflexivity.
Qed.

Lemma adapter_name_key base_model a b :
  adapter_name a = adapter_name b →
  cache_key base_model a = cache_key base_model b.
Proof.
  unfold adapter_name, cache_key. intros E.
  apply (inj (String.append "adapter_")) in E. rewrite E. reflexivity.
Qed.

Lemma load_request_key s s' base_model a b :
  load_request s base_model a = load_request s' base_model b →
  cache_key base_model a = cache_key base_model b.
Proof.
  intros Heq. apply adapter_name_key.
  apply (f_equal (λ r, match r with
                       | AdaptersLoad _ n _ => n
                       | _ => EmptyString
                       end)) in Heq.
  exact Heq.
Qed.

(** What a successful pass over the adapters leaves behind. *)
Lemma load_each_success base_model l : ∀ s names s1,
  load_each base_model l s = (inr names, s1) →
  db s1 = db s ∧ adapter_base_path s1 = adapter_base_path s
  ∧ adapter_cache s ⊆ adapter_cache s1
  ∧ Forall2 (λ a n, adapter_cache s1 !! cache_key base_model a = Some n) l names
  ∧ ∃ new, sent (vllm s1) = sent (vllm s) ++ new ∧ NoDup new
      ∧ ∀ r, r ∈ new →
          ∃ a, a ∈ l ∧ r = load_request s base_model a
               ∧ adapter_cache s !! cache_key base_model a = None.
Proof.
  induction l as [|a l IH]; intros s names s1 Hrun.
  - cbn in Hrun. injection Hrun as <- <-.
    split_and!; try done.
    exists []. rewrite app_nil_r. split_and!; [done|constructor|].
    intros r Hr. inversion Hr.
  - rewrite load_each_cons in Hrun.
    destruct (adapter_cache s !! cache_key base_model a) as [n|] eqn:Hc.
    + rewrite (load_one_hit _ _ _ _ Hc) in Hrun.
      destruct (load_each base_model l s) as [[e|ns] s'] eqn:Hl; [discriminate|].
      injection Hrun as <- <-.
      destruct (IH _ _ _ Hl) as (Hdb & Hp & Hsub & Hall & new & Hsent & Hnd & Hnew).
      split_and!; try done.
      * constructor; [|exact Hall].
        eapply lookup_weaken; eassumption.
      * exists new. split_and!; try done.
        intros r Hr. destruct (Hnew r Hr) as (b & Hb & -> & Hnone).
        exists b. split_and!; try done. by right.
    + rewrite (load_one_miss _ _ _ Hc) in Hrun.
      case_bool_decide as Hpost; [|discriminate].
      destruct (load_each base_model l (loaded s base_model a))
        as [[e|ns] s'] eqn:Hl; [discriminate|].
      injection Hrun as <- <-.
      destruct (IH _ _ _ Hl) as (Hdb & Hp & Hsub & Hall & new & Hsent & Hnd & Hnew).
      cbn in Hdb, Hp, Hsub, Hsent, Hnew.
      assert (Hins : adapter_cache s ⊆ adapter_cache s').
      { etrans; [|exact Hsub]. by apply insert_subseteq. }
      split_and!; try done.
      * constructor; [|exact Hall].
        eapply lookup_weaken; [|exact Hsub]. apply lookup_insert_eq.
      * exists (load_request s base_model a :: new).
        rewrite Hsent, <- app_assoc. split_and!; [done| |].
        -- constructor; [|exact Hnd].
           intros Hin. destruct (Hnew _ Hin) as (b & _ & Hreq & Hnone).
           apply load_request_key in Hreq. rewrite <- Hreq in Hnone.
           rewrite lookup_insert_eq in Hnone. discriminate.
        -- intros r Hr. apply elem_of_cons in Hr as [->|Hr].
           ++ exists a. split_and!; try done. by left.
           ++ destruct (Hnew r Hr) as (b & Hb & -> & Hnone).
              exists b. split_and!; [by right|reflexivity|].
              destruct (decide (cache_key base_model a = cache_key base_model b))
                as [E|E].
              ** rewrite <- E, lookup_insert_eq in Hnone. discriminate.
              ** by rewrite lookup_insert_ne in Hnone.
Qed.

(** A pass over adapters that are all cached touches nothing. *)
Lemma load_each_cached base_model l : ∀ s names,
  Forall2 (λ a n, adapter_cache s !! cache_key base_model a = Some n) l names →
  load_each base_model l s = (inr names, s).
Proof.
  induction l as [|a l IH]; intros s names Hall.
  - inversion Hall. reflexivity.
  - inversion Hall as [|? n ? ns Hc Hrest]; subst.
    rewrite load_each_cons, (load_one_hit _ _ _ _ Hc), (IH _ _ Hrest).
    reflexivity.
Qed.

Lemma cache_key_name base_model a b :
  cache_key base_model a = cache_key base_model b →
  adapter_name a = adapter_name b.
Proof.
  unfold adapter_name, cache_key. intros E.
  apply (inj (String.append (bm_name base_model))) in E.
  apply (inj (String.append "_")) in E. rewrite E. reflexivity.
Qed.

(** One step of the loop keeps the path, the cache entries and the
    registry entries there are. *)
Lemma load_one_keeps base_model x s res s' b :
  load_one base_model x s = (res, s') →
  adapter_base_path s' = adapter_base_path s
  ∧ adapter_cache s ⊆ adapter_cache s'
  ∧ (in_runtime s base_model b → in_runtime s' base_model b).
Proof.
  destruct (adapter_cache s !! cache_key base_model x) as [n|] eqn:Hc.
  - rewrite (load_one_hit _ _ _ _ Hc). intros [= <- <-]. done.
  - rewrite (load_one_miss _ _ _ Hc). case_bool_decide as Hpost.
    + intros [= <- <-]. split_and!; [reflexivity|by apply insert_subseteq|].
      unfold in_runtime, loaded.
      cbn [vllm loaded_adapters adapter_base_path].
      rewrite lookup_insert_eq. cbn [mbind option_bind].
      destruct (loaded_adapters (vllm s) !! bm_name base_model) as [per|];
        cbn [mbind option_bind default from_option id]; [|discriminate].
      intros Hb.
      destruct (decide (adapter_name x = adapter_name b)) as [E|E].
      * rewrite E, lookup_insert_eq. reflexivity.
      * rewrite lookup_insert_ne by exact E. exact Hb.
    + intros [= <- <-]. done.
Qed.

Lemma load_each_keeps base_model l b : ∀ s res s',
  load_each base_model l s = (res, s') →
  adapter_base_path s' = adapter_base_path s
  ∧ adapter_cache s ⊆ adapter_cache s'
  ∧ (in_runtime s base_model b → in_runtime s' base_model b).
Proof.
  induction l as [|a l IH]; intros s res s' Hrun.
  - cbn in Hrun. injection Hrun as <- <-. done.
  - rewrite load_each_cons in Hrun.
    destruct (load_one base_model a s) as [[e|name] s2] eqn:Hone.
    + injection Hrun as <- <-. apply (load_one_keeps _ _ _ _ _ b Hone).
    + destruct (load_one_keeps _ _ _ _ _ b Hone) as (Hp & Hsub & Hin).
      destruct (load_each base_model l s2) as [[e|names] s3] eqn:Hl;
        injection Hrun as <- <-;
        destruct (IH _ _ _ Hl) as (Hp' & Hsub' & Hin');
        (split_and!; [congruence|by etrans|by auto]).
Qed.

Lemma loaded_in_runtime s base_model a :
  in_runtime (loaded s base_model a) base_model a.
Proof.
  unfold in_runtime, loaded. cbn [vllm loaded_adapters adapter_base_path].
  rewrite lookup_insert_eq. cbn [mbind option_bind].
  rewrite lookup_insert_eq. reflexivity.
Qed.

(** A failed pass: the adapter the runtime refused, what came before it
    in the list, and what the pass left of those adapters. *)
Lemma load_each_refusal base_model l : ∀ s e s1,
  load_each base_model l s = (inl e, s1) →
  ∃ a done rest, l = done ++ a :: rest
    ∧ e = Exception ("Failed to load adapter " +:+ int_str (a_id a))
    ∧ adapter_cache s1 !! cache_key base_model a = None
    ∧ adapter_cache s ⊆ adapter_cache s1
    ∧ (∀ b, b ∈ done → kept_loaded s s1 base_model b)
    ∧ ∃ before, sent (vllm s1) = before ++ [load_request s base_model a]
        ∧ post before (load_request s base_model a) ≠ Some 200.
Proof.
  induction l as [|a l IH]; intros s e s1 Hrun.
  - discriminate.
  - rewrite load_each_cons in Hrun.
    destruct (adapter_cache s !! cache_key base_model a) as [n|] eqn:Hc.
    + rewrite (load_one_hit _ _ _ _ Hc) in Hrun.
      destruct (load_each base_model l s) as [[e'|ns] s'] eqn:Hl; [|discriminate].
      injection Hrun as <- <-.
      destruct (IH _ _ _ Hl)
        as (x & done & rest & -> & He & Hnone & Hsub & Hkept & Hsent).
      exists x, (a :: done), rest. split_and!; try done.
      intros b Hb. apply elem_of_cons in Hb as [->|Hb]; [|by apply Hkept].
      left. exists n. split; [exact Hc|].
      eapply lookup_weaken; eassumption.
    + rewrite (load_one_miss _ _ _ Hc) in Hrun.
      case_bool_decide as Hpost.
      * destruct (load_each base_model l (loaded s base_model a))
          as [[e'|ns] s'] eqn:Hl; [|discriminate].
        injection Hrun as <- <-.
        destruct (IH _ _ _ Hl)
          as (x & done & rest & -> & He & Hnone & Hsub & Hkept & Hsent).
        destruct (load_each_keeps _ _ a _ _ _ Hl) as (_ & _ & Hreg).
        assert (Ha : adapter_cache s' !! cache_key base_model a
                     = Some (adapter_name a)).
        { eapply lookup_weaken; [|exact Hsub]. apply lookup_insert_eq. }
        assert (Hra : in_runtime s' base_model a)
          by apply Hreg, loaded_in_runtime.
        cbn [loaded adapter_cache] in Hsub.
        exists x, (a :: done), rest. split_and!; try done.
        -- etrans; [|exact Hsub]. by apply insert_subseteq.
        -- intros b Hb. apply elem_of_cons in Hb as [->|Hb].
           { right. split_and!; assumption. }
           destruct (decide (cache_key base_model a = cache_key base_model b))
             as [E|E].
           { right. rewrite <- E.
             unfold in_runtime in *.
             rewrite <- (cache_key_name _ _ _ E).
             split_and!; assumption. }
           destruct (Hkept b Hb) as [(n & Hn & Hn')|(Hn & Hn' & Hrb)].
           ++ left. exists n. cbn [loaded adapter_cache] in Hn.
              rewrite lookup_insert_ne in Hn by exact E. split; assumption.
           ++ right. cbn [loaded adapter_cache] in Hn.
              rewrite lookup_insert_ne in Hn by exact E.
              split_and!; assumption.
      * injection Hrun as <- <-.
        exists a, [], l. split_and!; try done.
        -- intros b Hb. inversion Hb.
        -- exists (sent (vllm s)). split; [reflexivity|exact Hpost].
Qed.

End Facts.

End LoRAFacts.

(** ** Claims about the adapter manager *)

Module LoRAClaims.
Import Models vLLMService LoRAManager LoRAFacts LoRASpec LoRAOutcomes.

Lemma resolved_length_le s model_id adapter_ids :
  NoDup (a_id <$> lora_adapters (db s)) →
  NoDup (a_id <$> resolved s model_id adapter_ids)
  ∧ a_id <$> resolved s model_id adapter_ids ⊆+ adapter_ids.
Proof.
  intros Hpk.
  assert (Hnd : NoDup (a_id <$> resolved s model_id adapter_ids)).
  { unfold resolved.
    eapply sublist_NoDup; [exact Hpk|apply fmap_sublist, sublist_filter]. }
  split; [exact Hnd|]. apply NoDup_submseteq.
  - exact Hnd.
  - intros x Hx. apply list_elem_of_fmap in Hx as (a & -> & Ha).
    unfold resolved in Ha. apply list_elem_of_filter in Ha as [[Hin _] _].
    exact Hin.
Qed.

(** C9: a request list with a repeated adapter id is refused with the
    adapters-not-found error, whatever the ids are: the table holds one row
    per id, so fewer rows come back than ids were asked for. *)
Theorem duplicate_adapter_id_rejected `{Server} (s : LoRAManager.t)
    (model_id : Z) (adapter_ids : list Z) model base_model :
  NoDup (a_id <$> lora_adapters (db s)) →
  models (db s) !! model_id = Some model →
  base_models (db s) !! m_base_model_id model = Some base_model →
  ¬ NoDup adapter_ids →
  load_adapters_for_inference model_id adapter_ids s
  = (inl (ValueError "Some adapters not found"), s).
Proof.
  intros Hpk Hm Hb Hdup.
  rewrite load_adapters_unfold, Hm, Hb.
  rewrite bool_decide_eq_true_2; [reflexivity|].
  destruct (resolved_length_le s model_id adapter_ids Hpk) as [Hnd Hsub].
  intros Hlen. apply Hdup.
  apply submseteq_length_Permutation in Hsub;
    [|rewrite length_fmap; lia].
  rewrite <- Hsub. exact Hnd.
Qed.

(** C6: after a successful call, the same call again answers the same
    names and leaves the whole state as it is, so it sends no request to
    the runtime; the requests of the first call are pairwise distinct load
    requests for resolved adapters, and every returned name is the cache
    entry under the adapter's key. *)
Theorem load_adapters_twice `{Server} (s s1 : LoRAManager.t)
    (model_id : Z) (adapter_ids : list Z) (names : list string) :
  load_adapters_for_inference model_id adapter_ids s = (inr names, s1) →
  load_adapters_for_inference model_id adapter_ids s1 = (inr names, s1)
  ∧ ∃ model base_model new,
      models (db s) !! model_id = Some model
      ∧ base_models (db s) !! m_base_model_id model = Some base_model
      ∧ sent (vllm s1) = sent (vllm s) ++ new
      ∧ NoDup new
      ∧ (∀ r, r ∈ new →
           ∃ a, a ∈ resolved s model_id adapter_ids
                ∧ r = load_request s base_model a)
      ∧ Forall2 (λ a n, adapter_cache s1 !! cache_key base_model a = Some n)
          (resolved s model_id adapter_ids) names.
Proof.
  intros Hrun. rewrite load_adapters_unfold in Hrun.
  destruct (models (db s) !! model_id) as [model|] eqn:Hm; [|discriminate].
  destruct (base_models (db s) !! m_base_model_id model) as [base_model|] eqn:Hb;
    [|discriminate].
  case_bool_decide as Hlen; [discriminate|].
  destruct (load_each_success _ _ _ _ _ Hrun)
    as (Hdb & Hp & Hsub & Hall & new & Hsent & Hnd & Hnew).
  split.
  - rewrite load_adapters_unfold.
    assert (Hres : resolved s1 model_id adapter_ids = resolved s model_id adapter_ids)
      by (unfold resolved; rewrite Hdb; reflexivity).
    rewrite Hdb, Hm, Hb, Hres.
    rewrite bool_decide_eq_false_2 by (intros Hne; exact (Hne Hlen)).
    apply load_each_cached, Hall.
  - exists model, base_model, new. split_and!; try done.
    intros r Hr. destruct (Hnew r Hr) as (a & Ha & -> & _). eauto.
Qed.

(** C4, as the code has it: when the model and its base model resolve and
    the number of matching adapter rows differs from the number of ids, the
    call raises the adapters-not-found error and leaves the state as it
    was; any other failure of the call is the refusal of one adapter by the
    runtime.  That adapter is not in the cache afterwards and the cache
    entries that existed before the call are all still there; but the
    adapters that come before it in the list of matching rows stay as the
    loop left them: one that was not cached has been loaded, and is now in
    the cache under its runtime name and in the registry of the gateway.
    The last request sent is the one the runtime refused. *)
Theorem load_adapters_failure `{Server} (s : LoRAManager.t)
    (model_id : Z) (adapter_ids : list Z) model base_model :
  models (db s) !! model_id = Some model →
  base_models (db s) !! m_base_model_id model = Some base_model →
  (length (resolved s model_id adapter_ids) ≠ length adapter_ids →
     load_adapters_for_inference model_id adapter_ids s
     = (inl (ValueError "Some adapters not found"), s))
  ∧ ∀ e s1,
      load_adapters_for_inference model_id adapter_ids s = (inl e, s1) →
      (e = ValueError "Some adapters not found" ∧ s1 = s)
      ∨ ∃ a done rest,
          resolved s model_id adapter_ids = done ++ a :: rest
          ∧ e = Exception ("Failed to load adapter " +:+ int_str (a_id a))
          ∧ adapter_cache s1 !! cache_key base_model a = None
          ∧ adapter_cache s ⊆ adapter_cache s1
          ∧ (∀ b, b ∈ done → kept_loaded s s1 base_model b)
          ∧ ∃ before,
              sent (vllm s1) = before ++ [load_request s base_model a]
              ∧ post before (load_request s base_model a) ≠ Some 200.
Proof.
  intros Hm Hb. split.
  - intros Hlen. rewrite load_adapters_unfold, Hm, Hb.
    rewrite bool_decide_eq_true_2 by exact Hlen. reflexivity.
  - intros e s1 Hrun. rewrite load_adapters_unfold, Hm, Hb in Hrun.
    case_bool_decide as Hlen.
    + left. injection Hrun as <- <-. split; reflexivity.
    + right. destruct (load_each_refusal _ _ _ _ _ Hrun)
        as (a & done & rest & Hl & He & Hnone & Hsub & Hkept & Hsent).
      exists a, done, rest. split_and!; done.
Qed.

(** C5, as the code has it: an unknown id is a not-found error; for a known
    base model the test is whether its name is in the runtime gateway's
    registry of loaded models, not the [is_loaded] flag: a name in the
    registry is returned without any request, a name not in it makes one
    load request, after which the name is returned with the flag set and
    persisted when the runtime answered 200, and a load-failure error is
    raised with the tables untouched otherwise. *)
Theorem ensure_base_model_loaded_cases `{Server} (s : LoRAManager.t)
    (base_model_id : Z) :
  (base_models (db s) !! base_model_id = None →
     ensure_base_model_loaded base_model_id s
     = (inl (ValueError ("Base model " +:+ int_str base_model_id +:+ " not found")),
        s))
  ∧ ∀ base_model,
      base_models (db s) !! base_model_id = Some base_model →
      (is_Some (loaded_models (vllm s) !! bm_name base_model) →
         ensure_base_model_loaded base_model_id s = (inr (bm_name base_model), s))
      ∧ (loaded_models (vllm s) !! bm_name base_model = None →
         let request :=
           ModelsLoad (bm_name base_model) (bm_hf_model_id base_model) in
         (post (sent (vllm s)) request = Some 200 →
            ensure_base_model_loaded base_model_id s
            = (inr (bm_name base_model), model_loaded s base_model_id base_model))
         ∧ (post (sent (vllm s)) request ≠ Some 200 →
            ensure_base_model_loaded base_model_id s
            = (inl (Exception ("Failed to load base model " +:+ bm_name base_model)),
               model_refused s base_model))).
Proof.
  split.
  - intros Hnone. cbv beta iota zeta delta [ensure_base_model_loaded bind get].
    rewrite Hnone. reflexivity.
  - intros base_model Hb. split.
    + intros [path Hin].
      cbv beta iota zeta delta [ensure_base_model_loaded bind get].
      rewrite Hb, Hin. reflexivity.
    + intros Hout request. subst request.
      split; intros Hpost;
        cbv beta iota zeta delta [ensure_base_model_loaded bind get];
        rewrite Hb, Hout;
        cbv beta iota zeta delta
          [zoom load_base_model bind send modify ret raise set_vllm set_db
           model_loaded model_refused];
        cbn [sent loaded_models loaded_adapters vllm adapter_cache
             adapter_base_path db].
      * rewrite Hpost. reflexivity.
      * destruct (post _ _) as [code|]; [|reflexivity].
        destruct (Z.eqb_spec code 200) as [->|Hne]; [congruence|reflexivity].
Qed.

End LoRAClaims.

(** ** A runtime that refuses one adapter *)

Module LoRAScenario.
Import Models vLLMService LoRAManager LoRAFacts LoRAClaims LoRASpec LoRAOutcomes PickyRuntime.

Lemma duplicate_adapter_id_rejected_witness :
  load_adapters_for_inference 1 [1; 1] fresh
  = (inl (ValueError "Some adapters not found"), fresh).
Proof.
  apply (duplicate_adapter_id_rejected fresh 1 [1; 1]
           (mkModel 7 "assistant" 1) (mkBaseModel "base" "llm" "org/base" true)).
  - apply (bool_decide_unpack _). vm_compute. exact I.
  - vm_compute. reflexivity.
  - vm_compute. reflexivity.
  - apply (bool_decide_unpack _). vm_compute. exact I.
Defined.

Lemma load_adapters_twice_witness :
  load_adapters_for_inference 1 [1] after_first
  = (inr ["adapter_1"%string], after_first).
Proof.
  apply (load_adapters_twice fresh after_first 1 [1]
           ["adapter_1"%string]).
  vm_compute. reflexivity.
Defined.

(** C4 at a concrete input: the second of two requested adapters is
    refused, the call fails, and the first adapter is now in the cache and
    in the runtime's registry although neither was there before. *)
Lemma load_failure_keeps_earlier_adapter :
  ∃ s1,
    load_adapters_for_inference 1 [1; 2] fresh
    = (inl (Exception "Failed to load adapter 2"), s1)
    ∧ adapter_cache fresh !! "base_1"%string = None
    ∧ adapter_cache s1 !! "base_1"%string = Some "adapter_1"%string
    ∧ loaded_adapters (vllm fresh) !! "base"%string = None
    ∧ (loaded_adapters (vllm s1) !! "base"%string) ≫= (.!! "adapter_1"%string)
      = Some "./adapters/adapter_1"%string
    ∧ s1 ≠ fresh.
Proof.
  eexists. split; [vm_compute; reflexivity|].
  split_and!; try (vm_compute; reflexivity).
  intros E. apply (f_equal (λ s, adapter_cache s !! "base_1"%string)) in E.
  vm_compute in E. discriminate E.
Qed.

Lemma load_adapters_failure_witness :
  (Exception "Failed to load adapter 2" = ValueError "Some adapters not found"
   ∧ after_refusal = fresh)
  ∨ ∃ a done rest,
      resolved fresh 1 [1; 2] = done ++ a :: rest
      ∧ Exception "Failed to load adapter 2"
        = Exception ("Failed to load adapter " +:+ int_str (a_id a))
      ∧ adapter_cache after_refusal
          !! cache_key (mkBaseModel "base" "llm" "org/base" true) a = None
      ∧ adapter_cache fresh ⊆ adapter_cache after_refusal
      ∧ (∀ b, b ∈ done →
           kept_loaded fresh after_refusal
             (mkBaseModel "base" "llm" "org/base" true) b)
      ∧ ∃ before,
          sent (vllm after_refusal)
          = before ++ [load_request fresh (mkBaseModel "base" "llm" "org/base" true) a]
          ∧ post (Server := picky) before
              (load_request fresh (mkBaseModel "base" "llm" "org/base" true) a)
            ≠ Some 200.
Proof.
  apply (proj2 (load_adapters_failure fresh 1 [1; 2]
                  (mkModel 7 "assistant" 1)
                  (mkBaseModel "base" "llm" "org/base" true)
                  ltac:(vm_compute; reflexivity) ltac:(vm_compute; reflexivity))
           (Exception "Failed to load adapter 2") after_refusal).
  vm_compute. reflexivity.
Defined.

(** C5 at a concrete input: the flag of the base model is already set, the
    registry of the gateway is empty, and the call sends a load request to
    the runtime all the same. *)
Lemma flag_set_runtime_load_still_sent :
  (bm_is_loaded <$> base_models (db fresh) !! 1) = Some true
  ∧ sent (vllm fresh) = []
  ∧ ∃ s1,
      ensure_base_model_loaded 1 fresh = (inr "base"%string, s1)
      ∧ sent (vllm s1) = [ModelsLoad "base" "org/base"].
Proof.
  split_and!; try (vm_compute; reflexivity).
  eexists. split; vm_compute; reflexivity.
Qed.

Lemma ensure_base_model_loaded_cases_witness :
  ensure_base_model_loaded 1 fresh
  = (inr "base"%string,
     model_loaded fresh 1 (mkBaseModel "base" "llm" "org/base" true)).
Proof.
  destruct (ensure_base_model_loaded_cases fresh 1) as [_ Hknown].
  destruct (Hknown (mkBaseModel "base" "llm" "org/base" true)) as [_ Habsent];
    [vm_compute; reflexivity|].
  destruct Habsent as [Haccepted _]; [vm_compute; reflexivity|].
  apply Haccepted. vm_compute. reflexivity.
Defined.

End LoRAScenario.

(** ** Batched insertion *)

Module InsertFacts.
Import MilvusDB MilvusService InsertSpec.

Lemma Forall2_compose {A B C} (P : A → B → Prop) (Q : B → C → Prop)
    (R : A → C → Prop) l k m :
  (∀ x y z, P x y → Q y z → R x z) →
  Forall2 P l k → Forall2 Q k m → Forall2 R l m.
Proof.
  intros HR HP. revert m.
  induction HP as [|x y l k Hxy _ IH]; intros m HQ; inversion HQ; subst;
    constructor; eauto.
Qed.

Lemma Forall2_elem_of_r {A B} (P : A → B → Prop) l k y :
  Forall2 P l k → y ∈ k → ∃ x, x ∈ l ∧ P x y.
Proof.
  induction 1 as [|x y' l k Hxy _ IH]; intros Hy.
  - inversion Hy.
  - apply elem_of_cons in Hy as [->|Hy].
    + exists x. split; [by left|exact Hxy].
    + destruct (IH Hy) as (x' & Hx' & HP). exists x'. split; [by right|exact HP].
Qed.

Lemma Forall2_elem_of_l {A B} (P : A → B → Prop) l k x :
  Forall2 P l k → x ∈ l → ∃ y, y ∈ k ∧ P x y.
Proof.
  induction 1 as [|x' y l k Hxy _ IH]; intros Hx.
  - inversion Hx.
  - apply elem_of_cons in Hx as [->|Hx].
    + exists y. split; [by left|exact Hxy].
    + destruct (IH Hx) as (y' & Hy' & HP). exists y'. split; [by right|exact HP].
Qed.

(** The batches of [insert_chunks] cover the data, in order. *)
Lemma slices_cover {A} (l : list A) (step : nat) : ∀ n,
  concat ((λ i, slice l i (i + step)) <$> ((λ k, 0 + k * step)%nat <$> seq 0 n))
  = take (n * step) l.
Proof.
  induction n as [|n IH]; [reflexivity|].
  rewrite seq_S, !fmap_app, concat_app, IH. cbn [fmap list_fmap concat].
  rewrite app_nil_r. unfold slice.
  replace (0 + (0 + n) * step + step - (0 + (0 + n) * step))%nat with step by lia.
  replace (0 + (0 + n) * step)%nat with (n * step)%nat by lia.
  rewrite take_take_drop. f_equal. lia.
Qed.

Lemma batches_cover {A} (l : list A) :
  concat ((λ i, slice l i (i + batch_size)) <$> range_step 0 (length l) batch_size)
  = l.
Proof.
  unfold range_step. rewrite slices_cover. apply take_ge.
  unfold batch_size.
  pose proof (Nat.div_mod (length l - 0 + (1000 - 1)) 1000) as Hd.
  pose proof (Nat.mod_upper_bound (length l - 0 + (1000 - 1)) 1000) as Hm.
  lia.
Qed.

Section Facts.

Context {V : Type} `{Digest}.

(** The vocabulary, at the vector type of this section. *)
Local Abbreviation scalars := (InsertSpec.scalars (V := V)).
Local Abbreviation prepared := (InsertSpec.prepared (V := V)).
Local Abbreviation row_of := (InsertSpec.row_of (V := V)).
Local Abbreviation tagged := (InsertSpec.tagged (V := V)).

Lemma prepared_scalars t d v chunk (it it' : Item V) :
  prepared t d v chunk it → scalars it' = scalars it → prepared t d v chunk it'.
Proof.
  unfold prepared, scalars. intros Hp [= -> -> _ -> -> -> -> ->]. exact Hp.
Qed.

Lemma prepare_data_prepared t d v embeddings chunks :
  ∀ i (data : list (Item V)),
  prepare_data t d v embeddings i chunks = inr data →
  Forall2 (prepared t d v) chunks data.
Proof.
  induction chunks as [|chunk rest IH]; intros i data Hp.
  - injection Hp as <-. constructor.
  - cbn [prepare_data] in Hp.
    destruct (prepare_item t d v embeddings i chunk) as [e|item] eqn:Hi;
      [discriminate|].
    destruct (prepare_data t d v embeddings (S i) rest) as [e|items] eqn:Hr;
      [discriminate|].
    injection Hp as <-. constructor; [|eapply IH, Hr].
    unfold prepare_item in Hi.
    destruct (source_prefix chunk) as [e|src] eqn:Hsrc; [discriminate|].
    destruct embeddings as [a|].
    + destruct (ndarray_row a (Z.of_nat i)) as [e|vec]; [discriminate|].
      injection Hi as <-. unfold prepared. cbn. split_and!; done.
    + injection Hi as <-. unfold prepared. cbn. split_and!; done.
Qed.

Lemma realign_item_scalars first be item item' :
  realign_item first be item = inr item' → scalars item' = scalars item.
Proof.
  unfold realign_item. destruct be as [a|].
  - destruct (ndarray_row a _) as [e|vec]; [discriminate|].
    intros [= <-]. reflexivity.
  - intros [= <-]. reflexivity.
Qed.

Lemma realign_items_scalars first be items : ∀ items',
  realign_items first be items = inr items' →
  Forall2 (λ it it', scalars it' = scalars it) items items'.
Proof.
  induction items as [|item rest IH]; intros items' Hr.
  - injection Hr as <-. constructor.
  - cbn [realign_items] in Hr.
    destruct (realign_item first be item) as [e|item'] eqn:Hi; [discriminate|].
    destruct (realign_items first be rest) as [e|rest'] eqn:Hrest; [discriminate|].
    injection Hr as <-. constructor; [|eapply IH; reflexivity].
    eapply realign_item_scalars, Hi.
Qed.

Lemma realign_scalars batch be items' :
  realign batch be = inr items' →
  Forall2 (λ it it', scalars it' = scalars it) batch items'.
Proof.
  unfold realign. destruct batch as [|first rest].
  - intros [= <-]. constructor.
  - apply realign_items_scalars.
Qed.

Lemma row_of_fields k it r : row_of k it = Some r → fields r = it.
Proof.
  unfold row_of. destruct (embedding it); [|discriminate].
  destruct (source it); try discriminate. intros [= <-]. reflexivity.
Qed.

Lemma insert_one_eq it (c : Collection V) :
  insert_one it c
  = match row_of (next_pk c) it with
    | Some r => (inr (next_pk c), mkCollection (rows c ++ [r]) (next_pk c + 1))
    | None =>
        (inl (Exception "MilvusException: data does not match the schema"), c)
    end.
Proof.
  unfold insert_one, row_of.
  destruct (embedding it); [|reflexivity].
  destruct (source it); reflexivity.
Qed.

(** What [insert_all] appends, whether it ends well or not. *)
Lemma insert_all_rows its : ∀ (c c' : Collection V) res,
  insert_all its c = (res, c') →
  ∃ added, rows c' = rows c ++ added
    ∧ (∀ ks, res = inr ks → Forall2 (λ it r, fields r = it) its added).
Proof.
  induction its as [|it rest IH]; intros c c' res Hrun.
  - injection Hrun as <- <-. exists []. rewrite app_nil_r.
    split; [reflexivity|]. intros; constructor.
  - cbn [insert_all] in Hrun. unfold bind at 1 in Hrun.
    rewrite insert_one_eq in Hrun.
    destruct (row_of (next_pk c) it) as [r|] eqn:Hrow.
    + unfold bind, ret in Hrun.
      destruct (insert_all rest _) as [[e|ks'] c2] eqn:Hrest;
        injection Hrun as <- <-;
        destruct (IH _ _ _ Hrest) as (added & Hrows & Hok);
        cbn [rows] in Hrows;
        exists (r :: added);
        (split; [rewrite Hrows, <- app_assoc; reflexivity|]).
      * intros ks [=].
      * intros ks _. constructor.
        -- eapply row_of_fields, Hrow.
        -- eapply Hok. reflexivity.
    + injection Hrun as <- <-. exists []. rewrite app_nil_r.
      split; [reflexivity|]. intros ks [=].
Qed.

(** [collection.insert] stores all the rows or none. *)
Lemma insert_rows its (c c' : Collection V) res :
  insert its c = (res, c') →
  match res with
  | inl _ => c' = c
  | inr _ => ∃ added, rows c' = rows c ++ added
               ∧ Forall2 (λ it r, fields r = it) its added
  end.
Proof.
  unfold insert.
  destruct (insert_all its c) as [[e|ks] c1] eqn:Hall; intros [= <- <-].
  - reflexivity.
  - destruct (insert_all_rows _ _ _ _ Hall) as (added & Hrows & Hok).
    exists added. split; [exact Hrows|]. eapply Hok. reflexivity.
Qed.

Lemma insert_batch_rows data embeddings i (c c' : Collection V) res :
  insert_batch data embeddings i c = (res, c') →
  match res with
  | inl _ => c' = c
  | inr _ => ∃ added, rows c' = rows c ++ added
               ∧ Forall2 (λ it r, scalars (fields r) = scalars it)
                   (slice data i (i + batch_size)) added
  end.
Proof.
  unfold insert_batch, bind, lift.
  destruct (realign _ _) as [e|items] eqn:Hre.
  - intros [= <- <-]. reflexivity.
  - intros Hins. apply insert_rows in Hins. destruct res as [e|ks]; [exact Hins|].
    destruct Hins as (added & Hrows & Hall). exists added.
    split; [exact Hrows|].
    apply realign_scalars in Hre.
    eapply Forall2_compose; [|exact Hre|exact Hall].
    intros it it' r Hs <-. exact Hs.
Qed.

Lemma slice_elem_of {A} (l : list A) i j x : x ∈ slice l i j → x ∈ l.
Proof.
  unfold slice. intros Hx.
  eapply (subseteq_drop i l), (subseteq_take (j - i)), Hx.
Qed.

(** The rows the loop over the batches appends: rows of the data, and on
    success one row for every item of every batch, in order. *)
Lemma insert_batches_rows data embeddings starts :
  ∀ (c c' : Collection V) res,
  insert_batches data embeddings starts c = (res, c') →
  ∃ added, rows c' = rows c ++ added
    ∧ Forall (λ r, ∃ it, it ∈ data ∧ scalars (fields r) = scalars it) added
    ∧ (∀ ks, res = inr ks →
         Forall2 (λ it r, scalars (fields r) = scalars it)
           (concat ((λ i, slice data i (i + batch_size)) <$> starts)) added).
Proof.
  induction starts as [|i rest IH]; intros c c' res Hrun.
  - injection Hrun as <- <-. exists []. rewrite app_nil_r.
    split_and!; [reflexivity|constructor|]. intros; constructor.
  - cbn [insert_batches] in Hrun. unfold bind at 1 in Hrun.
    destruct (insert_batch data embeddings i c) as [[e|ks1] c1] eqn:Hb.
    + injection Hrun as <- <-. apply insert_batch_rows in Hb. subst c1.
      exists []. rewrite app_nil_r.
      split_and!; [reflexivity|constructor|]. intros ks [=].
    + apply insert_batch_rows in Hb. destruct Hb as (added1 & Hrows1 & Hall1).
      assert (Hin1 : Forall (λ r, ∃ it, it ∈ data
                               ∧ scalars (fields r) = scalars it) added1).
      { apply Forall_forall. intros r Hr.
        destruct (Forall2_elem_of_r _ _ _ _ Hall1 Hr) as (it & Hit & Hs).
        exists it. split; [eapply slice_elem_of, Hit|exact Hs]. }
      unfold bind, ret in Hrun.
      destruct (insert_batches data embeddings rest c1) as [[e|ks2] c2] eqn:Hrest;
        injection Hrun as <- <-;
        destruct (IH _ _ _ Hrest) as (added2 & Hrows2 & Hin2 & Hok2);
        exists (added1 ++ added2);
        (split; [rewrite Hrows2, Hrows1, <- app_assoc; reflexivity|]);
        (split; [apply Forall_app; split; assumption|]).
      * intros ks [=].
      * intros ks _. cbn [fmap list_fmap concat].
        apply Forall2_app; [exact Hall1|]. eapply Hok2. reflexivity.
Qed.

(** [insert_chunks], whatever its outcome, only appends rows tagged with
    its tenant and document; when it returns, it has appended one row per
    chunk, in order, each built from its chunk. *)
Lemma insert_chunks_rows tenant_id document_id chunks chunk_version embeddings
    (c c' : Collection V) res :
  insert_chunks tenant_id document_id chunks chunk_version embeddings c
  = (res, c') →
  ∃ added, rows c' = rows c ++ added
    ∧ Forall (tagged tenant_id document_id) added
    ∧ (∀ ks, res = inr ks →
         Forall2 (λ chunk r,
                    prepared tenant_id document_id chunk_version chunk (fields r))
           chunks added).
Proof.
  unfold insert_chunks, bind, lift.
  destruct (prepare_data _ _ _ _ _ _) as [e|data] eqn:Hp.
  - intros [= <- <-]. exists []. rewrite app_nil_r.
    split_and!; [reflexivity|constructor|]. intros ks [=].
  - intros Hrun. apply prepare_data_prepared in Hp.
    destruct (insert_batches_rows _ _ _ _ _ _ Hrun) as (added & Hrows & Hin & Hok).
    exists added. split_and!; [exact Hrows| |].
    + eapply Forall_impl; [exact Hin|]. intros r (it & Hit & Hs).
      destruct (Forall2_elem_of_r _ _ _ _ Hp Hit) as (chunk & _ & Hprep).
      destruct (prepared_scalars _ _ _ _ _ _ Hprep Hs) as (Ht & Hd & _).
      split; assumption.
    + intros ks Hres. specialize (Hok ks Hres). rewrite batches_cover in Hok.
      eapply Forall2_compose; [|exact Hp|exact Hok].
      intros chunk it r Hprep Hs. eapply prepared_scalars; eassumption.
Qed.

Lemma row_of_key k k' it :
  is_Some (row_of k it) → is_Some (row_of k' it).
Proof.
  unfold row_of. destruct (embedding it); [|intros [? [=]]].
  destruct (source it); intros [? [=]]; eauto.
Qed.

(** Whether an insertion is accepted does not depend on what the
    collection holds. *)
Lemma insert_all_outcome its : ∀ c1 c2 : Collection V,
  outcome (insert_all its c1).1 = outcome (insert_all its c2).1.
Proof.
  induction its as [|it rest IH]; intros c1 c2; [reflexivity|].
  cbn [insert_all]. unfold bind at 1 3. rewrite !insert_one_eq.
  destruct (row_of (next_pk c1) it) as [r1|] eqn:E1;
    destruct (row_of (next_pk c2) it) as [r2|] eqn:E2.
  - unfold bind, ret.
    pose proof (IH (mkCollection (rows c1 ++ [r1]) (next_pk c1 + 1))
                  (mkCollection (rows c2 ++ [r2]) (next_pk c2 + 1))) as Hrest.
    destruct (insert_all rest _) as [[e1|ks1] d1];
      destruct (insert_all rest _) as [[e2|ks2] d2];
      cbn in Hrest |- *; congruence.
  - exfalso. destruct (row_of_key (next_pk c1) (next_pk c2) it) as [? Hs];
      [eauto|congruence].
  - exfalso. destruct (row_of_key (next_pk c2) (next_pk c1) it) as [? Hs];
      [eauto|congruence].
  - reflexivity.
Qed.

Lemma insert_outcome its (c1 c2 : Collection V) :
  outcome (insert its c1).1 = outcome (insert its c2).1.
Proof.
  unfold insert. pose proof (insert_all_outcome its c1 c2) as Hall.
  destruct (insert_all its c1) as [[e1|ks1] d1];
    destruct (insert_all its c2) as [[e2|ks2] d2]; exact Hall.
Qed.

Lemma insert_batch_outcome data embeddings i (c1 c2 : Collection V) :
  outcome (insert_batch data embeddings i c1).1
  = outcome (insert_batch data embeddings i c2).1.
Proof.
  unfold insert_batch, bind, lift.
  destruct (realign _ _) as [e|items]; [reflexivity|].
  apply insert_outcome.
Qed.

Lemma insert_batches_outcome data embeddings starts : ∀ c1 c2 : Collection V,
  outcome (insert_batches data embeddings starts c1).1
  = outcome (insert_batches data embeddings starts c2).1.
Proof.
  induction starts as [|i rest IH]; intros c1 c2; [reflexivity|].
  cbn [insert_batches]. unfold bind at 1 3.
  pose proof (insert_batch_outcome data embeddings i c1 c2) as Hb.
  destruct (insert_batch data embeddings i c1) as [[e1|ks1] d1];
    destruct (insert_batch data embeddings i c2) as [[e2|ks2] d2];
    cbn in Hb; try discriminate Hb; [exact Hb|].
  unfold bind, ret. pose proof (IH d1 d2) as Hrest.
  destruct (insert_batches data embeddings rest d1) as [[e1|ks1'] d1'];
    destruct (insert_batches data embeddings rest d2) as [[e2|ks2'] d2'];
    exact Hrest.
Qed.

Lemma insert_chunks_outcome tenant_id document_id chunks chunk_version
    embeddings (c1 c2 : Collection V) :
  outcome (insert_chunks tenant_id document_id chunks chunk_version
             embeddings c1).1
  = outcome (insert_chunks tenant_id document_id chunks chunk_version
               embeddings c2).1.
Proof.
  unfold insert_chunks, bind, lift.
  destruct (prepare_data _ _ _ _ _ _) as [e|data]; [reflexivity|].
  apply insert_batches_outcome.
Qed.

End Facts.

End InsertFacts.

(** ** Claims about [insert_chunks] *)

Module InsertClaims.
Import MilvusDB MilvusService InsertFacts InsertSpec InsertInputs.

Lemma str_len_take n s : str_len (str_take n s) = N.min n (str_len s).
Proof.
  revert n. induction s as [|c s IH]; intros n; cbn [str_take str_len].
  - lia.
  - destruct (N.eqb_spec n 0) as [->|Hn]; cbn [str_len]; [lia|].
    rewrite IH. lia.
Qed.

Lemma str_take_shorter n s : (n < str_len s)%N → str_take n s ≠ s.
Proof.
  intros Hlt E. apply (f_equal str_len) in E. rewrite str_len_take in E. lia.
Qed.

Lemma str_take_prefix n s : ∃ rest, s = str_take n s +:+ rest.
Proof.
  revert n. induction s as [|c s IH]; intros n; cbn [str_take].
  - exists EmptyString. reflexivity.
  - destruct (N.eqb_spec n 0) as [->|Hn].
    + exists (String c s). reflexivity.
    + destruct (IH (N.pred n)) as [rest Hrest]. exists rest.
      change (String c (str_take (N.pred n) s) +:+ rest)
        with (String c (str_take (N.pred n) s +:+ rest)).
      rewrite <- Hrest. reflexivity.
Qed.

Lemma str_take_first_chars n s : first_chars n s (str_take n s).
Proof. split; [apply str_take_prefix|apply str_len_take]. Qed.

(** C10: when [insert_chunks] returns, the rows it appended are one per
    chunk, in order; the row of a chunk holds the first 65535 characters of
    the chunk's text (a prefix of the text, of length
    [min 65535 (len text)]), the first 512 characters of its source, and
    the digest of the whole text.  For a text longer than 65535 characters
    the stored text has 65535 characters and is therefore not the text
    that was hashed: the stored hash is the digest of the stored text
    exactly when the digest collides on the stored text and the whole
    text. *)
Theorem stored_hash_is_of_full_text {V} `{Digest} (tenant_id document_id : Z)
    (chunks : list Chunk) (chunk_version : Z) (embeddings : option (list V))
    (c c' : Collection V) (ks : list Z) :
  insert_chunks tenant_id document_id chunks chunk_version embeddings c
  = (inr ks, c') →
  ∃ added, rows c' = rows c ++ added
    ∧ length added = length chunks
    ∧ ∀ i chunk, chunks !! i = Some chunk →
        ∃ r, added !! i = Some r
          ∧ text (fields r) = str_take 65535 (c_text chunk)
          ∧ first_chars 65535 (c_text chunk) (text (fields r))
          ∧ (∀ s, default (PStr EmptyString) (c_source chunk) = PStr s →
               ∃ stored, source (fields r) = PStr stored
                         ∧ stored = str_take 512 s
                         ∧ first_chars 512 s stored)
          ∧ content_hash (fields r) = sha256_hexdigest (c_text chunk)
          ∧ ((65535 < str_len (c_text chunk))%N →
               str_len (text (fields r)) = 65535%N
               ∧ text (fields r) ≠ c_text chunk
               ∧ (content_hash (fields r) = sha256_hexdigest (text (fields r))
                  ↔ collides (text (fields r)) (c_text chunk))).
Proof.
  intros Hrun.
  destruct (insert_chunks_rows _ _ _ _ _ _ _ _ Hrun) as (added & Hrows & _ & Hok).
  specialize (Hok ks eq_refl).
  exists added. split_and!; [exact Hrows|symmetry; eapply Forall2_length, Hok|].
  intros i chunk Hi.
  destruct (Forall2_lookup_l _ _ _ _ _ Hok Hi) as (r & Hr & Hprep).
  destruct Hprep as (_ & _ & _ & Hhash & Htext & Hsrc & _).
  exists r. split_and!; try done.
  - rewrite Htext. apply str_take_first_chars.
  - intros s Hs. unfold source_prefix in Hsrc. rewrite Hs in Hsrc.
    injection Hsrc as <-. eexists. split_and!; [reflexivity|reflexivity|].
    apply str_take_first_chars.
  - intros Hlong.
    assert (Hne : text (fields r) ≠ c_text chunk).
    { rewrite Htext. apply str_take_shorter, Hlong. }
    split_and!; [rewrite Htext, str_len_take; lia|exact Hne|].
    unfold collides. rewrite Hhash. split.
    + intros E. split; [exact Hne|symmetry; exact E].
    + intros [_ E]. symmetry. exact E.
Qed.

(** C7 at concrete inputs: with two chunks that carry the same
    [chunk_index], the row of the second chunk gets embedding row 0, not
    row 1; with chunk indices 0 and 2, as delta ingestion produces them when
    the first and third chunk of a document changed, the lookup of the
    embedding raises [IndexError] and nothing is stored. *)
Theorem chunk_index_picks_embedding_row `{Digest} :
  (∃ ks c',
     insert_chunks 1 7 [piece "p" 0; piece "q" 0] 1 (Some [[10]; [20]]) no_rows
     = (inr ks, c')
     ∧ vector <$> rows c' = [[10]; [10]])
  ∧ insert_chunks 1 7 [piece "p" 0; piece "q" 2] 1 (Some [[10]; [20]]) no_rows
    = (inl IndexError, no_rows).
Proof.
  split.
  - eexists _, _. split; vm_compute; reflexivity.
  - vm_compute. reflexivity.
Qed.

End InsertClaims.

(** ** The ingestion of one document *)

Module IngestionFacts.
Import MilvusDB MilvusService DataIngestionService ExprFacts InsertFacts ExprSpec InsertSpec IngestionSpec.

Section Facts.

Context {V : Type} `{Digest} `{LlamaIndex V} `{Web}.

(** The vocabulary, at the vector type of this section. *)
Local Abbreviation scalars := (InsertSpec.scalars (V := V)).
Local Abbreviation prepared := (InsertSpec.prepared (V := V)).
Local Abbreviation row_of := (InsertSpec.row_of (V := V)).
Local Abbreviation tagged := (InsertSpec.tagged (V := V)).
Local Abbreviation matching := (IngestionSpec.matching (V := V)).
Local Abbreviation stats_of := (IngestionSpec.stats_of (V := V)).
Local Abbreviation stored_hashes := (IngestionSpec.stored_hashes (V := V)).
Local Abbreviation job_chunks := (IngestionSpec.job_chunks (V := V)).
Local Abbreviation new_chunks := (IngestionSpec.new_chunks (V := V)).
Local Abbreviation marked := (IngestionSpec.marked (V := V)).
Local Abbreviation recorded := (IngestionSpec.recorded (V := V)).
Local Abbreviation store_new := (IngestionSpec.store_new (V := V)).
Local Abbreviation verdict := (IngestionSpec.verdict (V := V)).
Local Abbreviation logged := (IngestionSpec.logged (V := V)).
Local Abbreviation settle := (IngestionSpec.settle (V := V)).
Local Abbreviation on_track := (IngestionSpec.on_track (V := V)).

Lemma get_document_stats_eq tenant_id document_id (c : Collection V) :
  get_document_stats tenant_id document_id c
  = (inr (stats_of (matching c tenant_id document_id)), c).
Proof.
  unfold get_document_stats, bind. rewrite query_document_expr.
  fold (matching c tenant_id document_id).
  destruct (matching c tenant_id document_id); reflexivity.
Qed.

Lemma existing_hashes_eq tenant_id document_id (s : DataIngestionService.t V) :
  existing_hashes_of (stats_of (matching (milvus s) tenant_id document_id))
    tenant_id document_id s
  = (inr (stored_hashes (milvus s) tenant_id document_id), s).
Proof.
  unfold existing_hashes_of, stored_hashes.
  destruct (matching (milvus s) tenant_id document_id) as [|r rest] eqn:Hm.
  - reflexivity.
  - cbn [stats_of chunk_count].
    replace (0 <? Z.of_nat (length (r :: rest))) with true
      by (symmetry; apply Z.ltb_lt; cbn [length]; lia).
    change ("tenant_id == " +:+ int_str tenant_id +:+ " && document_id == "
              +:+ int_str document_id)
      with (document_expr tenant_id document_id).
    unfold bind, zoom. rewrite query_document_expr.
    fold (matching (milvus s) tenant_id document_id). rewrite Hm.
    destruct s. reflexivity.
Qed.

Lemma process_body_eq doc_info (s : DataIngestionService.t V) :
  process_body doc_info s
  = match new_chunks doc_info s with
    | [] => (inr tt, marked "ready" (job_document_id doc_info) s)
    | _ :: _ =>
        store_new doc_info
          (stats_of (matching (milvus s) (job_tenant_id doc_info)
                       (job_document_id doc_info)))
          (new_chunks doc_info s) s
    end.
Proof.
  unfold process_body. unfold bind at 1. unfold zoom at 1.
  rewrite get_document_stats_eq.
  replace (set_milvus (milvus s) s) with s by (destruct s; reflexivity).
  unfold bind at 1. rewrite existing_hashes_eq.
  fold (job_chunks doc_info). fold (new_chunks doc_info s).
  destruct (new_chunks doc_info s); reflexivity.
Qed.

Lemma process_document_eq doc_info (s : DataIngestionService.t V) :
  _process_document doc_info s
  = match process_body doc_info s with
    | (inr _, s') => (inr tt, s')
    | (inl _, s') => (inr tt, marked "failed" (job_document_id doc_info) s')
    end.
Proof.
  unfold _process_document, try_except.
  destruct (process_body doc_info s) as [[e|[]] s']; reflexivity.
Qed.

Lemma marked_documents status document_id (s : DataIngestionService.t V) d :
  Models.documents (db (marked status document_id s)) !! d
  = if decide (d = document_id)
    then with_status status <$> Models.documents (db s) !! d
    else Models.documents (db s) !! d.
Proof.
  unfold marked, set_db, Models.set_documents. cbn [db Models.documents].
  destruct (decide (d = document_id)) as [->|Hne].
  - destruct (Models.documents (db s) !! document_id) as [doc|] eqn:Hd.
    + rewrite lookup_insert_eq. reflexivity.
    + rewrite Hd. reflexivity.
  - destruct (Models.documents (db s) !! document_id) as [doc|] eqn:Hd.
    + rewrite lookup_insert_ne by congruence. reflexivity.
    + reflexivity.
Qed.

Lemma recorded_documents chunk_count version document_id
    (s : DataIngestionService.t V) d :
  Models.documents (db (recorded chunk_count version document_id s)) !! d
  = if decide (d = document_id)
    then with_result chunk_count version <$> Models.documents (db s) !! d
    else Models.documents (db s) !! d.
Proof.
  unfold recorded, set_db, Models.set_documents. cbn [db Models.documents].
  destruct (decide (d = document_id)) as [->|Hne].
  - destruct (Models.documents (db s) !! document_id) as [doc|] eqn:Hd.
    + rewrite lookup_insert_eq. reflexivity.
    + rewrite Hd. reflexivity.
  - destruct (Models.documents (db s) !! document_id) as [doc|] eqn:Hd.
    + rewrite lookup_insert_ne by congruence. reflexivity.
    + reflexivity.
Qed.

(** Writing 'ready' over 'ready' changes nothing. *)
Lemma marked_ready_again document_id (s : DataIngestionService.t V) :
  Models.d_status <$> Models.documents (db s) !! document_id = Some "ready"%string →
  marked "ready" document_id s = s.
Proof.
  intros Hst. unfold marked, set_db, Models.set_documents.
  destruct s as [c [bms ms las docs] calls]. cbn in *.
  destruct (docs !! document_id) as [doc|] eqn:Hd; [|reflexivity].
  injection Hst as Hst. rewrite insert_id; [reflexivity|].
  rewrite Hd. destruct doc. cbn in Hst. subst. reflexivity.
Qed.

Lemma select_new_nil chunks (stored : gset string) :
  (∀ chunk, chunk ∈ chunks → compute_content_hash (c_text chunk) ∈ stored) →
  select_new chunks stored = [].
Proof.
  unfold select_new. induction chunks as [|chunk rest IH]; intros Hall.
  - reflexivity.
  - rewrite filter_cons. destruct (decide _) as [Hnew|_].
    + exfalso. apply Hnew, Hall. by left.
    + apply IH. intros c Hc. apply Hall. by right.
Qed.

Lemma select_new_elem_of chunks (stored : gset string) chunk :
  chunk ∈ chunks →
  compute_content_hash (c_text chunk) ∈ stored
  ∨ chunk ∈ select_new chunks stored.
Proof.
  intros Hin. unfold select_new.
  destruct (decide (compute_content_hash (c_text chunk) ∈ stored)) as [Hs|Hs].
  - by left.
  - right. apply list_elem_of_filter. split; assumption.
Qed.

Lemma matching_app (c c' : Collection V) added tenant_id document_id :
  rows c' = rows c ++ added →
  matching c' tenant_id document_id
  = matching c tenant_id document_id
      ++ filter (λ r, of_document tenant_id document_id r = true) added.
Proof. intros Hrows. unfold matching. rewrite Hrows, filter_app. reflexivity. Qed.

Lemma stored_hashes_mono (c c' : Collection V) added tenant_id document_id :
  rows c' = rows c ++ added →
  stored_hashes c tenant_id document_id ⊆ stored_hashes c' tenant_id document_id.
Proof.
  intros Hrows. unfold stored_hashes.
  rewrite (matching_app _ _ _ _ _ Hrows), fmap_app, list_to_set_app.
  apply union_subseteq_l.
Qed.

Lemma stored_hashes_added (c c' : Collection V) added tenant_id document_id r :
  rows c' = rows c ++ added →
  r ∈ added → tagged tenant_id document_id r →
  content_hash (fields r) ∈ stored_hashes c' tenant_id document_id.
Proof.
  intros Hrows Hr [Ht Hd]. unfold stored_hashes.
  rewrite (matching_app _ _ _ _ _ Hrows), fmap_app, list_to_set_app.
  apply elem_of_union_r, elem_of_list_to_set, list_elem_of_fmap.
  exists r. split; [reflexivity|].
  apply list_elem_of_filter. split; [|exact Hr].
  unfold of_document. rewrite Ht, Hd, !Z.eqb_refl. reflexivity.
Qed.

(** What storing the new chunks does to the state. *)
Lemma store_new_inv doc_info existing_stats new
    (s s' : DataIngestionService.t V) res :
  store_new doc_info existing_stats new s = (res, s') →
  ∃ added, rows (milvus s') = rows (milvus s) ++ added
    ∧ Forall (tagged (job_tenant_id doc_info) (job_document_id doc_info)) added
    ∧ (∀ calls, embedding_calls s' = calls → 
         calls = embedding_calls s ∨ calls = embedding_calls s ++ [c_text <$> new])
    ∧ match res with
      | inr _ =>
          Forall2 (λ chunk r,
                     prepared (job_tenant_id doc_info) (job_document_id doc_info)
                       (latest_version existing_stats + 1) chunk (fields r))
            new added
          ∧ db s'
            = db (recorded (chunk_count existing_stats + Z.of_nat (length new))
                    (latest_version existing_stats + 1)
                    (job_document_id doc_info) s)
          ∧ embedding_calls s' = embedding_calls s ++ [c_text <$> new]
      | inl _ => db s' = db s
      end.
Proof.
  unfold store_new. unfold bind at 1. unfold _compute_embeddings.
  destruct LLAMA_INDEX_AVAILABLE; cbn [negb].
  - cbv beta iota zeta delta [bind modify lift].
    destruct (get_text_embedding_batch (c_text <$> new)) as [e|embeddings].
    + intros [= <- <-]. exists []. cbn. rewrite app_nil_r.
      split_and!; [reflexivity|constructor| |reflexivity].
      intros calls <-. by right.
    + unfold zoom at 1. cbn [milvus].
      destruct (insert_chunks _ _ _ _ _ _) as [[e|ks] c'] eqn:Hins;
        destruct (insert_chunks_rows _ _ _ _ _ _ _ _ Hins)
          as (added & Hrows & Htag & Hok).
      * intros [= <- <-]. exists added. cbn.
        split_and!; [exact Hrows|exact Htag| |reflexivity].
        intros calls <-. by right.
      * unfold update_document, modify. intros [= <- <-]. exists added. cbn.
        split_and!; [exact Hrows|exact Htag| | |reflexivity|reflexivity].
        -- intros calls <-. by right.
        -- eapply Hok. reflexivity.
  - unfold raise. intros [= <- <-]. exists []. rewrite app_nil_r.
    split_and!; [reflexivity|constructor| |reflexivity].
    intros calls <-. by left.
Qed.

(** The row of the task's document after the task. *)
Lemma process_document_verdict doc_info (s : DataIngestionService.t V) :
  Models.documents (db (_process_document doc_info s).2)
    !! job_document_id doc_info
  = verdict doc_info
      (matching (milvus s) (job_tenant_id doc_info) (job_document_id doc_info))
    <$> Models.documents (db s) !! job_document_id doc_info.
Proof.
  rewrite process_document_eq, process_body_eq.
  unfold verdict, new_chunks, stored_hashes.
  destruct (select_new _ _) as [|c0 rest] eqn:Hnew.
  - cbn [snd]. rewrite marked_documents, decide_True by reflexivity. reflexivity.
  - unfold store_new. unfold bind at 1. unfold _compute_embeddings.
    destruct LLAMA_INDEX_AVAILABLE; cbn [negb].
    + cbv beta iota zeta delta [bind modify lift].
      destruct (get_text_embedding_batch _) as [e|embeddings].
      * cbn [snd]. rewrite marked_documents, decide_True by reflexivity.
        reflexivity.
      * unfold zoom at 1. cbn [milvus].
        match goal with
        | |- context [insert_chunks ?t ?d ?n ?v ?e (milvus s)] =>
            pose proof (insert_chunks_outcome t d n v e (milvus s)
                          (mkCollection [] 0)) as Hout;
            destruct (insert_chunks t d n v e (milvus s)) as [[x|ks] c']
        end; cbn [fst outcome] in Hout; rewrite <- Hout.
        -- cbn [snd]. rewrite marked_documents, decide_True by reflexivity.
           reflexivity.
        -- unfold update_document, modify. cbn [snd].
           fold (recorded
                   (chunk_count (stats_of (matching (milvus s)
                      (job_tenant_id doc_info) (job_document_id doc_info)))
                    + Z.of_nat (length (c0 :: rest)))
                   (latest_version (stats_of (matching (milvus s)
                      (job_tenant_id doc_info) (job_document_id doc_info))) + 1)
                   (job_document_id doc_info)
                   (set_milvus c'
                      (mk (milvus s) (db s)
                         (embedding_calls s ++ [c_text <$> c0 :: rest])))).
           rewrite recorded_documents, decide_True by reflexivity. reflexivity.
    + unfold raise. cbn [snd].
      rewrite marked_documents, decide_True by reflexivity. reflexivity.
Qed.

Lemma filter_none {A} (P : A → Prop) `{∀ x, Decision (P x)} (l : list A) :
  Forall (λ x, ¬ P x) l → filter P l = [].
Proof.
  induction 1 as [|x l Hx _ IH]; [reflexivity|].
  rewrite filter_cons, decide_False by exact Hx. exact IH.
Qed.

(** A task for another document leaves the rows of this one alone. *)
Lemma matching_frame doc_info (s : DataIngestionService.t V) tenant_id document_id :
  job_document_id doc_info ≠ document_id →
  matching (milvus (_process_document doc_info s).2) tenant_id document_id
  = matching (milvus s) tenant_id document_id.
Proof.
  intros Hne.
  destruct (_process_document doc_info s) as [res s'] eqn:Hrun. cbn [snd].
  rewrite process_document_eq, process_body_eq in Hrun.
  assert (Hrows : ∃ added, rows (milvus s') = rows (milvus s) ++ added
            ∧ Forall (tagged (job_tenant_id doc_info) (job_document_id doc_info))
                added).
  { destruct (new_chunks doc_info s) as [|c0 rest].
    - injection Hrun as <- <-. exists []. rewrite app_nil_r.
      split; [reflexivity|constructor].
    - destruct (store_new _ _ _ s) as [[e|[]] s1] eqn:Hstore;
        destruct (store_new_inv _ _ _ _ _ _ Hstore)
          as (added & Hrows & Htag & _);
        injection Hrun as <- <-; exists added; split; assumption. }
  destruct Hrows as (added & Hrows & Htag).
  rewrite (matching_app _ _ _ _ _ Hrows).
  rewrite (filter_none _ added), app_nil_r; [reflexivity|].
  eapply Forall_impl; [exact Htag|]. intros r [_ Hd] Hmatch.
  unfold of_document in Hmatch.
  apply andb_true_iff in Hmatch as [_ Hm]. apply Z.eqb_eq in Hm. congruence.
Qed.

(** *** The coroutine between its suspensions *)

Lemma after_load_eq doc_info (s : DataIngestionService.t V) :
  after_load doc_info s
  = match new_chunks doc_info s with
    | [] => (inr Returned, marked "ready" (job_document_id doc_info) s)
    | _ :: _ =>
        if LLAMA_INDEX_AVAILABLE then
          (inr (AwaitEmbeddings doc_info
                  (stats_of (matching (milvus s) (job_tenant_id doc_info)
                               (job_document_id doc_info)))
                  (new_chunks doc_info s)),
           logged (new_chunks doc_info s) s)
        else
          (inl (ImportError "llama-index packages are required for data ingestion"),
           s)
    end.
Proof.
  unfold after_load. unfold bind at 1. unfold zoom at 1.
  rewrite get_document_stats_eq.
  replace (set_milvus (milvus s) s) with s by (destruct s; reflexivity).
  unfold bind at 1. rewrite existing_hashes_eq.
  fold (job_chunks doc_info). fold (new_chunks doc_info s).
  destruct (new_chunks doc_info s); [reflexivity|].
  destruct LLAMA_INDEX_AVAILABLE; reflexivity.
Qed.

Lemma resume_load_eq doc_info (s : DataIngestionService.t V) :
  resume (AwaitLoad doc_info) s
  = match new_chunks doc_info s with
    | [] => (inr Returned, marked "ready" (job_document_id doc_info) s)
    | _ :: _ =>
        if LLAMA_INDEX_AVAILABLE then
          (inr (AwaitEmbeddings doc_info
                  (stats_of (matching (milvus s) (job_tenant_id doc_info)
                               (job_document_id doc_info)))
                  (new_chunks doc_info s)),
           logged (new_chunks doc_info s) s)
        else (inr Returned, marked "failed" (job_document_id doc_info) s)
    end.
Proof.
  cbn [resume]. unfold try_except. rewrite after_load_eq.
  destruct (new_chunks doc_info s); [reflexivity|].
  destruct LLAMA_INDEX_AVAILABLE; reflexivity.
Qed.

(** The second stretch of the coroutine: it returns, the rows it adds
    are tagged with its document, and its table row is settled. *)
Lemma resume_embeddings_inv doc_info existing_stats new
    (s s' : DataIngestionService.t V) res :
  resume (AwaitEmbeddings doc_info existing_stats new) s = (res, s') →
  res = inr Returned
  ∧ embedding_calls s' = embedding_calls s
  ∧ (∃ added, rows (milvus s') = rows (milvus s) ++ added
       ∧ Forall (tagged (job_tenant_id doc_info) (job_document_id doc_info))
           added)
  ∧ ∀ d,
      Models.documents (db s') !! d
      = if decide (d = job_document_id doc_info)
        then settle doc_info existing_stats new <$> Models.documents (db s) !! d
        else Models.documents (db s) !! d.
Proof.
  cbn [resume]. unfold try_except, after_embeddings, settle.
  unfold bind at 1. unfold lift.
  destruct (get_text_embedding_batch (c_text <$> new)) as [e|embeddings].
  - unfold on_exception, bind, update_document, modify, ret.
    intros [= <- <-].
    fold (marked "failed" (job_document_id doc_info) s).
    split_and!; [reflexivity|reflexivity| |].
    + exists []. rewrite app_nil_r. split; [reflexivity|constructor].
    + intros d. apply marked_documents.
  - unfold bind at 1. unfold zoom at 1.
    match goal with
    | |- context [insert_chunks ?t ?d ?n ?v ?e (milvus s)] =>
        pose proof (insert_chunks_outcome t d n v e (milvus s)
                      (mkCollection [] 0)) as Hout;
        destruct (insert_chunks t d n v e (milvus s)) as [[x|ks] c'] eqn:Hins
    end; cbn [fst outcome] in Hout; rewrite <- Hout;
      destruct (insert_chunks_rows _ _ _ _ _ _ _ _ Hins)
        as (added & Hrows & Htag & _).
    + unfold on_exception, bind, update_document, modify, ret.
      intros [= <- <-].
      fold (marked "failed" (job_document_id doc_info) (set_milvus c' s)).
      split_and!; [reflexivity|reflexivity| |].
      * exists added. split; assumption.
      * intros d. rewrite marked_documents. reflexivity.
    + unfold bind, update_document, modify, ret.
      intros [= <- <-].
      fold (recorded (chunk_count existing_stats + Z.of_nat (length new))
              (latest_version existing_stats + 1) (job_document_id doc_info)
              (set_milvus c' s)).
      split_and!; [reflexivity|reflexivity| |].
      * exists added. split; assumption.
      * intros d. rewrite recorded_documents. reflexivity.
Qed.

(** Run without interruption, the two stretches are
    [_process_document]. *)
Lemma resume_twice doc_info (s : DataIngestionService.t V) :
  (let* co := resume (AwaitLoad doc_info) in resume co) s
  = (inr Returned, (_process_document doc_info s).2).
Proof.
  unfold bind at 1. rewrite resume_load_eq.
  rewrite process_document_eq, process_body_eq.
  destruct (new_chunks doc_info s) as [|c0 rest]; [reflexivity|].
  unfold store_new. unfold bind at 2. unfold _compute_embeddings.
  destruct LLAMA_INDEX_AVAILABLE; cbn [negb]; [|reflexivity].
  cbn [resume]. unfold try_except, after_embeddings.
  cbv beta iota zeta delta [bind modify lift logged].
  destruct (get_text_embedding_batch (c_text <$> c0 :: rest))
    as [e|embeddings]; [reflexivity|].
  unfold zoom. cbn [milvus].
  destruct (insert_chunks _ _ _ _ _ _) as [[x|ks] c']; reflexivity.
Qed.

Lemma verdict_settle doc_info (stored : list (Row V)) :
  verdict doc_info stored
  = match select_new (job_chunks doc_info)
            (list_to_set ((λ r, content_hash (fields r)) <$> stored)) with
    | [] => with_status "ready"
    | new =>
        if LLAMA_INDEX_AVAILABLE
        then settle doc_info (stats_of stored) new
        else with_status "failed"
    end.
Proof.
  unfold verdict, settle.
  destruct (select_new _ _); [reflexivity|].
  destruct LLAMA_INDEX_AVAILABLE; reflexivity.
Qed.

(** A document ends 'ready' or 'failed'. *)
Lemma verdict_status doc_info (stored : list (Row V)) doc :
  Models.d_status (verdict doc_info stored doc) = "ready"%string
  ∨ Models.d_status (verdict doc_info stored doc) = "failed"%string.
Proof.
  unfold verdict. destruct (select_new _ _); [by left|].
  destruct LLAMA_INDEX_AVAILABLE; [|by right].
  destruct (get_text_embedding_batch _); [by right|].
  destruct (outcome _); [by right|by left].
Qed.

(** One stretch of a coroutine: it ends normally, the coroutine keeps
    its job, has fewer suspensions before it, and leaves the rows and
    the table rows of other documents alone. *)
Lemma resume_frame co (s s' : DataIngestionService.t V) res :
  resume co s = (res, s') →
  ∃ co', res = inr co'
    ∧ (owner co' = None ∨ owner co' = owner co)
    ∧ (rank co' ≤ rank co - 1)%nat
    ∧ ∀ tenant_id document_id,
        (∀ doc_info, owner co = Some doc_info →
           job_document_id doc_info ≠ document_id) →
        matching (milvus s') tenant_id document_id
        = matching (milvus s) tenant_id document_id
        ∧ Models.documents (db s') !! document_id
          = Models.documents (db s) !! document_id.
Proof.
  destruct co as [doc_info|doc_info existing_stats new|].
  - rewrite resume_load_eq.
    destruct (new_chunks doc_info s) as [|c0 rest].
    + intros [= <- <-]. exists Returned.
      split_and!; [reflexivity|by left|cbn; lia|].
      intros tenant_id document_id Hne. split; [reflexivity|].
      rewrite marked_documents, decide_False; [reflexivity|].
      intros ->. by eapply Hne.
    + destruct LLAMA_INDEX_AVAILABLE; intros [= <- <-].
      * eexists. split_and!; [reflexivity|by right|cbn; lia|].
        intros tenant_id document_id Hne. split; reflexivity.
      * exists Returned. split_and!; [reflexivity|by left|cbn; lia|].
        intros tenant_id document_id Hne. split; [reflexivity|].
        rewrite marked_documents, decide_False; [reflexivity|].
        intros ->. by eapply Hne.
  - intros Hrun.
    destruct (resume_embeddings_inv _ _ _ _ _ _ Hrun)
      as (-> & _ & (added & Hrows & Htag) & Hdocs).
    exists Returned. split_and!; [reflexivity|by left|cbn; lia|].
    intros tenant_id document_id Hne.
    assert (Hd : job_document_id doc_info ≠ document_id)
      by (by apply Hne).
    split.
    + rewrite (matching_app _ _ _ _ _ Hrows).
      rewrite (filter_none _ added), app_nil_r; [reflexivity|].
      eapply Forall_impl; [exact Htag|]. intros r [_ Hr] Hmatch.
      unfold of_document in Hmatch.
      apply andb_true_iff in Hmatch as [_ Hm]. apply Z.eqb_eq in Hm.
      congruence.
    + rewrite Hdocs, decide_False by congruence. reflexivity.
  - intros [= <- <-]. exists Returned.
    split_and!; [reflexivity|by left|cbn; lia|].
    intros tenant_id document_id _. split; reflexivity.
Qed.

(** A stretch of the coroutine of [doc_info] itself keeps it on
    track. *)
Lemma resume_on_track doc_info stored row co
    (s s' : DataIngestionService.t V) co' :
  (∀ other, owner co = Some other → other = doc_info) →
  on_track doc_info stored row co s →
  resume co s = (inr co', s') →
  on_track doc_info stored row co' s'.
Proof.
  intros Hown Htrack Hrun.
  destruct co as [other|other existing_stats new|].
  - rewrite (Hown other eq_refl) in Hrun.
    destruct Htrack as [Hstored Hrow].
    rewrite resume_load_eq in Hrun. unfold new_chunks, stored_hashes in Hrun.
    rewrite Hstored in Hrun. cbn [on_track].
    destruct (select_new _ _) as [|c0 rest] eqn:Hnew.
    + injection Hrun as <- <-. cbn [on_track].
      rewrite marked_documents, decide_True, Hrow by reflexivity.
      rewrite verdict_settle, Hnew. reflexivity.
    + destruct LLAMA_INDEX_AVAILABLE eqn:Hllama; injection Hrun as <- <-.
      * cbn [on_track]. split_and!; try done.
      * cbn [on_track].
        rewrite marked_documents, decide_True, Hrow by reflexivity.
        rewrite verdict_settle, Hnew, Hllama. reflexivity.
  - rewrite (Hown other eq_refl) in Hrun.
    destruct Htrack as (-> & -> & Hnew & Hllama & Hrow).
    destruct (resume_embeddings_inv _ _ _ _ _ _ Hrun)
      as (Hres & _ & _ & Hdocs).
    injection Hres as ->. cbn [on_track].
    rewrite Hdocs, decide_True, Hrow by reflexivity.
    rewrite verdict_settle, Hllama.
    destruct (select_new _ _); [done|reflexivity].
  - injection Hrun as <- <-. exact Htrack.
Qed.

(** Whether a coroutine is on track depends on the state only through
    the rows and the table row of its document. *)
Lemma on_track_frame doc_info stored row co (s s' : DataIngestionService.t V) :
  matching (milvus s') (job_tenant_id doc_info) (job_document_id doc_info)
  = matching (milvus s) (job_tenant_id doc_info) (job_document_id doc_info) →
  Models.documents (db s') !! job_document_id doc_info
  = Models.documents (db s) !! job_document_id doc_info →
  on_track doc_info stored row co s →
  on_track doc_info stored row co s'.
Proof.
  intros Hm Hd. destruct co; cbn [on_track]; rewrite ?Hm, ?Hd; done.
Qed.

End Facts.

End IngestionFacts.

(** ** Claims about the ingestion of documents *)

Module IngestionClaims.
Import MilvusDB MilvusService DataIngestionService ExprFacts InsertFacts IngestionFacts ExprSpec InsertSpec IngestionSpec BatchSpec.

Section Claims.

Context {V : Type} `{Digest} `{LlamaIndex V} `{Web}.

(** The vocabulary, at the vector type of this section. *)
Local Abbreviation scalars := (InsertSpec.scalars (V := V)).
Local Abbreviation prepared := (InsertSpec.prepared (V := V)).
Local Abbreviation row_of := (InsertSpec.row_of (V := V)).
Local Abbreviation tagged := (InsertSpec.tagged (V := V)).
Local Abbreviation matching := (IngestionSpec.matching (V := V)).
Local Abbreviation stats_of := (IngestionSpec.stats_of (V := V)).
Local Abbreviation stored_hashes := (IngestionSpec.stored_hashes (V := V)).
Local Abbreviation job_chunks := (IngestionSpec.job_chunks (V := V)).
Local Abbreviation new_chunks := (IngestionSpec.new_chunks (V := V)).
Local Abbreviation marked := (IngestionSpec.marked (V := V)).
Local Abbreviation recorded := (IngestionSpec.recorded (V := V)).
Local Abbreviation store_new := (IngestionSpec.store_new (V := V)).
Local Abbreviation verdict := (IngestionSpec.verdict (V := V)).
Local Abbreviation logged := (IngestionSpec.logged (V := V)).
Local Abbreviation settle := (IngestionSpec.settle (V := V)).
Local Abbreviation on_track := (IngestionSpec.on_track (V := V)).
Local Abbreviation run_all := (BatchSpec.run_all (V := V)).
Local Abbreviation reader_of := (BatchSpec.reader_of (V := V)).

(** After a pass that left the document 'ready', every chunk of the job
    has its hash stored. *)
Lemma ready_means_stored doc_info (s s1 : DataIngestionService.t V) :
  _process_document doc_info s = (inr tt, s1) →
  Models.d_status <$> Models.documents (db s1) !! job_document_id doc_info
  = Some "ready"%string →
  ∀ chunk, chunk ∈ job_chunks doc_info →
    compute_content_hash (c_text chunk)
    ∈ stored_hashes (milvus s1) (job_tenant_id doc_info) (job_document_id doc_info).
Proof.
  intros Hrun Hst chunk Hchunk.
  rewrite process_document_eq, process_body_eq in Hrun.
  pose proof (select_new_elem_of (job_chunks doc_info)
                (stored_hashes (milvus s) (job_tenant_id doc_info)
                   (job_document_id doc_info)) chunk Hchunk) as Hcase.
  fold (new_chunks doc_info s) in Hcase.
  destruct (new_chunks doc_info s) as [|c0 rest] eqn:Hnew.
  - injection Hrun as <-. destruct Hcase as [Hs|Hs]; [exact Hs|inversion Hs].
  - destruct (store_new _ _ _ s) as [[e|[]] s'] eqn:Hstore.
    + injection Hrun as <-. rewrite marked_documents in Hst.
      rewrite decide_True in Hst by reflexivity.
      destruct (Models.documents (db s') !! job_document_id doc_info);
        discriminate Hst.
    + injection Hrun as <-.
      destruct (store_new_inv _ _ _ _ _ _ Hstore)
        as (added & Hrows & Htag & _ & Hprep & _).
      destruct Hcase as [Hs|Hs].
      * eapply stored_hashes_mono; eassumption.
      * destruct (Forall2_elem_of_l _ _ _ _ Hprep Hs) as (r & Hr & Hp).
        destruct Hp as (_ & _ & _ & Hhash & _). rewrite <- Hhash.
        eapply stored_hashes_added; [exact Hrows|exact Hr|].
        eapply Forall_forall in Htag; eassumption.
Qed.

(** C2: when every chunk of the job has its hash among those stored for
    the tenant and document, [_process_document] writes the status
    'ready' and nothing else: the collection and the list of embedding
    calls are as before, and the document keeps its version and its
    chunk count.  Hence a second pass over a document that the first
    pass left 'ready' changes nothing at all: same collection, same
    tables, no further embedding call. *)
Theorem unchanged_document_is_noop (doc_info : Job)
    (s : DataIngestionService.t V) :
  ((∀ chunk, chunk ∈ job_chunks doc_info →
      compute_content_hash (c_text chunk)
      ∈ stored_hashes (milvus s) (job_tenant_id doc_info)
          (job_document_id doc_info)) →
   ∃ s', _process_document doc_info s = (inr tt, s')
     ∧ milvus s' = milvus s
     ∧ embedding_calls s' = embedding_calls s
     ∧ (∀ d, d ≠ job_document_id doc_info →
          Models.documents (db s') !! d = Models.documents (db s) !! d)
     ∧ ∀ doc, Models.documents (db s) !! job_document_id doc_info = Some doc →
         ∃ doc', Models.documents (db s') !! job_document_id doc_info = Some doc'
           ∧ Models.d_status doc' = "ready"%string
           ∧ Models.d_version doc' = Models.d_version doc
           ∧ Models.d_chunk_count doc' = Models.d_chunk_count doc)
  ∧ ∀ s1,
      _process_document doc_info s = (inr tt, s1) →
      Models.d_status <$> Models.documents (db s1) !! job_document_id doc_info
      = Some "ready"%string →
      _process_document doc_info s1 = (inr tt, s1).
Proof.
  assert (Hnoop : ∀ s0 : DataIngestionService.t V,
    (∀ chunk, chunk ∈ job_chunks doc_info →
       compute_content_hash (c_text chunk)
       ∈ stored_hashes (milvus s0) (job_tenant_id doc_info)
           (job_document_id doc_info)) →
    _process_document doc_info s0
    = (inr tt, marked "ready" (job_document_id doc_info) s0)).
  { intros s0 Hall. rewrite process_document_eq, process_body_eq.
    unfold new_chunks. rewrite (select_new_nil _ _ Hall). reflexivity. }
  split.
  - intros Hall. eexists. split; [apply Hnoop, Hall|].
    split_and!; try reflexivity.
    + intros d Hd. rewrite marked_documents, decide_False by exact Hd.
      reflexivity.
    + intros doc Hdoc. rewrite marked_documents, decide_True by reflexivity.
      rewrite Hdoc. eexists. split; [reflexivity|]. split_and!; reflexivity.
  - intros s1 Hrun Hst.
    rewrite (Hnoop s1 (ready_means_stored _ _ _ Hrun Hst)).
    rewrite (marked_ready_again _ _ Hst). reflexivity.
Qed.

(** One task touches only its own document: the rows it appends carry
    its tenant and document, every other document row is as before, and
    its own row, when there is one, ends 'ready' or 'failed'. *)
Lemma process_document_frame doc_info (s s' : DataIngestionService.t V) res :
  _process_document doc_info s = (res, s') →
  res = inr tt
  ∧ (∃ added, rows (milvus s') = rows (milvus s) ++ added
       ∧ Forall (tagged (job_tenant_id doc_info) (job_document_id doc_info)) added)
  ∧ (∀ d, d ≠ job_document_id doc_info →
       Models.documents (db s') !! d = Models.documents (db s) !! d)
  ∧ ∃ f, Models.documents (db s') !! job_document_id doc_info
         = f <$> Models.documents (db s) !! job_document_id doc_info
       ∧ ∀ doc, Models.d_status (f doc) = "ready"%string
                ∨ Models.d_status (f doc) = "failed"%string.
Proof.
  rewrite process_document_eq, process_body_eq.
  destruct (new_chunks doc_info s) as [|c0 rest] eqn:Hnew.
  - intros [= <- <-]. split_and!; [reflexivity| | |].
    + exists []. rewrite app_nil_r. split; [reflexivity|constructor].
    + intros d Hd. rewrite marked_documents, decide_False by exact Hd.
      reflexivity.
    + exists (with_status "ready"). split; [|intros doc; by left].
      rewrite marked_documents, decide_True by reflexivity. reflexivity.
  - destruct (store_new _ _ _ s) as [[e|[]] s1] eqn:Hstore;
      destruct (store_new_inv _ _ _ _ _ _ Hstore)
        as (added & Hrows & Htag & _ & Hres);
      intros [= <- <-]; (split_and!; [reflexivity| | |]).
    + exists added. split; assumption.
    + intros d Hd. rewrite marked_documents, decide_False by exact Hd.
      rewrite Hres. reflexivity.
    + exists (with_status "failed"). split; [|intros doc; by right].
      rewrite marked_documents, decide_True by reflexivity.
      rewrite Hres. reflexivity.
    + exists added. split; assumption.
    + destruct Hres as (_ & Hdb & _). intros d Hd.
      rewrite Hdb, recorded_documents, decide_False by exact Hd. reflexivity.
    + destruct Hres as (_ & Hdb & _).
      eexists (with_result _ _). split; [|intros doc; by left].
      rewrite Hdb, recorded_documents, decide_True by reflexivity. reflexivity.
Qed.

Lemma gather_cons {S A} (task : M S A) (rest : list (M S A)) (s : S) :
  gather_return_exceptions (task :: rest) s
  = match task s with
    | (r, s') =>
        match gather_return_exceptions rest s' with
        | (inr rs, s'') => (inr (r :: rs), s'')
        | (inl e, s'') => (inl e, s'')
        end
    end.
Proof. reflexivity. Qed.

(** The batch as a whole: no exception reaches the fan-in, every task's
    own result is a normal return, documents outside the batch keep
    their row, and a document of the batch that has a row ends 'ready'
    or 'failed'. *)
Lemma process_batch_outcomes (batch : list Job) : ∀ s : DataIngestionService.t V,
  ∃ s',
    gather_return_exceptions (_process_document <$> batch) s
    = (inr (replicate (length batch) (inr tt)), s')
    ∧ (∀ d, d ∉ job_document_id <$> batch →
         Models.documents (db s') !! d = Models.documents (db s) !! d)
    ∧ (∀ d, is_Some (Models.documents (db s) !! d) →
            is_Some (Models.documents (db s') !! d))
    ∧ ∀ doc_info,
        doc_info ∈ batch →
        is_Some (Models.documents (db s) !! job_document_id doc_info) →
        ∃ doc', Models.documents (db s') !! job_document_id doc_info = Some doc'
          ∧ (Models.d_status doc' = "ready"%string
             ∨ Models.d_status doc' = "failed"%string).
Proof.
  induction batch as [|job rest IH]; intros s.
  - exists s. split_and!; [reflexivity|reflexivity|tauto|].
    intros doc_info Hin. inversion Hin.
  - cbn [fmap list_fmap]. rewrite gather_cons.
    destruct (_process_document job s) as [r s1] eqn:Hjob.
    destruct (process_document_frame _ _ _ _ Hjob)
      as (-> & _ & Hother & f & Hown & Hf).
    destruct (IH s1) as (s' & Hrun & Hout & Hsome & Hin).
    change (list_fmap _ _ _process_document rest)
      with (_process_document <$> rest).
    rewrite Hrun. exists s'.
    assert (Hsome1 : ∀ d, is_Some (Models.documents (db s) !! d) →
                          is_Some (Models.documents (db s1) !! d)).
    { intros d. destruct (decide (d = job_document_id job)) as [->|Hd].
      - rewrite Hown. intros [doc ->]. eauto.
      - rewrite Hother by exact Hd. tauto. }
    split_and!.
    + reflexivity.
    + intros d Hd. apply not_elem_of_cons in Hd as [Hd1 Hd2].
      rewrite (Hout d Hd2). apply Hother, Hd1.
    + intros d Hd. apply Hsome, Hsome1, Hd.
    + intros doc_info Hmem Hdoc. apply elem_of_cons in Hmem as [->|Hmem].
      * destruct (decide (job_document_id job ∈ job_document_id <$> rest))
          as [Hagain|Hlast].
        -- apply list_elem_of_fmap in Hagain as (later & Heq & Hlater).
           rewrite Heq. apply Hin; [exact Hlater|].
           rewrite <- Heq. apply Hsome1, Hdoc.
        -- rewrite (Hout _ Hlast), Hown.
           destruct Hdoc as [doc ->]. eexists. split; [reflexivity|apply Hf].
      * apply Hin; [exact Hmem|]. apply Hsome1, Hdoc.
Qed.

Lemma run_all_cons doc_info batch (s : DataIngestionService.t V) :
  run_all (doc_info :: batch) s = run_all batch (_process_document doc_info s).2.
Proof.
  unfold run_all. cbn [fmap list_fmap]. rewrite gather_cons.
  destruct (_process_document doc_info s) as [r s1]. cbn [snd].
  change (list_fmap _ _ _process_document batch)
    with (_process_document <$> batch).
  destruct (gather_return_exceptions (_process_document <$> batch) s1)
    as [[e|rs] s2]; reflexivity.
Qed.

Lemma run_all_app before after (s : DataIngestionService.t V) :
  run_all (before ++ after) s = run_all after (run_all before s).
Proof.
  revert s. induction before as [|doc_info before IH]; intros s.
  - reflexivity.
  - cbn [app]. rewrite !run_all_cons. apply IH.
Qed.

(** Tasks for other documents leave the rows and the table row of this
    one alone. *)
Lemma run_all_frame batch tenant_id document_id :
  ∀ s : DataIngestionService.t V,
  (∀ other, other ∈ batch → job_document_id other ≠ document_id) →
  matching (milvus (run_all batch s)) tenant_id document_id
  = matching (milvus s) tenant_id document_id
  ∧ Models.documents (db (run_all batch s)) !! document_id
    = Models.documents (db s) !! document_id.
Proof.
  induction batch as [|doc_info batch IH]; intros s Hother.
  - split; reflexivity.
  - rewrite run_all_cons.
    assert (Hne : job_document_id doc_info ≠ document_id)
      by (apply Hother; by left).
    destruct (IH (_process_document doc_info s).2) as [Hm Hd].
    { intros other Hin. apply Hother. by right. }
    rewrite Hm, Hd. split.
    + apply matching_frame, Hne.
    + destruct (_process_document doc_info s) as [res s1] eqn:Hrun.
      destruct (process_document_frame _ _ _ _ Hrun) as (_ & _ & Hframe & _).
      cbn [snd]. apply Hframe. congruence.
Qed.

(** *** Any order of resumption *)

Lemma spawn_owned_by batch : owned_by batch (spawn batch).
Proof.
  unfold spawn. split; [apply length_fmap|].
  intros i co doc_info Hi Hco. rewrite list_lookup_fmap in Hi.
  destruct (batch !! i) as [j|]; [|discriminate Hi].
  injection Hi as <-. exact Hco.
Qed.

Lemma lookup_outside_middle {A} (before after : list A) x j y :
  (before ++ x :: after) !! j = Some y → j ≠ length before →
  y ∈ before ++ after.
Proof.
  intros Hj Hne. apply elem_of_app.
  destruct (decide (j < length before)%nat) as [Hlt|Hge].
  - left. rewrite lookup_app_l in Hj by exact Hlt.
    eapply list_elem_of_lookup_2, Hj.
  - right. rewrite lookup_app_r in Hj by lia.
    destruct (j - length before)%nat as [|m] eqn:Hm; [lia|].
    eapply list_elem_of_lookup_2, Hj.
Qed.

(** One turn of the event loop. *)
Lemma turn_inv batch k tasks (s : DataIngestionService.t V) :
  owned_by batch tasks →
  ∃ tasks' s',
    turn k tasks s = (inr tasks', s')
    ∧ owned_by batch tasks'
    ∧ (∀ i co, tasks !! i = Some co →
         ∃ co', tasks' !! i = Some co'
           ∧ (rank co' ≤ rank co - (if decide (k = i) then 1 else 0))%nat)
    ∧ ∀ i doc_info stored row co,
        batch !! i = Some doc_info →
        (∀ j other, batch !! j = Some other → j ≠ i →
           job_document_id other ≠ job_document_id doc_info) →
        tasks !! i = Some co →
        on_track doc_info stored row co s →
        ∃ co', tasks' !! i = Some co' ∧ on_track doc_info stored row co' s'.
Proof.
  intros [Hlen Hown]. unfold turn.
  destruct (tasks !! k) as [co|] eqn:Hk.
  - unfold bind. destruct (resume co s) as [res s'] eqn:Hrun.
    destruct (resume_frame _ _ _ _ Hrun)
      as (co' & -> & Hkeep & Hrank & Hframe).
    exists (<[k := co']> tasks), s'.
    assert (Hlt : (k < length tasks)%nat) by (eapply lookup_lt_Some; eauto).
    split_and!.
    + reflexivity.
    + split; [rewrite length_insert; exact Hlen|].
      intros i c j Hi Hc. destruct (decide (k = i)) as [<-|Hne].
      * rewrite list_lookup_insert_eq in Hi by exact Hlt. injection Hi as <-.
        destruct Hkeep as [Hnone|Hsame]; [congruence|].
        rewrite Hsame in Hc. eapply Hown; eauto.
      * rewrite list_lookup_insert_ne in Hi by exact Hne. eapply Hown; eauto.
    + intros i c Hi. destruct (decide (k = i)) as [<-|Hne].
      * rewrite list_lookup_insert_eq by exact Hlt.
        exists co'. split; [reflexivity|].
        assert (c = co) by congruence. subst c. exact Hrank.
      * rewrite list_lookup_insert_ne by exact Hne.
        exists c. split; [exact Hi|lia].
    + intros i doc_info stored row c Hb Hdist Hi Htrack.
      destruct (decide (k = i)) as [<-|Hne].
      * rewrite list_lookup_insert_eq by exact Hlt.
        exists co'. split; [reflexivity|].
        assert (c = co) by congruence. subst c.
        eapply resume_on_track; [|exact Htrack|exact Hrun].
        intros other Ho. pose proof (Hown _ _ _ Hk Ho). congruence.
      * rewrite list_lookup_insert_ne by exact Hne.
        exists c. split; [exact Hi|].
        destruct (Hframe (job_tenant_id doc_info) (job_document_id doc_info))
          as [Hm Hd].
        { intros other Ho. exact (Hdist k other (Hown _ _ _ Hk Ho) Hne). }
        eapply on_track_frame; eauto.
  - exists tasks, s. split_and!; [reflexivity|split; assumption| |].
    + intros i c Hi. exists c. split; [exact Hi|].
      destruct (decide (k = i)); [congruence|lia].
    + intros i doc_info stored row c _ _ Hi Htrack. eauto.
Qed.

(** The event loop, for any schedule: no exception reaches it, every
    coroutine has so many suspensions less before it as it was
    resumed, and every coroutine whose document no other job of the
    batch names stays on track. *)
Lemma event_loop_inv batch schedule :
  ∀ tasks (s : DataIngestionService.t V),
  owned_by batch tasks →
  ∃ tasks' s',
    event_loop schedule tasks s = (inr tasks', s')
    ∧ owned_by batch tasks'
    ∧ (∀ i co, tasks !! i = Some co →
         ∃ co', tasks' !! i = Some co'
           ∧ (rank co' ≤ rank co - resumptions i schedule)%nat)
    ∧ ∀ i doc_info stored row co,
        batch !! i = Some doc_info →
        (∀ j other, batch !! j = Some other → j ≠ i →
           job_document_id other ≠ job_document_id doc_info) →
        tasks !! i = Some co →
        on_track doc_info stored row co s →
        ∃ co', tasks' !! i = Some co' ∧ on_track doc_info stored row co' s'.
Proof.
  induction schedule as [|k rest IH]; intros tasks s Hown.
  - exists tasks, s. split_and!; [reflexivity|exact Hown| |].
    + intros i co Hi. exists co. split; [exact Hi|].
      unfold resumptions. rewrite filter_nil. cbn [length]. lia.
    + intros i doc_info stored row co _ _ Hi Htrack. eauto.
  - cbn [event_loop]. unfold bind.
    destruct (turn_inv batch k tasks s Hown)
      as (t1 & s1 & Hturn & Hown1 & Hrank1 & Htrack1).
    rewrite Hturn.
    destruct (IH t1 s1 Hown1) as (t2 & s2 & Hloop & Hown2 & Hrank2 & Htrack2).
    exists t2, s2. split_and!; [exact Hloop|exact Hown2| |].
    + intros i co Hi. destruct (Hrank1 i co Hi) as (c1 & Hc1 & Hr1).
      destruct (Hrank2 i c1 Hc1) as (c2 & Hc2 & Hr2).
      exists c2. split; [exact Hc2|].
      unfold resumptions in *. rewrite filter_cons.
      destruct (decide (k = i)); cbn [length]; lia.
    + intros i doc_info stored row co Hb Hdist Hi Htrack.
      destruct (Htrack1 i doc_info stored row co Hb Hdist Hi Htrack)
        as (c1 & Hc1 & Ht1).
      eapply Htrack2; eauto.
Qed.

(** A batch under any schedule. *)
Lemma event_loop_outcomes batch schedule (s : DataIngestionService.t V) :
  ∃ tasks s',
    event_loop schedule (spawn batch) s = (inr tasks, s')
    ∧ length tasks = length batch
    ∧ (∀ i, (i < length batch)%nat → (2 ≤ resumptions i schedule)%nat →
         tasks !! i = Some Returned)
    ∧ ∀ before doc_info after,
        batch = before ++ doc_info :: after →
        (∀ other, other ∈ before ++ after →
           job_document_id other ≠ job_document_id doc_info) →
        tasks !! length before = Some Returned →
        Models.documents (db s') !! job_document_id doc_info
        = Models.documents (db (_process_document doc_info s).2)
            !! job_document_id doc_info.
Proof.
  destruct (event_loop_inv batch schedule (spawn batch) s (spawn_owned_by batch))
    as (tasks & s' & Hloop & [Hlen _] & Hrank & Htrack).
  exists tasks, s'. split_and!; [exact Hloop|exact Hlen| |].
  - intros i Hi Hres.
    destruct (lookup_lt_is_Some_2 batch i Hi) as [doc_info Hb].
    destruct (Hrank i (AwaitLoad doc_info)) as (co' & Hco' & Hr).
    { unfold spawn. rewrite list_lookup_fmap, Hb. reflexivity. }
    rewrite Hco'. destruct co'; cbn [rank] in Hr; [lia|lia|reflexivity].
  - intros before doc_info after -> Hother Hdone.
    destruct (Htrack (length before) doc_info
                (matching (milvus s) (job_tenant_id doc_info)
                   (job_document_id doc_info))
                (Models.documents (db s) !! job_document_id doc_info)
                (AwaitLoad doc_info)) as (co' & Hco' & Hon).
    + apply list_lookup_middle. reflexivity.
    + intros j other Hj Hne. apply Hother.
      eapply lookup_outside_middle; eauto.
    + unfold spawn. rewrite list_lookup_fmap, list_lookup_middle by reflexivity.
      reflexivity.
    + split; reflexivity.
    + rewrite Hdone in Hco'. injection Hco' as <-. cbn [on_track] in Hon.
      rewrite Hon, process_document_verdict. reflexivity.
Qed.

(** An exception of a reader stays inside the loader: the loader
    returns no document. *)
Lemma raising_reader_loads_nothing file_type file_path source_url reader e :
  reader_of file_type = Some reader →
  reader file_path = inl e →
  _load_document file_type file_path source_url = [].
Proof.
  unfold reader_of, _load_document, _load_pdf, _load_csv, _load_txt, _load_pptx.
  intros Hreader He.
  repeat (destruct (String.eqb file_type _);
          [injection Hreader as <-; rewrite He;
           destruct LLAMA_INDEX_AVAILABLE; reflexivity|]).
  discriminate.
Qed.

(** A job for which nothing is loaded has no new chunk: the pass writes
    'ready' and nothing else. *)
Lemma nothing_loaded_ready doc_info (s : DataIngestionService.t V) :
  _load_document (job_file_type doc_info) (job_file_path doc_info)
    (job_source_url doc_info) = [] →
  _process_document doc_info s
  = (inr tt, marked "ready" (job_document_id doc_info) s).
Proof.
  intros Hload.
  assert (Hnew : new_chunks doc_info s = []).
  { unfold new_chunks, job_chunks. rewrite Hload. reflexivity. }
  rewrite process_document_eq, process_body_eq, Hnew. reflexivity.
Qed.

(** C8, as the code has it: the fan-in of a batch returns normally
    whatever the tasks do: every task's entry in the result list is a
    normal return.  A task whose body raises has written 'failed' for
    its document.  An exception of a file reader does not make the body
    raise: the loader swallows it, nothing is loaded, and the task
    writes 'ready' with nothing embedded and nothing stored.  A document
    of the batch that has a table row ends 'ready' or 'failed'.  And the
    row a document ends with is the row the task alone, run from the
    state the batch started in, would have left: tasks for other
    documents, failing or not, do not change it.  The same holds when
    the coroutines are interleaved at their suspensions: in whatever
    order the event loop resumes them, no exception reaches it, a
    coroutine resumed twice has returned, and a coroutine that has
    returned left its document the row it would have left alone. *)
Theorem batch_isolation (batch : list Job) (s : DataIngestionService.t V) :
  (∃ s',
    _process_batch batch s = (inr tt, s')
    ∧ gather_return_exceptions (_process_document <$> batch) s
      = (inr (replicate (length batch) (inr tt)), s')
    ∧ (∀ doc_info e s0 sx,
         process_body doc_info s0 = (inl e, sx) →
         ∃ s1, _process_document doc_info s0 = (inr tt, s1)
           ∧ Models.documents (db s1) !! job_document_id doc_info
             = with_status "failed"
               <$> Models.documents (db sx) !! job_document_id doc_info)
    ∧ (∀ doc_info reader e s0,
         reader_of (job_file_type doc_info) = Some reader →
         reader (job_file_path doc_info) = inl e →
         ∃ s1, _process_document doc_info s0 = (inr tt, s1)
           ∧ milvus s1 = milvus s0
           ∧ embedding_calls s1 = embedding_calls s0
           ∧ Models.documents (db s1) !! job_document_id doc_info
             = with_status "ready"
               <$> Models.documents (db s0) !! job_document_id doc_info)
    ∧ (∀ doc_info,
         doc_info ∈ batch →
         is_Some (Models.documents (db s) !! job_document_id doc_info) →
         ∃ doc', Models.documents (db s') !! job_document_id doc_info = Some doc'
           ∧ (Models.d_status doc' = "ready"%string
              ∨ Models.d_status doc' = "failed"%string))
    ∧ ∀ before doc_info after,
        batch = before ++ doc_info :: after →
        (∀ other, other ∈ before ++ after →
           job_document_id other ≠ job_document_id doc_info) →
        Models.documents (db s') !! job_document_id doc_info
        = Models.documents (db (_process_document doc_info s).2)
            !! job_document_id doc_info)
  ∧ ∀ schedule,
      ∃ tasks s',
        event_loop schedule (spawn batch) s = (inr tasks, s')
        ∧ length tasks = length batch
        ∧ (∀ i, (i < length batch)%nat → (2 ≤ resumptions i schedule)%nat →
             tasks !! i = Some Returned)
        ∧ ∀ before doc_info after,
            batch = before ++ doc_info :: after →
            (∀ other, other ∈ before ++ after →
               job_document_id other ≠ job_document_id doc_info) →
            tasks !! length before = Some Returned →
            Models.documents (db s') !! job_document_id doc_info
            = Models.documents (db (_process_document doc_info s).2)
                !! job_document_id doc_info
            ∧ ∀ doc,
                Models.documents (db s) !! job_document_id doc_info = Some doc →
                ∃ doc',
                  Models.documents (db s') !! job_document_id doc_info
                  = Some doc'
                  ∧ (Models.d_status doc' = "ready"%string
                     ∨ Models.d_status doc' = "failed"%string).
Proof.
  split.
  - destruct (process_batch_outcomes batch s) as (s' & Hrun & _ & _ & Hstatus).
    exists s'. split_and!.
    + unfold _process_batch, bind, ret. rewrite Hrun. reflexivity.
    + exact Hrun.
    + intros doc_info e s0 sx Hbody. eexists. split.
      * rewrite process_document_eq, Hbody. reflexivity.
      * rewrite marked_documents, decide_True by reflexivity. reflexivity.
    + intros doc_info reader e s0 Hreader He. eexists. split.
      * apply nothing_loaded_ready.
        apply (raising_reader_loads_nothing _ _ _ reader e Hreader He).
      * split_and!; [reflexivity|reflexivity|].
        rewrite marked_documents, decide_True by reflexivity. reflexivity.
    + exact Hstatus.
    + intros before doc_info after -> Hother.
      assert (Hs' : s' = run_all (before ++ doc_info :: after) s)
        by (unfold run_all; rewrite Hrun; reflexivity).
      rewrite Hs', run_all_app, run_all_cons.
      destruct (run_all_frame after (job_tenant_id doc_info)
                  (job_document_id doc_info)
                  (_process_document doc_info (run_all before s)).2)
        as [_ Hafter].
      { intros other Hin. apply Hother, elem_of_app. by right. }
      destruct (run_all_frame before (job_tenant_id doc_info)
                  (job_document_id doc_info) s) as [Hm Hd].
      { intros other Hin. apply Hother, elem_of_app. by left. }
      rewrite Hafter, !process_document_verdict, Hm, Hd. reflexivity.
  - intros schedule.
    destruct (event_loop_outcomes batch schedule s)
      as (tasks & s' & Hloop & Hlen & Hdone & Hrow).
    exists tasks, s'. split_and!; [exact Hloop|exact Hlen|exact Hdone|].
    intros before doc_info after Hb Hother Hret.
    pose proof (Hrow before doc_info after Hb Hother Hret) as Heq.
    split; [exact Heq|].
    intros doc Hdoc. rewrite Heq, process_document_verdict, Hdoc.
    eexists. split; [reflexivity|apply verdict_status].
Qed.

End Claims.

End IngestionClaims.

(** ** Tenant scoping of the vector-store operations *)

Module ScopeFacts.
Import MilvusDB MilvusService ExprFacts ExprSpec ScopeSpec.

Lemma lex_tenant_shape k sa na :
  (∀ f rest, no_digit_ahead rest →
     lex (S f) (sa +:+ rest) = cons (TInt na) <$> lex f rest) →
  lex (6 + k) ("tenant_id == " +:+ sa +:+ "")
  = Some [TIdent "tenant_id"; TEq; TInt na].
Proof.
  intros Ha.
  rewrite !app_String, !app_Empty. cbn [Nat.add].
  rewrite lex_tenant_id, lex_space, lex_eq, lex_space.
  rewrite Ha by (intros c r [=]).
  reflexivity.
Qed.

Lemma compile_tenant_expr {V} tenant_id :
  compile (search_expr tenant_id None) = inr (of_tenant (V := V) tenant_id).
Proof.
  unfold compile, parse, tokenize, search_expr.
  cbn [default from_option id add_filters].
  rewrite <- (app_empty_r (int_str tenant_id)).
  assert (Hk : ∃ k, S (String.length ("tenant_id == " +:+ int_str tenant_id +:+ ""))
                    = (6 + k)%nat).
  { rewrite !app_String, !app_Empty. cbn [String.length Nat.add].
    destruct (int_str_head tenant_id) as (c & r & -> & _).
    rewrite app_String. cbn [String.length]. eexists. reflexivity. }
  destruct Hk as [k ->].
  rewrite (lex_tenant_shape k _ tenant_id)
    by (intros f rest Hr; apply lex_int_str, Hr).
  reflexivity.
Qed.

Lemma app_assoc_str (a b c : string) : (a +:+ b) +:+ c = a +:+ b +:+ c.
Proof.
  induction a as [|x a IH]; [reflexivity|].
  rewrite !app_String, IH. reflexivity.
Qed.

(** The filter of the docstring, [{"document_id": d}], gives the
    expression of the per-document operations. *)
Lemma search_expr_document tenant_id document_id :
  search_expr tenant_id (Some [("document_id"%string, PInt document_id)])
  = document_expr tenant_id document_id.
Proof.
  unfold search_expr, document_expr.
  cbn [default from_option id add_filters val_str].
  rewrite app_assoc_str, !app_String, !app_Empty. reflexivity.
Qed.

Section Ranking.

Context {V : Type} `{Metric V}.

Lemma insert_hit_elem_of (h h' : score * Row V) l :
  h' ∈ insert_hit h l → h' = h ∨ h' ∈ l.
Proof.
  induction l as [|x l IH]; cbn [insert_hit]; intros Hin.
  - apply list_elem_of_singleton in Hin. by left.
  - destruct (score_leb h.1 x.1).
    + apply elem_of_cons in Hin as [->|Hin]; [by left|by right].
    + apply elem_of_cons in Hin as [->|Hin]; [right; by left|].
      destruct (IH Hin) as [->|Hl]; [by left|right; by right].
Qed.

Lemma nearest_first_elem_of (q : V) (l : list (Row V)) h :
  h ∈ nearest_first q l → h.2 ∈ l ∧ h.1 = distance q (vector h.2).
Proof.
  unfold nearest_first. induction l as [|r l IH]; cbn [fmap list_fmap foldr].
  - intros Hin. inversion Hin.
  - intros Hin. apply insert_hit_elem_of in Hin as [->|Hin].
    + split; [by left|reflexivity].
    + destruct (IH Hin) as [Hl Hs]. split; [by right|exact Hs].
Qed.

(** [collection.search] with a positive limit returns at most that many
    hits, of rows that satisfy the compiled expression, and leaves the
    collection alone. *)
Lemma search_hits (q : V) (limit : Z) (e : string) p (c : Collection V) :
  0 < limit →
  compile e = inr p →
  ∃ hits, MilvusDB.search q limit e c = (inr hits, c)
    ∧ (length hits ≤ Z.to_nat limit)%nat
    ∧ ∀ h, h ∈ hits → h.2 ∈ rows c ∧ p h.2 = true.
Proof.
  intros Hpos Hp. unfold MilvusDB.search.
  destruct (Z.leb_spec limit 0) as [Hle|_]; [lia|].
  unfold bind, lift, get, ret. rewrite Hp.
  eexists. split_and!; [reflexivity|rewrite length_take; lia|].
  intros h Hh. apply (subseteq_take (Z.to_nat limit)) in Hh.
  apply nearest_first_elem_of in Hh as [Hh _].
  apply list_elem_of_filter in Hh as [Hp' Hin]. split; assumption.
Qed.

(** A limit that is not positive is refused, whatever the expression. *)
Lemma search_refused (q : V) (limit : Z) (e : string) (c : Collection V) :
  limit ≤ 0 →
  ∃ x, MilvusDB.search q limit e c = (inl x, c).
Proof.
  intros Hle. unfold MilvusDB.search.
  destruct (Z.leb_spec limit 0) as [_|Hlt]; [|lia].
  eexists. reflexivity.
Qed.

(** With no filter, or with the filter on a document id, what [search]
    returns comes from rows of the tenant only: the results are the
    formatted hits of at most [top_k] rows, each stored in the collection
    and carrying the caller's tenant id.  The collection is left as it
    was whatever the outcome, and a [top_k] that is not positive is
    refused with an exception. *)
Lemma search_scoped (tenant_id : Z) (q : V) (top_k : Z)
    (filters : option (list (string * pyval))) (c c' : Collection V)
    (res : exn + list (Hit score)) :
  (filters = None
   ∨ ∃ document_id, filters = Some [("document_id"%string, PInt document_id)]) →
  MilvusService.search tenant_id q top_k filters c = (res, c') →
  c' = c
  ∧ (top_k ≤ 0 → ∃ e, res = inl e)
  ∧ ∀ results, res = inr results →
      0 < top_k
      ∧ ∃ hits,
          results = format_hit <$> hits
          ∧ (length hits ≤ Z.to_nat top_k)%nat
          ∧ ∀ h, h ∈ hits →
              h.2 ∈ rows c ∧ MilvusDB.tenant_id (fields h.2) = tenant_id.
Proof.
  intros Hf. unfold MilvusService.search. unfold bind at 1.
  destruct (Z.le_gt_cases top_k 0) as [Hle|Hpos].
  { destruct (search_refused q top_k (search_expr tenant_id filters) c Hle)
      as [x ->].
    intros [= <- <-]. split_and!; [reflexivity|by eauto|discriminate]. }
  assert (Hc : ∃ p : Row V → bool,
            compile (search_expr tenant_id filters) = inr p
            ∧ ∀ r, p r = true → MilvusDB.tenant_id (fields r) = tenant_id).
  { destruct Hf as [->|[d ->]].
    - exists (of_tenant tenant_id). split; [apply compile_tenant_expr|].
      intros r Hr. apply Z.eqb_eq, Hr.
    - exists (of_document tenant_id d).
      split; [rewrite search_expr_document; apply compile_document_expr|].
      intros r Hr. apply andb_true_iff in Hr as [Hr _]. apply Z.eqb_eq, Hr. }
  destruct Hc as (p & Hp & Hscope).
  destruct (search_hits q top_k _ p c Hpos Hp) as (hits & -> & Hlen & Hhits).
  intros [= <- <-]. split_and!; [reflexivity|lia|].
  intros results [= <-]. split; [exact Hpos|].
  exists hits. split_and!; [reflexivity|exact Hlen|].
  intros h Hh. destruct (Hhits h Hh) as [Hin Hsat].
  split; [exact Hin|apply Hscope, Hsat].
Qed.

End Ranking.

(** The per-document operations touch rows of the tenant only: the
    deletion removes exactly the rows of the tenant's document, and the
    statistics and the hash query of the ingestion read exactly those. *)
Lemma document_operations_scoped {V} `{Digest} (tenant_id document_id : Z)
    (c : Collection V) :
  (∃ c', delete_document_chunks tenant_id document_id c = (inr tt, c')
     ∧ rows c' = filter (λ r, of_document tenant_id document_id r = false) (rows c)
     ∧ ∀ r, r ∈ rows c → MilvusDB.tenant_id (fields r) ≠ tenant_id → r ∈ rows c')
  ∧ (∃ stats, get_document_stats tenant_id document_id c = (inr stats, c)
       ∧ chunk_count stats
         = Z.of_nat (length (filter (λ r, of_document tenant_id document_id r = true)
                               (rows c))))
  ∧ ∃ results, query (document_expr tenant_id document_id) c = (inr results, c)
      ∧ ∀ r, r ∈ results → MilvusDB.tenant_id (fields r) = tenant_id.
Proof.
  split_and!.
  - eexists. unfold delete_document_chunks. rewrite delete_document_expr.
    split; [reflexivity|]. split; [reflexivity|].
    intros r Hr Hne. cbn [rows]. apply list_elem_of_filter. split; [|exact Hr].
    unfold of_document. destruct (Z.eqb_spec (MilvusDB.tenant_id (fields r)) tenant_id);
      [contradiction|reflexivity].
  - unfold get_document_stats, bind. rewrite query_document_expr.
    destruct (filter _ (rows c)); eexists; (split; [reflexivity|]); reflexivity.
  - eexists. rewrite query_document_expr. split; [reflexivity|].
    intros r Hr. apply list_elem_of_filter in Hr as [Hr _].
    apply andb_true_iff in Hr as [Hr _]. apply Z.eqb_eq, Hr.
Qed.

End ScopeFacts.

(** ** A search with a filter taken from a request *)

Module SearchScenario.
Import MilvusDB MilvusService SharedCollection.

(** C3 at a concrete input: tenant 1 searches with a filter whose value
    is a string; the expression still begins with the tenant term, but it
    reads as a disjunction, and the answer is the row of tenant 2. *)
Theorem filter_text_escapes_tenant :
  search_expr 1 injected
  = "tenant_id == 1 && document_id == 0 || tenant_id == 2"%string
  ∧ parse (search_expr 1 injected)
    = Some (EOr (EAnd (EEq "tenant_id" 1) (EEq "document_id" 0))
              (EEq "tenant_id" 2))
  ∧ ∃ hits, search 1 [0; 0] 5 injected shared = (inr hits, shared)
      ∧ hit_text <$> hits = ["payroll of tenant 2"%string]
      ∧ ∀ r, r ∈ rows shared →
          text (fields r) = "payroll of tenant 2"%string →
          tenant_id (fields r) = 2.
Proof.
  split_and!; try (vm_compute; reflexivity).
  eexists. split_and!; try (vm_compute; reflexivity).
  intros r Hr Htext. unfold shared in Hr. cbn [rows] in Hr.
  apply elem_of_cons in Hr as [->|Hr]; [discriminate Htext|].
  apply list_elem_of_singleton in Hr as ->. reflexivity.
Qed.

End SearchScenario.

(** ** A document ingested, changed and ingested again *)

Module IngestionScenario.
Import MilvusDB MilvusService DataIngestionService InsertFacts InsertClaims IngestionFacts IngestionClaims InsertSpec InsertInputs IngestionSpec BatchSpec SmallCorpus.

Lemma first_ingestion :
  _process_document (job 7 "v1.txt") start = (inr tt, ingested)
  ∧ Models.documents (db ingested) !! 7
    = Some (Models.mkDocument 1 "notes" "ready" 3 1)
  ∧ (λ r, (chunk_index (fields r), chunk_version (fields r), text (fields r)))
      <$> rows (milvus ingested)
    = [(0, 1, "a"%string); (1, 1, "b"%string); (2, 1, "c"%string)]
  ∧ embedding_calls ingested = [["a"; "b"; "c"]%string].
Proof. split_and!; vm_compute; reflexivity. Qed.

(** C1 at a concrete input: document 7 is ingested again with the text
    ["xbz"]: three chunks, of which the first and the third have hashes
    that are not stored.  The two new chunks are embedded in one call, but
    the insertion raises [IndexError] on the third chunk's index, nothing
    is inserted, and the document ends 'failed' with the chunk count and
    version it had. *)
Theorem partial_change_with_a_gap_fails :
  length (job_chunks (job 7 "v2.txt")) = 3%nat
  ∧ (λ chunk, (c_text chunk, c_chunk_index chunk))
      <$> new_chunks (job 7 "v2.txt") ingested
    = [("x"%string, Some 0); ("z"%string, Some 2)]
  ∧ (process_body (job 7 "v2.txt") ingested).1 = inl IndexError
  ∧ ∃ s', _process_document (job 7 "v2.txt") ingested = (inr tt, s')
      ∧ Models.documents (db s') !! 7
        = Some (Models.mkDocument 1 "notes" "failed" 3 1)
      ∧ milvus s' = milvus ingested
      ∧ embedding_calls s' = [["a"; "b"; "c"]; ["x"; "z"]]%string.
Proof.
  split_and!; try (vm_compute; reflexivity).
  eexists. split_and!; vm_compute; reflexivity.
Qed.

(** When the changed chunks are next to each other the same code path
    succeeds: with the text ["abz"] only the third chunk is new. *)
Lemma partial_change_without_a_gap :
  ∃ s', _process_document (job 7 "v3.txt") ingested = (inr tt, s')
    ∧ Models.documents (db s') !! 7
      = Some (Models.mkDocument 1 "notes" "ready" 4 2)
    ∧ (λ r, (chunk_index (fields r), chunk_version (fields r), text (fields r)))
        <$> rows (milvus s')
      = [(0, 1, "a"%string); (1, 1, "b"%string); (2, 1, "c"%string);
         (2, 2, "z"%string)]
    ∧ embedding_calls s' = [["a"; "b"; "c"]; ["z"]]%string.
Proof. eexists. split_and!; vm_compute; reflexivity. Qed.

Lemma unchanged_document_is_noop_witness :
  (∃ s', _process_document (job 7 "v1.txt") ingested = (inr tt, s')
     ∧ milvus s' = milvus ingested
     ∧ embedding_calls s' = embedding_calls ingested
     ∧ (∀ d, d ≠ 7 →
          Models.documents (db s') !! d = Models.documents (db ingested) !! d)
     ∧ ∀ doc, Models.documents (db ingested) !! 7 = Some doc →
         ∃ doc', Models.documents (db s') !! 7 = Some doc'
           ∧ Models.d_status doc' = "ready"%string
           ∧ Models.d_version doc' = Models.d_version doc
           ∧ Models.d_chunk_count doc' = Models.d_chunk_count doc)
  ∧ _process_document (job 7 "v1.txt") ingested = (inr tt, ingested).
Proof.
  split.
  - apply (proj1 (unchanged_document_is_noop (job 7 "v1.txt") ingested)).
    apply Forall_forall. apply (bool_decide_unpack _). vm_compute. exact I.
  - apply (proj2 (unchanged_document_is_noop (job 7 "v1.txt") start)).
    + vm_compute. reflexivity.
    + vm_compute. reflexivity.
Defined.

Lemma stored_hash_is_of_full_text_witness :
  (65535 < str_len (c_text long_chunk))%N
  ∧ ∃ added,
      rows long_stored = rows (mkCollection [] 100) ++ added
      ∧ length added = length [long_chunk]
      ∧ ∀ i chunk, [long_chunk] !! i = Some chunk →
          ∃ r, added !! i = Some r
            ∧ text (fields r) = str_take 65535 (c_text chunk)
            ∧ first_chars 65535 (c_text chunk) (text (fields r))
            ∧ (∀ s, default (PStr EmptyString) (c_source chunk) = PStr s →
                 ∃ stored, source (fields r) = PStr stored
                           ∧ stored = str_take 512 s
                           ∧ first_chars 512 s stored)
            ∧ content_hash (fields r) = sha256_hexdigest (c_text chunk)
            ∧ ((65535 < str_len (c_text chunk))%N →
                 str_len (text (fields r)) = 65535%N
                 ∧ text (fields r) ≠ c_text chunk
                 ∧ (content_hash (fields r) = sha256_hexdigest (text (fields r))
                    ↔ collides (text (fields r)) (c_text chunk))).
Proof.
  split; [vm_compute; reflexivity|].
  apply (stored_hash_is_of_full_text 1 7 [long_chunk] 1 (Some [[1]])
           (mkCollection [] 100) long_stored [100]).
  reflexivity.
Defined.

(** C10 at a concrete input: of a text of 65537 characters the row keeps
    65535, and the hash in the row is the digest of the whole text, not of
    the text in the row. *)
Lemma long_text_is_stored_cut :
  str_len long_text = 65537%N
  ∧ (λ r, (text (fields r), content_hash (fields r))) <$> rows long_stored
    = [(str_take 65535 long_text, sha256_hexdigest long_text)]
  ∧ str_len (str_take 65535 long_text) = 65535%N
  ∧ sha256_hexdigest long_text ≠ sha256_hexdigest (str_take 65535 long_text).
Proof.
  split_and!; [vm_compute; reflexivity|reflexivity|vm_compute; reflexivity|].
  intros E. apply (f_equal str_len) in E. vm_compute in E. discriminate E.
Qed.

(** C8 at a concrete input: the reader raises for the second document of
    a batch of three.  The loader swallows the exception, so the document
    ends 'ready', not 'failed', with no chunk counted and no row stored;
    the first and the third document end 'ready' with their chunks. *)
Lemma raising_reader_ends_ready :
  SimpleDirectoryReader_load_data (LlamaIndex := unreadable)
    (Some "bad.txt"%string)
  = inl (Exception "cannot read the file")
  ∧ ∃ s', _process_batch (H0 := unreadable)
            [job 7 "v1.txt"; job 8 "bad.txt"; job 9 "memo.txt"] start
          = (inr tt, s')
      ∧ Models.documents (db s') !! 7
        = Some (Models.mkDocument 1 "notes" "ready" 3 1)
      ∧ Models.documents (db s') !! 8
        = Some (Models.mkDocument 1 "broken" "ready" 0 1)
      ∧ Models.documents (db s') !! 9
        = Some (Models.mkDocument 1 "memo" "ready" 2 1)
      ∧ matching (milvus s') 1 8 = [].
Proof.
  split; [reflexivity|]. eexists. split_and!; vm_compute; reflexivity.
Qed.

Lemma batch_isolation_witness :
  ∃ s1, _process_document (H0 := unreadable) (job 8 "bad.txt") start
        = (inr tt, s1)
    ∧ milvus s1 = milvus start
    ∧ embedding_calls s1 = embedding_calls start
    ∧ Models.documents (db s1) !! 8
      = with_status "ready" <$> Models.documents (db start) !! 8.
Proof.
  destruct (batch_isolation (H0 := unreadable)
              [job 7 "v1.txt"; job 8 "bad.txt"; job 9 "memo.txt"] start)
    as [(s' & _ & _ & _ & Hreader & _) _].
  apply (Hreader (job 8 "bad.txt")
           (SimpleDirectoryReader_load_data (LlamaIndex := unreadable))
           (Exception "cannot read the file") start); reflexivity.
Defined.

(** A batch of three: the embedding backend fails for the second
    document; the first and the third end 'ready', the second 'failed'. *)
Lemma batch_of_three :
  ∃ s', _process_batch [job 7 "v1.txt"; job 8 "bad.txt"; job 9 "memo.txt"] start
        = (inr tt, s')
    ∧ Models.d_status <$> Models.documents (db s') !! 7 = Some "ready"%string
    ∧ Models.d_status <$> Models.documents (db s') !! 8 = Some "failed"%string
    ∧ Models.d_status <$> Models.documents (db s') !! 9 = Some "ready"%string.
Proof. eexists. split_and!; vm_compute; reflexivity. Qed.

(** The same batch with the coroutines interleaved: the three loads
    complete first, then the embedding batches in the reverse order. *)
Lemma batch_of_three_interleaved :
  ∃ s', event_loop [0; 1; 2; 2; 1; 0]%nat
          (spawn [job 7 "v1.txt"; job 8 "bad.txt"; job 9 "memo.txt"]) start
        = (inr [Returned; Returned; Returned], s')
    ∧ Models.d_status <$> Models.documents (db s') !! 7 = Some "ready"%string
    ∧ Models.d_status <$> Models.documents (db s') !! 8 = Some "failed"%string
    ∧ Models.d_status <$> Models.documents (db s') !! 9 = Some "ready"%string.
Proof. eexists. split_and!; vm_compute; reflexivity. Qed.

End IngestionScenario.

(** ** Names, keys and paths of adapters *)

Module NameFacts.
Import Models vLLMService LoRAManager ExprFacts LoRAFacts ExprSpec LoRASpec NameSpec.

Lemma to_int_not_nil n :
  Z.to_int n ≠ Decimal.Pos Decimal.Nil ∧ Z.to_int n ≠ Decimal.Neg Decimal.Nil.
Proof.
  destruct n as [|p|p]; cbn [Z.to_int]; split; try discriminate.
  - intros [= E]. exact (DecimalPos.Unsigned.to_uint_nonnil p E).
  - intros [= E]. exact (DecimalPos.Unsigned.to_uint_nonnil p E).
Qed.

(** Reading back the text of an integer gives the integer. *)
Lemma str_int_int_str n : str_int (int_str n) = Some n.
Proof.
  unfold str_int, int_str. destruct (to_int_not_nil n) as [Hp Hn].
  rewrite (NilZero.isi _ Hp Hn). cbn. rewrite DecimalZ.of_to. reflexivity.
Qed.

Lemma int_str_inj n m : int_str n = int_str m → n = m.
Proof.
  intros E. apply (f_equal str_int) in E.
  rewrite !str_int_int_str in E. congruence.
Qed.

Lemma uint_no_underscore d : no_underscore (NilEmpty.string_of_uint d).
Proof. induction d; cbn; (split; [discriminate|assumption]) || exact I. Qed.

Lemma int_str_no_underscore n : no_underscore (int_str n).
Proof.
  unfold int_str. destruct (Z.to_int n) as [d|d]; cbn [NilZero.string_of_int].
  - unfold NilZero.string_of_uint.
    destruct d; try apply uint_no_underscore. cbn. split; [discriminate|exact I].
  - split; [discriminate|]. unfold NilZero.string_of_uint.
    destruct d; try apply uint_no_underscore. cbn. split; [discriminate|exact I].
Qed.

Lemma no_underscore_app a b :
  no_underscore (a +:+ "_" +:+ b) → False.
Proof.
  induction a as [|c a IH]; rewrite ?app_String, ?app_Empty.
  - intros [Hc _]. by apply Hc.
  - intros [_ Hr]. exact (IH Hr).
Qed.

(** The text before the last underscore and the text after it determine
    the whole. *)
Lemma underscore_split a b x y :
  no_underscore x → no_underscore y →
  a +:+ "_" +:+ x = b +:+ "_" +:+ y → a = b ∧ x = y.
Proof.
  intros Hx Hy. revert b. induction a as [|c a IH]; intros [|c' b];
    rewrite ?app_String, ?app_Empty.
  - intros [= E]. split; [reflexivity|exact E].
  - intros [= <- E]. exfalso. rewrite E in Hx. exact (no_underscore_app _ _ Hx).
  - intros [= -> E]. exfalso. rewrite <- E in Hy. exact (no_underscore_app _ _ Hy).
  - intros [= <- E]. destruct (IH _ E) as [-> ->]. split; reflexivity.
Qed.

Lemma path_join_inj base x y :
  path_join base x = path_join base y → x = y.
Proof.
  unfold path_join. destruct base as [|c r]; [exact id|].
  destruct (ends_with_slash (String c r)).
  - apply (inj (String.append (String c r))).
  - intros E. apply (inj (String.append (String c r))) in E.
    apply (inj (String.append "/")) in E. exact E.
Qed.

Lemma cache_key_inj (b b' : BaseModel) (a a' : LoRAAdapter) :
  cache_key b a = cache_key b' a' → bm_name b = bm_name b' ∧ a_id a = a_id a'.
Proof.
  unfold cache_key. intros E.
  destruct (underscore_split _ _ _ _ (int_str_no_underscore _)
              (int_str_no_underscore _) E) as [Hb Ha].
  split; [exact Hb|exact (int_str_inj _ _ Ha)].
Qed.

(** X: two adapters never share a cache entry, a runtime name or a
    managed directory: the cache key determines the base model's name and
    the adapter's id, and the runtime name and the managed path determine
    the adapter's id. *)
Theorem adapter_names_do_not_collide `{Server} (s : LoRAManager.t)
    (b b' : BaseModel) (a a' : LoRAAdapter) :
  (cache_key b a = cache_key b' a' ↔ bm_name b = bm_name b' ∧ a_id a = a_id a')
  ∧ (adapter_name a = adapter_name a' ↔ a_id a = a_id a')
  ∧ ((get_adapter_path (a_id a) s).1 = (get_adapter_path (a_id a') s).1
     ↔ a_id a = a_id a')
  ∧ (load_request s b a = load_request s b' a'
     ↔ bm_name b = bm_name b' ∧ a_id a = a_id a').
Proof.
  assert (Hname : adapter_name a = adapter_name a' → a_id a = a_id a').
  { unfold adapter_name. intros E.
    apply (inj (String.append "adapter_")) in E. exact (int_str_inj _ _ E). }
  split_and!.
  - split; [apply cache_key_inj|].
    unfold cache_key. intros [-> ->]. reflexivity.
  - split; [exact Hname|]. unfold adapter_name. intros ->. reflexivity.
  - cbv beta iota zeta delta [get_adapter_path bind get ret]. cbn [fst].
    split.
    + intros [= E]. apply path_join_inj in E.
      apply (inj (String.append "adapter_")) in E. exact (int_str_inj _ _ E).
    + intros ->. reflexivity.
  - unfold load_request. split.
    + intros E. split.
      * apply (f_equal (λ r, match r with
                             | AdaptersLoad m _ _ => m
                             | _ => EmptyString
                             end)) in E.
        exact E.
      * apply Hname.
        apply (f_equal (λ r, match r with
                             | AdaptersLoad _ n _ => n
                             | _ => EmptyString
                             end)) in E.
        exact E.
    + unfold adapter_name. intros [-> ->]. reflexivity.
Qed.

End NameFacts.

(** ** The adapter manager beyond loading *)

Module ManagerFacts.
Import Models vLLMService LoRAManager ExprFacts LoRAFacts LoRAClaims NameFacts ExprSpec LoRASpec LoRAOutcomes NameSpec ManagerSpec.

Section Facts.

Context `{Server}.

(** X: [unload_adapter] never raises and never touches the tables or
    the gateway's registries.  When the model or its base model is
    unknown, or the adapter is not in the cache, it does nothing at all;
    otherwise it sends one unload request and drops the cache entry,
    whatever the runtime answers. *)
Theorem unload_adapter_cases (s : LoRAManager.t) (model_id adapter_id : Z) :
  ∃ s1,
    unload_adapter model_id adapter_id s = (inr tt, s1)
    ∧ db s1 = db s
    ∧ adapter_base_path s1 = adapter_base_path s
    ∧ loaded_models (vllm s1) = loaded_models (vllm s)
    ∧ loaded_adapters (vllm s1) = loaded_adapters (vllm s)
    ∧ match base_of s model_id with
      | None => s1 = s
      | Some base_model =>
          let key := bm_name base_model +:+ "_" +:+ int_str adapter_id in
          match adapter_cache s !! key with
          | None => s1 = s
          | Some name =>
              adapter_cache s1 = base.delete key (adapter_cache s)
              ∧ sent (vllm s1)
                = sent (vllm s) ++ [AdaptersUnload (bm_name base_model) name]
          end
      end.
Proof.
  unfold base_of. cbv beta iota zeta delta [unload_adapter bind get].
  destruct (models (db s) !! model_id) as [model|]; cbn [mbind option_bind];
    [|exists s; split_and!; reflexivity].
  destruct (base_models (db s) !! m_base_model_id model) as [base_model|];
    [|exists s; split_and!; reflexivity].
  destruct (adapter_cache s !! _) as [name|] eqn:Hc;
    [|exists s; split_and!; reflexivity].
  cbv beta iota zeta delta
    [zoom unload_lora_adapter bind send modify ret set_vllm set_adapter_cache].
  cbn [sent loaded_models loaded_adapters vllm adapter_cache adapter_base_path db].
  destruct (post _ _) as [code|]; eexists; split_and!; reflexivity.
Qed.

(** X: after an adapter was unloaded, the next request for it goes to
    the runtime again: the load request follows the unload request, and
    the call answers with the adapter's name or fails with the load
    error of that adapter. *)
Theorem unload_then_load_asks_the_runtime (s : LoRAManager.t)
    (model_id : Z) (model : Model) (base_model : BaseModel)
    (a : LoRAAdapter) (name : string) :
  models (db s) !! model_id = Some model →
  base_models (db s) !! m_base_model_id model = Some base_model →
  resolved s model_id [a_id a] = [a] →
  adapter_cache s !! cache_key base_model a = Some name →
  ∃ s1 s2 res,
    unload_adapter model_id (a_id a) s = (inr tt, s1)
    ∧ load_adapters_for_inference model_id [a_id a] s1 = (res, s2)
    ∧ sent (vllm s2)
      = sent (vllm s)
          ++ [AdaptersUnload (bm_name base_model) name;
              load_request s base_model a]
    ∧ (res = inr [adapter_name a]
         ∧ adapter_cache s2 !! cache_key base_model a = Some (adapter_name a)
       ∨ res = inl (Exception ("Failed to load adapter " +:+ int_str (a_id a)))
         ∧ adapter_cache s2 !! cache_key base_model a = None).
Proof.
  intros Hm Hb Hres Hc.
  destruct (unload_adapter_cases s model_id (a_id a))
    as (s1 & Hun & Hdb & Hpath & _ & _ & Hcase).
  unfold base_of in Hcase. rewrite Hm in Hcase. cbn [mbind option_bind] in Hcase.
  rewrite Hb in Hcase. cbv zeta in Hcase.
  fold (cache_key base_model a) in Hcase. rewrite Hc in Hcase.
  destruct Hcase as [Hcache Hsent].
  assert (Hmiss : adapter_cache s1 !! cache_key base_model a = None)
    by (rewrite Hcache; apply lookup_delete_eq).
  assert (Hres1 : resolved s1 model_id [a_id a] = [a])
    by (unfold resolved in *; rewrite Hdb; exact Hres).
  assert (Hreq : load_request s1 base_model a = load_request s base_model a)
    by (unfold load_request; rewrite Hpath; reflexivity).
  exists s1.
  rewrite load_adapters_unfold, Hdb, Hm, Hb, Hres1.
  rewrite bool_decide_eq_false_2 by (intros Hne; by apply Hne).
  rewrite load_each_cons, (load_one_miss _ _ _ Hmiss).
  case_bool_decide as Hpost.
  - cbn [load_each]. unfold ret. eexists _, _.
    split_and!; [exact Hun|reflexivity| |].
    + cbn [loaded vllm sent]. rewrite Hsent, Hreq, <- app_assoc. reflexivity.
    + left. split; [reflexivity|]. cbn [loaded adapter_cache].
      apply lookup_insert_eq.
  - eexists _, _. split_and!; [exact Hun|reflexivity| |].
    + cbn [refused vllm sent]. rewrite Hsent, Hreq, <- app_assoc. reflexivity.
    + right. split; [reflexivity|exact Hmiss].
Qed.

(** X: once [ensure_base_model_loaded] has answered, asking again
    answers the same name, sends nothing to the runtime and changes
    nothing; the first call sent at most one load request. *)
Theorem ensure_base_model_loaded_twice (s s1 : LoRAManager.t)
    (base_model_id : Z) (name : string) :
  ensure_base_model_loaded base_model_id s = (inr name, s1) →
  ensure_base_model_loaded base_model_id s1 = (inr name, s1)
  ∧ is_Some (loaded_models (vllm s1) !! name)
  ∧ (sent (vllm s1) = sent (vllm s)
     ∨ ∃ path, sent (vllm s1) = sent (vllm s) ++ [ModelsLoad name path]).
Proof.
  cbv beta iota zeta delta [ensure_base_model_loaded bind get].
  destruct (base_models (db s) !! base_model_id) as [base_model|] eqn:Hb;
    [|discriminate].
  destruct (loaded_models (vllm s) !! bm_name base_model) as [path|] eqn:Hin.
  - intros [= <- <-]. rewrite Hb, Hin. split_and!; [reflexivity|eauto|by left].
  - cbv beta iota zeta delta
      [zoom load_base_model bind send modify ret raise set_vllm set_db].
    cbn [sent loaded_models loaded_adapters vllm adapter_cache
         adapter_base_path db].
    destruct (post _ _) as [code|]; [|discriminate].
    destruct (Z.eqb_spec code 200) as [->|Hne]; [|discriminate].
    intros [= <- <-].
    cbn [db vllm set_base_models base_models loaded_models sent].
    rewrite lookup_insert_eq. cbn [bm_name]. rewrite lookup_insert_eq.
    split_and!; [reflexivity|eauto|right; eauto].
Qed.

(** X: a call that succeeds has only touched adapters of the given
    model: every requested id is the id of a row of that model, no id
    was requested twice, and there is one name per id. *)
Theorem served_adapters_belong_to_model (s s1 : LoRAManager.t)
    (model_id : Z) (adapter_ids : list Z) (names : list string) :
  NoDup (a_id <$> lora_adapters (db s)) →
  load_adapters_for_inference model_id adapter_ids s = (inr names, s1) →
  NoDup adapter_ids
  ∧ length names = length adapter_ids
  ∧ ∀ adapter_id, adapter_id ∈ adapter_ids →
      ∃ a, a ∈ lora_adapters (db s)
           ∧ a_id a = adapter_id ∧ a_model_id a = model_id.
Proof.
  intros Hpk Hrun. rewrite load_adapters_unfold in Hrun.
  destruct (models (db s) !! model_id) as [model|]; [|discriminate].
  destruct (base_models (db s) !! m_base_model_id model) as [base_model|];
    [|discriminate].
  case_bool_decide as Hlen; [discriminate|].
  assert (Hlen' : length (resolved s model_id adapter_ids) = length adapter_ids)
    by (destruct (decide (length (resolved s model_id adapter_ids)
                          = length adapter_ids)); [assumption|contradiction]).
  destruct (resolved_length_le s model_id adapter_ids Hpk) as [Hnd Hsub].
  apply submseteq_length_Permutation in Hsub; [|rewrite length_fmap; lia].
  destruct (load_each_success _ _ _ _ _ Hrun) as (_ & _ & _ & Hall & _).
  split_and!.
  - rewrite <- Hsub. exact Hnd.
  - apply Forall2_length in Hall. lia.
  - intros adapter_id Hin. rewrite <- Hsub in Hin.
    apply list_elem_of_fmap in Hin as (a & -> & Ha).
    unfold resolved in Ha. apply list_elem_of_filter in Ha as [[_ Hmod] Hrow].
    exists a. split_and!; [exact Hrow|reflexivity|exact Hmod].
Qed.

Lemma load_each_uncached base_model l : ∀ s names s1,
  NoDup (a_id <$> l) →
  (∀ a, a ∈ l → adapter_cache s !! cache_key base_model a = None) →
  load_each base_model l s = (inr names, s1) →
  names = adapter_name <$> l
  ∧ sent (vllm s1) = sent (vllm s) ++ (load_request s base_model <$> l).
Proof.
  induction l as [|a l IH]; intros s names s1 Hnd Hnone Hrun.
  - cbn in Hrun. injection Hrun as <- <-. rewrite app_nil_r. by split.
  - rewrite load_each_cons in Hrun.
    rewrite (load_one_miss _ _ _ (Hnone a ltac:(by left))) in Hrun.
    case_bool_decide as Hpost; [|discriminate].
    destruct (load_each base_model l (loaded s base_model a))
      as [[e|ns] s'] eqn:Hl; [discriminate|].
    injection Hrun as <- <-.
    rewrite fmap_cons in Hnd. apply NoDup_cons in Hnd as [Hfresh Hnd].
    assert (Hrest : ∀ b, b ∈ l →
              adapter_cache (loaded s base_model a) !! cache_key base_model b
              = None).
    { intros b Hb. cbn [loaded adapter_cache].
      rewrite lookup_insert_ne; [apply Hnone; by right|].
      intros Hk. destruct (cache_key_inj _ _ _ _ Hk) as [_ Hid].
      apply Hfresh. rewrite Hid. apply list_elem_of_fmap. eauto. }
    destruct (IH _ _ _ Hnd Hrest Hl) as [-> Hsent].
    cbn [loaded vllm sent] in Hsent. split; [reflexivity|].
    rewrite Hsent, <- app_assoc. reflexivity.
Qed.

(** X: when none of the requested adapters is cached, a call that
    succeeds has sent one load request per adapter, in the order of the
    table rows (not of the request list), each with the managed path
    made from the adapter's id (the [adapter_path] column is not read),
    and it answers the runtime names in that same order: the names of
    the requested ids, up to order. *)
Theorem uncached_adapters_load_in_table_order (s s1 : LoRAManager.t)
    (model_id : Z) (adapter_ids : list Z) (model : Model)
    (base_model : BaseModel) (names : list string) :
  NoDup (a_id <$> lora_adapters (db s)) →
  models (db s) !! model_id = Some model →
  base_models (db s) !! m_base_model_id model = Some base_model →
  (∀ a, a ∈ resolved s model_id adapter_ids →
     adapter_cache s !! cache_key base_model a = None) →
  load_adapters_for_inference model_id adapter_ids s = (inr names, s1) →
  names = adapter_name <$> resolved s model_id adapter_ids
  ∧ sent (vllm s1)
    = sent (vllm s)
        ++ ((λ a, AdaptersLoad (bm_name base_model)
                    ("adapter_" +:+ int_str (a_id a))
                    (path_join (adapter_base_path s)
                       ("adapter_" +:+ int_str (a_id a))))
              <$> resolved s model_id adapter_ids)
  ∧ names ≡ₚ (λ i, "adapter_" +:+ int_str i) <$> adapter_ids.
Proof.
  intros Hpk Hm Hb Hnone Hrun. rewrite load_adapters_unfold, Hm, Hb in Hrun.
  case_bool_decide as Hlen; [discriminate|].
  assert (Hlen' : length (resolved s model_id adapter_ids) = length adapter_ids)
    by (destruct (decide (length (resolved s model_id adapter_ids)
                          = length adapter_ids)); [assumption|contradiction]).
  destruct (resolved_length_le s model_id adapter_ids Hpk) as [Hnd Hsub].
  apply submseteq_length_Permutation in Hsub; [|rewrite length_fmap; lia].
  destruct (load_each_uncached _ _ _ _ _ Hnd Hnone Hrun) as [-> Hsent].
  split_and!; [reflexivity|exact Hsent|].
  transitivity ((λ i, "adapter_" +:+ int_str i)
                  <$> (a_id <$> resolved s model_id adapter_ids)).
  - rewrite <- list_fmap_compose. reflexivity.
  - apply fmap_Permutation, Hsub.
Qed.

End Facts.

Section Gateway.

Context `{Server}.

(** X: [load_lora_adapter] never raises and sends one request.  It
    answers [True] exactly when the runtime answered 200, and then the
    adapter is registered under the model with its path while every
    other registration is as before; otherwise the registries are
    untouched. *)
Theorem load_lora_adapter_registers (v : vLLMService.t)
    (model_name adapter_name adapter_path : string) :
  ∃ success v1,
    load_lora_adapter model_name adapter_name adapter_path v = (inr success, v1)
    ∧ sent v1 = sent v ++ [AdaptersLoad model_name adapter_name adapter_path]
    ∧ loaded_models v1 = loaded_models v
    ∧ (success = true
       ↔ post (sent v) (AdaptersLoad model_name adapter_name adapter_path)
         = Some 200)
    ∧ ∀ m a,
        registered v1 m a
        = if success && bool_decide (m = model_name ∧ a = adapter_name)
          then Some adapter_path
          else registered v m a.
Proof.
  cbv beta iota zeta delta [load_lora_adapter bind send modify ret].
  cbn [sent loaded_models loaded_adapters].
  destruct (post _ _) as [code|] eqn:Hpost.
  - destruct (Z.eqb_spec code 200) as [->|Hne]; eexists _, _;
      (split_and!; [reflexivity|reflexivity|reflexivity| |]).
    + tauto.
    + intros m a. unfold registered. cbn [loaded_adapters andb].
      case_bool_decide as Hma.
      * destruct Hma as [-> ->]. rewrite lookup_insert_eq. cbn.
        apply lookup_insert_eq.
      * destruct (decide (m = model_name)) as [->|Hm].
        -- rewrite lookup_insert_eq. cbn.
           rewrite lookup_insert_ne by (intros ->; by apply Hma).
           destruct (loaded_adapters v !! model_name); reflexivity.
        -- rewrite lookup_insert_ne by congruence. reflexivity.
    + split; [discriminate|]. intros [= E]. contradiction.
    + intros m a. reflexivity.
  - eexists _, _. split_and!; try reflexivity.
    split; discriminate.
Qed.

End Gateway.

End ManagerFacts.

(** ** A runtime that accepts every request *)

Module ManagerScenario.
Import Models vLLMService LoRAManager LoRAFacts LoRAClaims LoRAScenario NameFacts ManagerFacts LoRASpec LoRAOutcomes PickyRuntime NameSpec ManagerSpec WillingRuntime.

Lemma unload_then_load_asks_the_runtime_witness :
  ∃ s1 s2 res,
    unload_adapter (H := willing) 1 2 warmed = (inr tt, s1)
    ∧ load_adapters_for_inference (H := willing) 1 [2] s1 = (res, s2)
    ∧ sent (vllm s2)
      = sent (vllm warmed)
          ++ [AdaptersUnload "base" "adapter_2";
              load_request warmed (mkBaseModel "base" "llm" "org/base" true)
                (mkLoRAAdapter 2 1 "legal" "/w/2")]
    ∧ (res = inr [adapter_name (mkLoRAAdapter 2 1 "legal" "/w/2")]
         ∧ adapter_cache s2
             !! cache_key (mkBaseModel "base" "llm" "org/base" true)
                  (mkLoRAAdapter 2 1 "legal" "/w/2")
           = Some (adapter_name (mkLoRAAdapter 2 1 "legal" "/w/2"))
       ∨ res = inl (Exception ("Failed to load adapter " +:+ int_str 2))
         ∧ adapter_cache s2
             !! cache_key (mkBaseModel "base" "llm" "org/base" true)
                  (mkLoRAAdapter 2 1 "legal" "/w/2")
           = None).
Proof.
  apply (unload_then_load_asks_the_runtime (H := willing) warmed 1
           (mkModel 7 "assistant" 1) (mkBaseModel "base" "llm" "org/base" true)
           (mkLoRAAdapter 2 1 "legal" "/w/2") "adapter_2");
    vm_compute; reflexivity.
Defined.

Lemma ensure_base_model_loaded_twice_witness :
  ensure_base_model_loaded (H := willing) 1
    (ensure_base_model_loaded (H := willing) 1 fresh).2
  = (inr "base"%string, (ensure_base_model_loaded (H := willing) 1 fresh).2)
  ∧ is_Some (loaded_models
               (vllm (ensure_base_model_loaded (H := willing) 1 fresh).2)
             !! "base"%string)
  ∧ (sent (vllm (ensure_base_model_loaded (H := willing) 1 fresh).2)
     = sent (vllm fresh)
     ∨ ∃ path,
         sent (vllm (ensure_base_model_loaded (H := willing) 1 fresh).2)
         = sent (vllm fresh) ++ [ModelsLoad "base" path]).
Proof.
  apply (ensure_base_model_loaded_twice (H := willing) fresh _ 1 "base").
  vm_compute. reflexivity.
Defined.

Lemma served_adapters_belong_to_model_witness :
  NoDup [2; 1]
  ∧ length ["adapter_1"; "adapter_2"]%string = length [2; 1]
  ∧ ∀ adapter_id, adapter_id ∈ [2; 1] →
      ∃ a, a ∈ lora_adapters (db fresh)
           ∧ a_id a = adapter_id ∧ a_model_id a = 1.
Proof.
  apply (served_adapters_belong_to_model (H := willing) fresh
           (load_adapters_for_inference (H := willing) 1 [2; 1] fresh).2
           1 [2; 1] ["adapter_1"; "adapter_2"]%string).
  - apply (bool_decide_unpack _). vm_compute. exact I.
  - vm_compute. reflexivity.
Defined.

Lemma uncached_adapters_load_in_table_order_witness :
  ["adapter_1"; "adapter_2"]%string = adapter_name <$> resolved fresh 1 [2; 1]
  ∧ sent (vllm (load_adapters_for_inference (H := willing) 1 [2; 1] fresh).2)
    = sent (vllm fresh)
        ++ ((λ a, AdaptersLoad "base" ("adapter_" +:+ int_str (a_id a))
                    (path_join "./adapters" ("adapter_" +:+ int_str (a_id a))))
              <$> resolved fresh 1 [2; 1])
  ∧ ["adapter_1"; "adapter_2"]%string
    ≡ₚ (λ i, "adapter_" +:+ int_str i) <$> [2; 1].
Proof.
  apply (uncached_adapters_load_in_table_order (H := willing) fresh
           (load_adapters_for_inference (H := willing) 1 [2; 1] fresh).2
           1 [2; 1] (mkModel 7 "assistant" 1)
           (mkBaseModel "base" "llm" "org/base" true)
           ["adapter_1"; "adapter_2"]%string).
  - apply (bool_decide_unpack _). vm_compute. exact I.
  - vm_compute. reflexivity.
  - vm_compute. reflexivity.
  - intros a Ha. vm_compute. reflexivity.
  - vm_compute. reflexivity.
Defined.

End ManagerScenario.

(** ** The vector store: statistics, deletion and insertion together *)

Module StoreFacts.
Import MilvusDB MilvusService ExprFacts InsertFacts IngestionFacts ExprSpec InsertSpec IngestionSpec.

Lemma fold_max_ge (l : list Z) : ∀ a, a ≤ fold_left Z.max l a.
Proof.
  induction l as [|x l IH]; intros a; cbn [fold_left]; [lia|].
  specialize (IH (Z.max a x)). lia.
Qed.

Lemma fold_max_elem (l : list Z) : ∀ a x, x ∈ l → x ≤ fold_left Z.max l a.
Proof.
  induction l as [|y l IH]; intros a x Hx; [inversion Hx|].
  cbn [fold_left]. apply elem_of_cons in Hx as [->|Hx].
  - pose proof (fold_max_ge l (Z.max a y)). lia.
  - apply IH, Hx.
Qed.

Lemma fold_max_in (l : list Z) : ∀ a,
  fold_left Z.max l a = a ∨ fold_left Z.max l a ∈ l.
Proof.
  induction l as [|y l IH]; intros a; cbn [fold_left]; [by left|].
  destruct (IH (Z.max a y)) as [E|Hin].
  - rewrite E. destruct (Z.max_spec a y) as [[_ ->]|[_ ->]];
      [right; by left|by left].
  - right. by right.
Qed.

(** [max(l)] is an element of a non-empty list and bounds the others. *)
Lemma max_list_spec (l : list Z) :
  l ≠ [] → max_list l ∈ l ∧ ∀ x, x ∈ l → x ≤ max_list l.
Proof.
  destruct l as [|a l]; [done|]. intros _. cbn [max_list]. split.
  - destruct (fold_max_in l a) as [->|Hin]; [by left|by right].
  - intros x Hx. apply elem_of_cons in Hx as [->|Hx].
    + apply fold_max_ge.
    + apply fold_max_elem, Hx.
Qed.

Lemma max_list_unique (l : list Z) m :
  m ∈ l → (∀ x, x ∈ l → x ≤ m) → max_list l = m.
Proof.
  intros Hm Hle.
  destruct (max_list_spec l) as [Hin Hub]; [by intros ->; inversion Hm|].
  specialize (Hle _ Hin). specialize (Hub _ Hm). lia.
Qed.

Lemma filter_implied {A} (P Q : A → Prop) `{∀ x, Decision (P x)}
    `{∀ x, Decision (Q x)} (l : list A) :
  (∀ x, P x → Q x) → filter P (filter Q l) = filter P l.
Proof.
  intros HPQ. induction l as [|x l IH]; [reflexivity|].
  rewrite (filter_cons Q). destruct (decide (Q x)) as [Hq|Hq].
  - rewrite !filter_cons, IH. reflexivity.
  - rewrite filter_cons, decide_False by (intros Hp; apply Hq, HPQ, Hp).
    exact IH.
Qed.

Lemma filter_no_match {A} (P : A → Prop) `{∀ x, Decision (P x)} (l : list A) :
  Forall (λ x, ¬ P x) l → filter P l = [].
Proof.
  induction 1 as [|x l Hx _ IH]; [reflexivity|].
  rewrite filter_cons, decide_False by exact Hx. exact IH.
Qed.

Lemma filter_excluded {A} (P Q : A → Prop) `{∀ x, Decision (P x)}
    `{∀ x, Decision (Q x)} (l : list A) :
  (∀ x, P x → Q x → False) → filter P (filter Q l) = [].
Proof.
  intros HPQ. induction l as [|x l IH]; [reflexivity|].
  rewrite (filter_cons Q). destruct (decide (Q x)) as [Hq|Hq].
  - rewrite filter_cons, decide_False by (intros Hp; exact (HPQ x Hp Hq)).
    exact IH.
  - exact IH.
Qed.

Lemma of_document_true {V} t d (r : Row V) :
  of_document t d r = true
  ↔ MilvusDB.tenant_id (fields r) = t ∧ MilvusDB.document_id (fields r) = d.
Proof. unfold of_document. rewrite andb_true_iff, !Z.eqb_eq. reflexivity. Qed.

Lemma of_document_other {V} t d t' d' (r : Row V) :
  (t', d') ≠ (t, d) → of_document t' d' r = true → of_document t d r = false.
Proof.
  intros Hne Hr. apply of_document_true in Hr as [Ht' Hd'].
  apply not_true_is_false. intros Hr. apply of_document_true in Hr as [Ht Hd].
  apply Hne. congruence.
Qed.

Section Facts.

Context {V : Type} `{Digest}.

(** The vocabulary, at the vector type of this section. *)
Local Abbreviation scalars := (InsertSpec.scalars (V := V)).
Local Abbreviation prepared := (InsertSpec.prepared (V := V)).
Local Abbreviation row_of := (InsertSpec.row_of (V := V)).
Local Abbreviation tagged := (InsertSpec.tagged (V := V)).
Local Abbreviation matching := (IngestionSpec.matching (V := V)).
Local Abbreviation stats_of := (IngestionSpec.stats_of (V := V)).
Local Abbreviation stored_hashes := (IngestionSpec.stored_hashes (V := V)).

(** What [get_document_stats] returns: the collection is left alone,
    the count is the number of rows of the tenant's document over all
    their versions, and [latest_version] is the greatest version among
    these rows: the version of one of them, and no row has a greater
    one.  Without rows the answer is 0 and 0. *)
Theorem get_document_stats_counts_all_versions (t d : Z) (c c' : Collection V)
    (res : exn + Stats) :
  get_document_stats t d c = (res, c') →
  c' = c
  ∧ ∀ st, res = inr st →
      chunk_count st = Z.of_nat (length (matching c t d))
      ∧ (matching c t d = [] → latest_version st = 0)
      ∧ (matching c t d ≠ [] →
           ∃ r, r ∈ matching c t d
                ∧ chunk_version (fields r) = latest_version st)
      ∧ ∀ r, r ∈ rows c →
          MilvusDB.tenant_id (fields r) = t →
          MilvusDB.document_id (fields r) = d →
          chunk_version (fields r) ≤ latest_version st.
Proof.
  rewrite get_document_stats_eq. intros [= <- <-]. split; [reflexivity|].
  intros st [= <-].
  destruct (matching c t d) as [|r0 rest] eqn:Hrows.
  - split_and!; [reflexivity|reflexivity|done|].
    intros r Hr Ht Hd. exfalso.
    assert (Hin : r ∈ matching c t d).
    { apply list_elem_of_filter. split; [|exact Hr].
      apply of_document_true. by split. }
    rewrite Hrows in Hin. inversion Hin.
  - destruct (max_list_spec ((λ r, chunk_version (fields r)) <$> r0 :: rest))
      as [Hin Hub]; [done|].
    assert (Hst : latest_version (stats_of (r0 :: rest))
                  = max_list ((λ r, chunk_version (fields r)) <$> r0 :: rest))
      by reflexivity.
    rewrite Hst.
    split_and!; [reflexivity|done| |].
    + intros _. apply list_elem_of_fmap in Hin as (r & Hr & Hin).
      exists r. split; [exact Hin|]. by rewrite Hr.
    + intros r Hr Ht Hd. apply Hub.
      apply list_elem_of_fmap. exists r. split; [reflexivity|].
      rewrite <- Hrows. apply list_elem_of_filter. split; [|exact Hr].
      apply of_document_true. by split.
Qed.

(** X: after [delete_document_chunks] the statistics of the document
    are 0 and 0 and deleting again changes nothing; the rows of every
    other document, of this tenant or another, are all still there in
    their order, and the next primary key is as before. *)
Theorem delete_document_chunks_clears (t d : Z) (c : Collection V) :
  ∃ c',
    delete_document_chunks t d c = (inr tt, c')
    ∧ get_document_stats t d c'
      = (inr {| chunk_count := 0; latest_version := 0 |}, c')
    ∧ delete_document_chunks t d c' = (inr tt, c')
    ∧ next_pk c' = next_pk c
    ∧ matching c' t d = []
    ∧ ∀ t' d', (t', d') ≠ (t, d) → matching c' t' d' = matching c t' d'.
Proof.
  unfold delete_document_chunks. rewrite delete_document_expr.
  eexists. split; [reflexivity|].
  assert (Hnone : matching
            (mkCollection
               (filter (λ r, of_document t d r = false) (rows c)) (next_pk c))
            t d = []).
  { unfold matching. cbn [rows]. apply filter_excluded.
    intros r Ht Hf. congruence. }
  split_and!.
  - rewrite get_document_stats_eq, Hnone. reflexivity.
  - rewrite delete_document_expr. cbn [rows next_pk]. do 2 f_equal.
    apply filter_implied. tauto.
  - reflexivity.
  - exact Hnone.
  - intros t' d' Hne. unfold matching. cbn [rows]. apply filter_implied.
    intros r. apply of_document_other, Hne.
Qed.

Lemma stats_of_rows (results : list (Row V)) (n m : Z) :
  Z.of_nat (length results) = n →
  max_list ((λ r, chunk_version (fields r)) <$> results) = m →
  results ≠ [] →
  stats_of results = {| chunk_count := n; latest_version := m |}.
Proof. intros <- <- Hne. destruct results; [done|reflexivity]. Qed.

Lemma filter_all {A} (P : A → Prop) `{∀ x, Decision (P x)} (l : list A) :
  Forall P l → filter P l = l.
Proof.
  induction 1 as [|x l Hx _ IH]; [reflexivity|].
  rewrite filter_cons, decide_True by exact Hx. by rewrite IH.
Qed.

(** The statistics after rows of one version were appended for the
    document. *)
Lemma stats_after_append (t d v : Z) (c c' : Collection V)
    (added : list (Row V)) :
  rows c' = rows c ++ added →
  Forall (tagged t d) added →
  Forall (λ r, chunk_version (fields r) = v) added →
  added ≠ [] →
  latest_version (stats_of (matching c t d)) < v →
  get_document_stats t d c'
  = (inr {| chunk_count :=
              chunk_count (stats_of (matching c t d))
              + Z.of_nat (length added);
            latest_version := v |}, c')
  ∧ ∀ t' d', (t', d') ≠ (t, d) → matching c' t' d' = matching c t' d'.
Proof.
  intros Hrows Htag Hver Hne Hlt.
  assert (Hmine : filter (λ r, of_document t d r = true) added = added).
  { apply filter_all. eapply Forall_impl; [exact Htag|].
    intros r [Ht Hd]. apply of_document_true. by split. }
  split.
  - rewrite get_document_stats_eq, (matching_app _ _ _ _ _ Hrows), Hmine.
    assert (Hsome : ∃ r1, r1 ∈ added).
    { destruct added as [|r1 ?]; [done|]. exists r1. by left. }
    destruct Hsome as [r1 Hr1].
    assert (Hbelow : ∀ r, r ∈ matching c t d → chunk_version (fields r) < v).
    { intros r Hr.
      destruct (matching c t d) as [|r0 rest] eqn:Hrows0; [inversion Hr|].
      assert (Hlt' : max_list ((λ r, chunk_version (fields r)) <$> r0 :: rest) < v)
        by exact Hlt.
      destruct (max_list_spec ((λ r, chunk_version (fields r)) <$> r0 :: rest))
        as [_ Hub]; [done|].
      assert (chunk_version (fields r)
              ≤ max_list ((λ r, chunk_version (fields r)) <$> r0 :: rest))
        by (apply Hub, list_elem_of_fmap; eauto).
      lia. }
    assert (Hlast : ∀ x, x ∈ (λ r, chunk_version (fields r))
                               <$> (matching c t d ++ added) → x ≤ v).
    { intros x Hx. apply list_elem_of_fmap in Hx as (r & -> & Hr).
      apply elem_of_app in Hr as [Hr|Hr].
      - specialize (Hbelow r Hr). lia.
      - eapply Forall_forall in Hver; [|exact Hr]. lia. }
    assert (Hin : v ∈ (λ r, chunk_version (fields r))
                        <$> (matching c t d ++ added)).
    { apply list_elem_of_fmap. exists r1. split.
      - symmetry. eapply Forall_forall in Hver; [exact Hver|exact Hr1].
      - apply elem_of_app. by right. }
    assert (Hcount : Z.of_nat (length (matching c t d ++ added))
                     = chunk_count (stats_of (matching c t d))
                       + Z.of_nat (length added)).
    { rewrite length_app.
      destruct (matching c t d); cbn [stats_of chunk_count length]; lia. }
    rewrite (stats_of_rows _ _ v Hcount (max_list_unique _ v Hin Hlast));
      [reflexivity|].
    intros E. apply app_eq_nil in E as [_ E]. subst added. inversion Hr1.
  - intros t' d' Hother. rewrite (matching_app _ _ _ _ _ Hrows).
    rewrite (filter_no_match _ added), app_nil_r; [reflexivity|].
    eapply Forall_impl; [exact Htag|]. intros r [Ht Hd] Hr.
    apply of_document_true in Hr as [Ht' Hd']. apply Hother. congruence.
Qed.

(** X: after [insert_chunks] has returned for a non-empty list of
    chunks and a version greater than every version stored for the
    document, the statistics of the document count the old rows and one
    row per chunk, with the new version as the latest; the rows of
    every other document are as before. *)
Theorem insert_chunks_then_stats (t d : Z) (chunks : list Chunk) (v : Z)
    (embeddings : option (list V)) (c c' : Collection V) (ks : list Z)
    (old : Stats) :
  insert_chunks t d chunks v embeddings c = (inr ks, c') →
  chunks ≠ [] →
  (get_document_stats t d c).1 = inr old →
  latest_version old < v →
  get_document_stats t d c'
  = (inr {| chunk_count := chunk_count old + Z.of_nat (length chunks);
            latest_version := v |}, c')
  ∧ ∀ t' d', (t', d') ≠ (t, d) → matching c' t' d' = matching c t' d'.
Proof.
  intros Hrun Hne Hold Hlt.
  destruct (insert_chunks_rows _ _ _ _ _ _ _ _ Hrun)
    as (added & Hrows & Htag & Hok).
  specialize (Hok ks eq_refl).
  assert (Hlen : length added = length chunks)
    by (symmetry; eapply Forall2_length, Hok).
  assert (Hver : Forall (λ r, chunk_version (fields r) = v) added).
  { apply Forall_forall. intros r Hr.
    destruct (Forall2_elem_of_r _ _ _ _ Hok Hr) as (chunk & _ & Hp).
    destruct Hp as (_ & _ & Hv & _). exact Hv. }
  rewrite get_document_stats_eq in Hold. cbn [fst] in Hold.
  injection Hold as <-. rewrite <- Hlen.
  apply stats_after_append; try assumption.
  intros ->. destruct chunks; [done|discriminate Hlen].
Qed.

End Facts.

End StoreFacts.

(** ** Insertion of chunks with consecutive indices *)

Module AlignmentFacts.
Import MilvusDB MilvusService ExprFacts InsertFacts ExprSpec InsertSpec AlignmentSpec.

Lemma ndarray_row_lookup {A} (a : list A) (k : nat) x :
  a !! k = Some x → ndarray_row a (Z.of_nat k) = inr x.
Proof.
  intros Hk. pose proof (lookup_lt_Some _ _ _ Hk) as Hlt.
  unfold ndarray_row.
  replace (Z.of_nat k <? 0) with false by (symmetry; apply Z.ltb_ge; lia).
  replace (0 <=? Z.of_nat k) with true by (symmetry; apply Z.leb_le; lia).
  replace (Z.of_nat k <? Z.of_nat (length a)) with true
    by (symmetry; apply Z.ltb_lt; lia).
  cbn [andb]. rewrite Nat2Z.id, Hk. reflexivity.
Qed.

Lemma slice_lookup {A} (l : list A) (i j k : nat) :
  (k < j - i)%nat → slice l i j !! k = l !! (i + k)%nat.
Proof.
  intros Hk. unfold slice. rewrite lookup_take_lt by exact Hk.
  apply lookup_drop.
Qed.

Lemma slice_lookup_Some {A} (l : list A) (i j k : nat) x :
  slice l i j !! k = Some x → l !! (i + k)%nat = Some x ∧ (k < j - i)%nat.
Proof.
  unfold slice. intros Hk. apply lookup_take_Some in Hk as [Hk Hlt].
  rewrite lookup_drop in Hk. split; assumption.
Qed.

Section Facts.

Context {V : Type} `{Digest}.

(** The vocabulary, at the vector type of this section. *)
Local Abbreviation scalars := (InsertSpec.scalars (V := V)).
Local Abbreviation prepared := (InsertSpec.prepared (V := V)).
Local Abbreviation row_of := (InsertSpec.row_of (V := V)).
Local Abbreviation tagged := (InsertSpec.tagged (V := V)).
Local Abbreviation stored_as := (AlignmentSpec.stored_as (V := V)).
Local Abbreviation in_step := (AlignmentSpec.in_step (V := V)).

Lemma prepare_data_in_step t d v (embeddings : list V) base chunks :
  ∀ i,
  (∀ k chunk, chunks !! k = Some chunk →
     default (Z.of_nat (i + k)) (c_chunk_index chunk)
     = base + Z.of_nat (i + k)) →
  (∀ k chunk, chunks !! k = Some chunk → is_Some (embeddings !! (i + k)%nat)) →
  (∀ chunk, chunk ∈ chunks →
     ∃ s, default (PStr EmptyString) (c_source chunk) = PStr s) →
  ∃ data,
    prepare_data t d v (Some embeddings) i chunks = inr data
    ∧ ∀ k it, data !! k = Some it →
        chunk_index it = base + Z.of_nat (i + k)
        ∧ is_Some (embeddings !! (i + k)%nat)
        ∧ embedding it = embeddings !! (i + k)%nat
        ∧ ∃ s, source it = PStr s.
Proof.
  induction chunks as [|chunk rest IH]; intros i Hidx Hemb Hsrc.
  - exists []. split; [reflexivity|]. intros k it Hk. inversion Hk.
  - destruct (IH (S i)) as (items & Hprep & Hitems).
    { intros k c Hk. specialize (Hidx (S k) c Hk).
      replace (S i + k)%nat with (i + S k)%nat by lia. exact Hidx. }
    { intros k c Hk. specialize (Hemb (S k) c Hk).
      replace (S i + k)%nat with (i + S k)%nat by lia. exact Hemb. }
    { intros c Hc. apply Hsrc. by right. }
    destruct (Hemb 0%nat chunk eq_refl) as [e He].
    destruct (Hsrc chunk ltac:(by left)) as [s Hs].
    rewrite Nat.add_0_r in He.
    cbn [prepare_data]. unfold prepare_item, source_prefix.
    rewrite Hs, (ndarray_row_lookup _ _ _ He), Hprep.
    eexists. split; [reflexivity|].
    intros [|k] it Hk.
    + injection Hk as <-. cbn [chunk_index embedding source].
      rewrite Nat.add_0_r, He. split_and!; [|eauto|reflexivity|eauto].
      specialize (Hidx 0%nat chunk eq_refl). rewrite Nat.add_0_r in Hidx.
      exact Hidx.
    + cbn [lookup list_lookup] in Hk.
      replace (i + S k)%nat with (S i + k)%nat by lia.
      apply Hitems, Hk.
Qed.

Lemma realign_items_same first (be : list V) (items : list (Item V)) :
  Forall (λ it, ∃ e, ndarray_row be (chunk_index it - chunk_index first) = inr e
                     ∧ embedding it = Some e) items →
  realign_items first (Some be) items = inr items.
Proof.
  induction 1 as [|it items (e & Hrow & He) _ IH]; [reflexivity|].
  cbn [realign_items]. unfold realign_item. rewrite Hrow, IH.
  destruct it. cbn in He. subst. reflexivity.
Qed.

(** With the indices in step, the second assignment of the vectors
    changes nothing. *)
Lemma realign_in_step base (embeddings : list V) data i :
  in_step base embeddings data →
  realign (slice data i (i + batch_size))
    (Some (slice embeddings i (i + batch_size)))
  = inr (slice data i (i + batch_size)).
Proof.
  intros Hstep. unfold realign.
  destruct (slice data i (i + batch_size)) as [|first rest] eqn:Hbatch;
    [reflexivity|].
  apply realign_items_same. apply Forall_lookup. intros k it Hk.
  rewrite <- Hbatch in Hk. apply slice_lookup_Some in Hk as [Hk Hlt].
  assert (Hfirst : data !! (i + 0)%nat = Some first).
  { apply (slice_lookup_Some data i (i + batch_size) 0).
    rewrite Hbatch. reflexivity. }
  destruct (Hstep _ _ Hk) as (Hidx & [e He] & Hemb & _).
  destruct (Hstep _ _ Hfirst) as (Hidx0 & _).
  exists e. split; [|congruence].
  replace (chunk_index it - chunk_index first) with (Z.of_nat k) by lia.
  apply ndarray_row_lookup. rewrite slice_lookup by exact Hlt. exact He.
Qed.

Lemma insert_all_stored (its : list (Item V)) : ∀ c : Collection V,
  Forall (λ it, is_Some (embedding it) ∧ ∃ s, source it = PStr s) its →
  ∃ added,
    insert_all its c
    = (inr (pk <$> added),
       mkCollection (rows c ++ added) (next_pk c + Z.of_nat (length its)))
    ∧ Forall2 stored_as its added.
Proof.
  induction its as [|it rest IH]; intros c Hall.
  - exists []. rewrite app_nil_r, Z.add_0_r. destruct c.
    split; [reflexivity|constructor].
  - apply Forall_cons in Hall as [[[e He] [s Hs]] Hrest].
    destruct (IH (mkCollection (rows c ++ [mkRow (next_pk c) it e])
                    (next_pk c + 1)) Hrest) as (added & Hrun & Hst).
    exists (mkRow (next_pk c) it e :: added).
    cbn [insert_all]. unfold bind at 1. rewrite insert_one_eq.
    unfold row_of. rewrite He, Hs. unfold bind, ret. rewrite Hrun.
    cbn [rows next_pk length fmap list_fmap pk].
    split.
    + rewrite <- app_assoc. f_equal. f_equal. lia.
    + constructor; [split; [reflexivity|exact He]|exact Hst].
Qed.

Lemma insert_batches_stored base (embeddings : list V) data starts :
  in_step base embeddings data →
  ∀ c : Collection V,
  ∃ added,
    insert_batches data (Some embeddings) starts c
    = (inr (pk <$> added),
       mkCollection (rows c ++ added)
         (next_pk c
          + Z.of_nat (length (concat ((λ i, slice data i (i + batch_size))
                                        <$> starts)))))
    ∧ Forall2 stored_as
        (concat ((λ i, slice data i (i + batch_size)) <$> starts)) added.
Proof.
  intros Hstep. induction starts as [|i rest IH]; intros c.
  - exists []. rewrite app_nil_r. cbn. rewrite Z.add_0_r. destruct c.
    split; [reflexivity|constructor].
  - assert (Hok : Forall (λ it, is_Some (embedding it)
                                ∧ ∃ s, source it = PStr s)
                    (slice data i (i + batch_size))).
    { apply Forall_forall. intros it Hit. apply slice_elem_of in Hit.
      apply list_elem_of_lookup in Hit as [k Hk].
      destruct (Hstep _ _ Hk) as (_ & Hsome & Hemb & Hsrc).
      rewrite Hemb. split; assumption. }
    destruct (insert_all_stored _ c Hok) as (added1 & Hrun1 & Hst1).
    destruct (IH (mkCollection (rows c ++ added1)
                    (next_pk c
                     + Z.of_nat (length (slice data i (i + batch_size))))))
      as (added2 & Hrun2 & Hst2).
    exists (added1 ++ added2).
    cbn [insert_batches]. unfold bind at 1. unfold insert_batch.
    cbn [fmap option_fmap option_map]. unfold bind at 1, lift.
    rewrite (realign_in_step base embeddings data i Hstep).
    unfold insert. rewrite Hrun1. unfold bind, ret. rewrite Hrun2.
    cbn [rows next_pk fmap list_fmap concat].
    split.
    + rewrite fmap_app, <- app_assoc, length_app. f_equal. f_equal.
      rewrite Nat2Z.inj_add, Z.add_assoc. reflexivity.
    + apply Forall2_app; assumption.
Qed.

Lemma insert_chunks_in_step (t d : Z)
    (chunks : list Chunk) (v : Z) (embeddings : list V) (c : Collection V)
    (base : Z) :
  length embeddings = length chunks →
  (∀ i chunk, chunks !! i = Some chunk →
     default (Z.of_nat i) (c_chunk_index chunk) = base + Z.of_nat i) →
  (∀ chunk, chunk ∈ chunks →
     ∃ s, default (PStr EmptyString) (c_source chunk) = PStr s) →
  ∃ c' added,
    insert_chunks t d chunks v (Some embeddings) c = (inr (pk <$> added), c')
    ∧ rows c' = rows c ++ added
    ∧ vector <$> added = embeddings
    ∧ Forall2 (λ chunk r, prepared t d v chunk (fields r)) chunks added
    ∧ ∀ i r, added !! i = Some r → chunk_index (fields r) = base + Z.of_nat i.
Proof.
  intros Hlen Hidx Hsrc.
  destruct (prepare_data_in_step t d v embeddings base chunks 0)
    as (data & Hprep & Hstep); [exact Hidx| |exact Hsrc|].
  { intros k chunk Hk. apply lookup_lt_is_Some. rewrite Hlen.
    eapply lookup_lt_Some, Hk. }
  pose proof (prepare_data_prepared _ _ _ _ _ _ _ Hprep) as Hprepared.
  destruct (insert_batches_stored base embeddings data
              (range_step 0 (length data) batch_size) Hstep c)
    as (added & Hrun & Hst).
  rewrite batches_cover in Hst.
  eexists _, added. unfold insert_chunks. unfold bind at 1, lift.
  rewrite Hprep, Hrun. split_and!; [reflexivity|reflexivity| | |].
  - apply list_eq. intros k. rewrite list_lookup_fmap.
    pose proof (Forall2_length _ _ _ Hst) as Hl1.
    pose proof (Forall2_length _ _ _ Hprepared) as Hl2.
    destruct (added !! k) as [r|] eqn:Hr.
    + destruct (Forall2_lookup_r _ _ _ _ _ Hst Hr) as (it & Hit & _ & He).
      destruct (Hstep _ _ Hit) as (_ & _ & Hemb & _).
      cbn [Nat.add] in Hemb. rewrite <- Hemb, He. reflexivity.
    + cbn. symmetry. apply lookup_ge_None. apply lookup_ge_None in Hr. lia.
  - eapply Forall2_compose; [|exact Hprepared|exact Hst].
    intros chunk it r Hp [-> _]. exact Hp.
  - intros i r Hr.
    destruct (Forall2_lookup_r _ _ _ _ _ Hst Hr) as (it & Hit & -> & _).
    destruct (Hstep _ _ Hit) as (Hidx' & _). exact Hidx'.
Qed.

(** X: when the chunk at every position [i] has the index [base + i]
    (or no index), every source is a string and there is one embedding
    row per chunk, [insert_chunks] returns, appends one row per chunk in
    order, and the row of the chunk at position [i] carries embedding
    row [i] and the index [base + i]; it answers the primary keys of
    these rows. *)
Theorem consecutive_chunks_keep_their_embeddings (t d : Z)
    (chunks : list Chunk) (v : Z) (embeddings : list V) (c : Collection V)
    (base : Z) :
  length embeddings = length chunks →
  (∀ i chunk, chunks !! i = Some chunk →
     default (Z.of_nat i) (c_chunk_index chunk) = base + Z.of_nat i) →
  (∀ chunk, chunk ∈ chunks →
     ∃ s, default (PStr EmptyString) (c_source chunk) = PStr s) →
  ∃ c' added,
    insert_chunks t d chunks v (Some embeddings) c = (inr (pk <$> added), c')
    ∧ rows c' = rows c ++ added
    ∧ vector <$> added = embeddings
    ∧ Forall2 (λ chunk r, prepared t d v chunk (fields r)) chunks added
    ∧ ∀ i r, added !! i = Some r → chunk_index (fields r) = base + Z.of_nat i.
Proof. apply insert_chunks_in_step. Qed.

End Facts.

End AlignmentFacts.

(** ** Chunking *)

Module ChunkFacts.
Import MilvusDB MilvusService DataIngestionService ExprFacts ExprSpec ChunkSpec.

Lemma str_take_drop (s : string) : ∀ n, str_take n s +:+ str_drop n s = s.
Proof.
  induction s as [|c r IH]; intros n; [reflexivity|].
  cbn [str_take str_drop]. destruct (n =? 0)%N; [reflexivity|].
  rewrite app_String, IH. reflexivity.
Qed.

Lemma str_drop_length_le (s : string) : ∀ n,
  (String.length (str_drop n s) ≤ String.length s)%nat.
Proof.
  induction s as [|c r IH]; intros n; [reflexivity|].
  cbn [str_drop]. destruct (n =? 0)%N; [reflexivity|].
  cbn [String.length]. specialize (IH (N.pred n)). lia.
Qed.

Lemma str_drop_shorter c r n :
  (0 < n)%N →
  (String.length (str_drop n (String c r)) < String.length (String c r))%nat.
Proof.
  intros Hn. cbn [str_drop].
  replace (n =? 0)%N with false by (symmetry; apply N.eqb_neq; lia).
  cbn [String.length]. pose proof (str_drop_length_le r (N.pred n)). lia.
Qed.

Lemma str_take_length (s : string) : ∀ n,
  (String.length (str_take n s) ≤ N.to_nat n)%nat.
Proof.
  induction s as [|c r IH]; intros n; [cbn; lia|].
  cbn [str_take]. destruct (N.eqb_spec n 0) as [->|Hn]; [cbn; lia|].
  cbn [String.length]. specialize (IH (N.pred n)). lia.
Qed.

Lemma join_empty_cons x l : join "" (x :: l) = x +:+ join "" l.
Proof.
  destruct l as [|y l]; cbn [join].
  - rewrite app_empty_r. reflexivity.
  - rewrite app_Empty. reflexivity.
Qed.

Lemma join_empty_app l1 l2 : join "" (l1 ++ l2) = join "" l1 +:+ join "" l2.
Proof.
  induction l1 as [|x l1 IH]; [reflexivity|].
  cbn [app]. rewrite !join_empty_cons, IH.
  induction x as [|c x IHx]; [reflexivity|].
  rewrite !app_String, IHx. reflexivity.
Qed.

(** The fixed-size pieces of a text: together they are the text, none is
    empty and none is longer than 4096 characters. *)
Lemma fixed_slices_spec fuel : ∀ text,
  (String.length text ≤ fuel)%nat →
  join "" (fixed_slices fuel text) = text
  ∧ Forall (λ piece, (1 ≤ String.length piece ≤ 4096)%nat)
      (fixed_slices fuel text).
Proof.
  induction fuel as [|fuel IH]; intros text Hlen.
  - destruct text; [split; [reflexivity|constructor]|cbn in Hlen; lia].
  - destruct text as [|c r]; [split; [reflexivity|constructor]|].
    cbn [fixed_slices].
    destruct (IH (str_drop 4096 (String c r))) as [Hjoin Hall].
    { pose proof (str_drop_shorter c r 4096 ltac:(lia)). lia. }
    split.
    + rewrite join_empty_cons, Hjoin. apply str_take_drop.
    + constructor; [|exact Hall]. split.
      * cbn [str_take]. cbn [N.eqb]. cbn [String.length]. lia.
      * pose proof (str_take_length (String c r) 4096). lia.
Qed.

Section Facts.

Context {V : Type} `{LlamaIndex V}.

(** The vocabulary, at the vector type of this section. *)
Local Abbreviation pieces_of := (ChunkSpec.pieces_of (V := V)).

Lemma chunk_pieces_spec docs doc doc_idx pieces :
  doc ∈ docs →
  ∀ chunk_idx chunks,
  numbered docs chunks →
  numbered docs (chunk_pieces doc doc_idx chunk_idx pieces chunks)
  ∧ c_text <$> chunk_pieces doc doc_idx chunk_idx pieces chunks
    = (c_text <$> chunks) ++ pieces.
Proof.
  intros Hdoc. induction pieces as [|piece rest IH]; intros chunk_idx chunks Hn.
  - cbn [chunk_pieces]. rewrite app_nil_r. split; [exact Hn|reflexivity].
  - cbn [chunk_pieces].
    destruct (IH (S chunk_idx)
                (chunks ++
                   [ {| c_text := piece;
                        c_source := Some (doc_source doc);
                        c_metadata :=
                          Some (if LLAMA_INDEX_AVAILABLE then
                                  <[ "chunk_index"%string :=
                                       PInt (Z.of_nat chunk_idx) ]>
                                    (<[ "doc_index"%string :=
                                          PInt (Z.of_nat doc_idx) ]>
                                       (doc_metadata doc))
                                else doc_metadata doc);
                        c_chunk_index := Some (Z.of_nat (length chunks)) |} ]))
      as [Hn' Htexts].
    { intros k chunk Hk. apply lookup_app_Some in Hk as [Hk|[Hge Hk]].
      - apply Hn, Hk.
      - apply list_lookup_singleton_Some in Hk as [Hk <-].
        cbn [c_chunk_index c_metadata c_source].
        replace k with (length chunks) by lia.
        split_and!; [reflexivity|eauto|eauto]. }
    split; [exact Hn'|].
    rewrite Htexts, fmap_app, <- app_assoc. reflexivity.
Qed.

Lemma chunk_docs_spec all docs :
  (∀ doc, doc ∈ docs → doc ∈ all) →
  ∀ doc_idx chunks,
  numbered all chunks →
  numbered all (chunk_docs docs doc_idx chunks)
  ∧ c_text <$> chunk_docs docs doc_idx chunks
    = (c_text <$> chunks) ++ (docs ≫= pieces_of).
Proof.
  induction docs as [|doc rest IH]; intros Hsub doc_idx chunks Hn.
  - cbn. rewrite app_nil_r. split; [exact Hn|reflexivity].
  - cbn [chunk_docs]. fold (pieces_of doc).
    destruct (chunk_pieces_spec all doc doc_idx (pieces_of doc)
                (Hsub doc ltac:(by left)) 0%nat chunks Hn) as [Hn1 Ht1].
    destruct (IH (λ d Hd, Hsub d ltac:(by right)) (S doc_idx) _ Hn1)
      as [Hn2 Ht2].
    split; [exact Hn2|].
    rewrite Ht2, Ht1, <- app_assoc. reflexivity.
Qed.

Lemma chunk_documents_pieces (docs : list Document) (tenant_id document_id : Z) :
  numbered docs (_chunk_documents docs tenant_id document_id)
  ∧ c_text <$> _chunk_documents docs tenant_id document_id
    = docs ≫= pieces_of.
Proof.
  unfold _chunk_documents.
  apply (chunk_docs_spec docs docs (λ d Hd, Hd) 0%nat []).
  intros k chunk Hk. inversion Hk.
Qed.

(** X: the chunk at position [k] of the result of [_chunk_documents]
    has [chunk_index] [k], metadata, and the source of one of the
    documents; the texts of the chunks are the pieces of the documents,
    in order.  No document gives no chunk. *)
Theorem chunk_documents_are_numbered (docs : list Document)
    (tenant_id document_id : Z) :
  numbered docs (_chunk_documents docs tenant_id document_id)
  ∧ c_text <$> _chunk_documents docs tenant_id document_id
    = docs ≫= pieces_of
  ∧ _chunk_documents [] tenant_id document_id = [].
Proof.
  destruct (chunk_documents_pieces docs tenant_id document_id) as [Hn Ht].
  split_and!; [exact Hn|exact Ht|reflexivity].
Qed.

(** X: without the llama-index package the chunks are consecutive
    pieces of the texts: joined, the chunk texts are the joined texts of
    the documents; no chunk is empty and none has more than 4096
    characters. *)
Theorem fallback_chunks_cover_the_text (docs : list Document)
    (tenant_id document_id : Z) :
  LLAMA_INDEX_AVAILABLE = false →
  join "" (c_text <$> _chunk_documents docs tenant_id document_id)
  = join "" (doc_text <$> docs)
  ∧ ∀ chunk, chunk ∈ _chunk_documents docs tenant_id document_id →
      (1 ≤ String.length (c_text chunk) ≤ 4096)%nat.
Proof.
  intros Hllama.
  destruct (chunk_documents_pieces docs tenant_id document_id) as [_ Ht].
  assert (Hp : ∀ doc,
            join "" (pieces_of doc) = doc_text doc
            ∧ Forall (λ piece, (1 ≤ String.length piece ≤ 4096)%nat)
                (pieces_of doc)).
  { intros doc. unfold pieces_of. rewrite Hllama.
    apply fixed_slices_spec. reflexivity. }
  split.
  - rewrite Ht. clear Ht. induction docs as [|doc rest IH]; [reflexivity|].
    cbn [mbind list_bind fmap list_fmap].
    rewrite join_empty_app, join_empty_cons, (proj1 (Hp doc)).
    f_equal. exact IH.
  - intros chunk Hchunk.
    assert (Hin : c_text chunk
                  ∈ c_text <$> _chunk_documents docs tenant_id document_id)
      by (apply list_elem_of_fmap; eauto).
    rewrite Ht in Hin. apply list_elem_of_bind in Hin as (doc & Hpiece & _).
    destruct (Hp doc) as [_ Hall].
    eapply Forall_forall in Hall; [exact Hall|exact Hpiece].
Qed.

End Facts.

End ChunkFacts.

(** ** Ingestion: what a pass stores, and what it never does *)

Module PassFacts.
Import MilvusDB MilvusService DataIngestionService ExprFacts InsertFacts IngestionFacts IngestionClaims StoreFacts AlignmentFacts ChunkFacts ExprSpec InsertSpec IngestionSpec BatchSpec AlignmentSpec ChunkSpec PassSpec.

Lemma indices_from_spec base chunks :
  indices_from base chunks = true →
  ∀ i chunk, chunks !! i = Some chunk →
    c_chunk_index chunk = Some (base + Z.of_nat i).
Proof.
  unfold indices_from. intros Hb i chunk Hi. apply bool_decide_eq_true_1 in Hb.
  apply (f_equal (λ l, l !! i)) in Hb.
  rewrite !list_lookup_fmap, Hi in Hb. cbn in Hb.
  rewrite lookup_seq_lt in Hb by (eapply lookup_lt_Some, Hi).
  cbn in Hb. congruence.
Qed.

Lemma sources_are_strings_spec chunks :
  sources_are_strings chunks = true →
  ∀ chunk, chunk ∈ chunks → ∃ src, c_source chunk = Some (PStr src).
Proof.
  unfold sources_are_strings. intros Hb chunk Hin.
  rewrite forallb_forall in Hb. apply list_elem_of_In in Hin.
  specialize (Hb chunk Hin).
  destruct (c_source chunk) as [[| |src|]|]; try discriminate. eauto.
Qed.

Section Facts.

Context {V : Type} `{Digest} `{LlamaIndex V} `{Web}.

(** The vocabulary, at the vector type of this section. *)
Local Abbreviation scalars := (InsertSpec.scalars (V := V)).
Local Abbreviation prepared := (InsertSpec.prepared (V := V)).
Local Abbreviation row_of := (InsertSpec.row_of (V := V)).
Local Abbreviation tagged := (InsertSpec.tagged (V := V)).
Local Abbreviation matching := (IngestionSpec.matching (V := V)).
Local Abbreviation stats_of := (IngestionSpec.stats_of (V := V)).
Local Abbreviation stored_hashes := (IngestionSpec.stored_hashes (V := V)).
Local Abbreviation job_chunks := (IngestionSpec.job_chunks (V := V)).
Local Abbreviation new_chunks := (IngestionSpec.new_chunks (V := V)).
Local Abbreviation marked := (IngestionSpec.marked (V := V)).
Local Abbreviation recorded := (IngestionSpec.recorded (V := V)).
Local Abbreviation store_new := (IngestionSpec.store_new (V := V)).
Local Abbreviation verdict := (IngestionSpec.verdict (V := V)).
Local Abbreviation logged := (IngestionSpec.logged (V := V)).
Local Abbreviation settle := (IngestionSpec.settle (V := V)).
Local Abbreviation on_track := (IngestionSpec.on_track (V := V)).
Local Abbreviation run_all := (BatchSpec.run_all (V := V)).
Local Abbreviation reader_of := (BatchSpec.reader_of (V := V)).
Local Abbreviation stored_as := (AlignmentSpec.stored_as (V := V)).
Local Abbreviation in_step := (AlignmentSpec.in_step (V := V)).
Local Abbreviation pieces_of := (ChunkSpec.pieces_of (V := V)).
Local Abbreviation status_of := (PassSpec.status_of (V := V)).

Lemma select_new_all (chunks : list Chunk) : select_new chunks ∅ = chunks.
Proof.
  unfold select_new. apply filter_all. apply Forall_forall.
  intros chunk _. apply not_elem_of_empty.
Qed.

(** Storing new chunks whose indices are in step. *)
Lemma store_new_in_step doc_info existing_stats new
    (s : DataIngestionService.t V) (embeddings : list V) (base : Z) :
  LLAMA_INDEX_AVAILABLE = true →
  get_text_embedding_batch (c_text <$> new) = inr embeddings →
  length embeddings = length new →
  (∀ i chunk, new !! i = Some chunk →
     c_chunk_index chunk = Some (base + Z.of_nat i)) →
  (∀ chunk, chunk ∈ new → ∃ src, c_source chunk = Some (PStr src)) →
  ∃ c' added,
    store_new doc_info existing_stats new s
    = (inr tt,
       recorded (chunk_count existing_stats + Z.of_nat (length new))
         (latest_version existing_stats + 1) (job_document_id doc_info)
         (mk c' (db s) (embedding_calls s ++ [c_text <$> new])))
    ∧ rows c' = rows (milvus s) ++ added
    ∧ vector <$> added = embeddings
    ∧ Forall2 (λ chunk r,
                 prepared (job_tenant_id doc_info) (job_document_id doc_info)
                   (latest_version existing_stats + 1) chunk (fields r))
        new added
    ∧ (∀ i r, added !! i = Some r →
         chunk_index (fields r) = base + Z.of_nat i)
    ∧ ∃ ks, insert_chunks (job_tenant_id doc_info) (job_document_id doc_info)
              new (latest_version existing_stats + 1) (Some embeddings)
              (milvus s)
            = (inr ks, c').
Proof.
  intros Hllama Hemb Hlen Hidx Hsrc.
  destruct (insert_chunks_in_step (job_tenant_id doc_info)
              (job_document_id doc_info) new
              (latest_version existing_stats + 1) embeddings (milvus s) base
              Hlen) as (c' & added & Hins & Hrows & Hvec & Hprep & Hat).
  { intros i chunk Hi. rewrite (Hidx i chunk Hi). reflexivity. }
  { intros chunk Hc. destruct (Hsrc chunk Hc) as [src ->]. eauto. }
  exists c', added.
  split_and!; [|exact Hrows|exact Hvec|exact Hprep|exact Hat|eauto].
  unfold store_new. unfold bind at 1. unfold _compute_embeddings.
  rewrite Hllama. cbn [negb].
  cbv beta iota zeta delta [bind modify lift]. rewrite Hemb.
  unfold zoom at 1. cbn [milvus]. rewrite Hins.
  unfold update_document, modify. reflexivity.
Qed.

(** X: when the new chunks of a document are consecutive chunks of it,
    their sources are strings and the embedding model answers with one
    vector per new chunk, the pass returns, embeds the new chunks in one
    call, appends one row per new chunk with the next version and the
    chunk's own vector, and records 'ready', the old count plus the
    number of new chunks, and the next version; rows and table rows of
    other documents are as before. *)
Theorem delta_of_consecutive_chunks_is_stored (doc_info : Job)
    (s : DataIngestionService.t V) (embeddings : list V) (base : Z) :
  new_chunks doc_info s ≠ [] →
  LLAMA_INDEX_AVAILABLE = true →
  get_text_embedding_batch (c_text <$> new_chunks doc_info s) = inr embeddings →
  length embeddings = length (new_chunks doc_info s) →
  (∀ i chunk, new_chunks doc_info s !! i = Some chunk →
     c_chunk_index chunk = Some (base + Z.of_nat i)) →
  (∀ chunk, chunk ∈ new_chunks doc_info s →
     ∃ src, c_source chunk = Some (PStr src)) →
  ∃ s' added,
    _process_document doc_info s = (inr tt, s')
    ∧ rows (milvus s') = rows (milvus s) ++ added
    ∧ vector <$> added = embeddings
    ∧ Forall2 (λ chunk r,
                 text (fields r) = str_take 65535 (c_text chunk)
                 ∧ Some (chunk_index (fields r)) = c_chunk_index chunk
                 ∧ MilvusDB.tenant_id (fields r) = job_tenant_id doc_info
                 ∧ MilvusDB.document_id (fields r) = job_document_id doc_info
                 ∧ chunk_version (fields r)
                   = latest_version
                       (stats_of (matching (milvus s) (job_tenant_id doc_info)
                                    (job_document_id doc_info))) + 1)
        (new_chunks doc_info s) added
    ∧ embedding_calls s'
      = embedding_calls s ++ [c_text <$> new_chunks doc_info s]
    ∧ ∀ d,
        Models.documents (db s') !! d
        = if decide (d = job_document_id doc_info)
          then with_result
                 (chunk_count
                    (stats_of (matching (milvus s) (job_tenant_id doc_info)
                                 (job_document_id doc_info)))
                  + Z.of_nat (length (new_chunks doc_info s)))
                 (latest_version
                    (stats_of (matching (milvus s) (job_tenant_id doc_info)
                                 (job_document_id doc_info))) + 1)
               <$> Models.documents (db s) !! d
          else Models.documents (db s) !! d.
Proof.
  intros Hne Hllama Hemb Hlen Hidx Hsrc.
  destruct (store_new_in_step doc_info
              (stats_of (matching (milvus s) (job_tenant_id doc_info)
                           (job_document_id doc_info)))
              (new_chunks doc_info s) s embeddings base
              Hllama Hemb Hlen Hidx Hsrc)
    as (c' & added & Hstore & Hrows & Hvec & Hprep & Hat & _).
  rewrite process_document_eq, process_body_eq.
  destruct (new_chunks doc_info s) as [|c0 rest] eqn:Hnew; [done|].
  rewrite Hstore. eexists _, added.
  split_and!; [reflexivity|exact Hrows|exact Hvec| |reflexivity|].
  - apply Forall2_same_length_lookup. split; [eapply Forall2_length, Hprep|].
    intros i chunk r Hchunk Hr.
    destruct (Forall2_lookup_lr _ _ _ _ _ _ Hprep Hchunk Hr)
      as (Ht & Hd & Hv & _ & Htext & _).
    split_and!; [exact Htext| |exact Ht|exact Hd|exact Hv].
    rewrite (Hat i r Hr), (Hidx i chunk Hchunk). reflexivity.
  - intros d. rewrite recorded_documents. reflexivity.
Qed.

(** X: the first pass over a document that has no stored row, when the
    loader yields chunks whose sources are strings and the embedding
    model answers with one vector per chunk: the pass returns, every
    chunk is stored with version 1, its own position as index and its
    own vector, the table row says 'ready', the number of chunks and
    version 1, and the statistics of the store say the same. *)
Theorem first_ingestion_stores_every_chunk (doc_info : Job)
    (s : DataIngestionService.t V) (embeddings : list V) :
  matching (milvus s) (job_tenant_id doc_info) (job_document_id doc_info) = [] →
  job_chunks doc_info ≠ [] →
  LLAMA_INDEX_AVAILABLE = true →
  get_text_embedding_batch (c_text <$> job_chunks doc_info) = inr embeddings →
  length embeddings = length (job_chunks doc_info) →
  (∀ chunk, chunk ∈ job_chunks doc_info →
     ∃ src, c_source chunk = Some (PStr src)) →
  ∃ s' added,
    _process_document doc_info s = (inr tt, s')
    ∧ rows (milvus s') = rows (milvus s) ++ added
    ∧ vector <$> added = embeddings
    ∧ Forall2 (λ chunk r,
                 prepared (job_tenant_id doc_info) (job_document_id doc_info)
                   1 chunk (fields r))
        (job_chunks doc_info) added
    ∧ (∀ i r, added !! i = Some r → chunk_index (fields r) = Z.of_nat i)
    ∧ embedding_calls s' = embedding_calls s ++ [c_text <$> job_chunks doc_info]
    ∧ Models.documents (db s') !! job_document_id doc_info
      = with_result (Z.of_nat (length (job_chunks doc_info))) 1
        <$> Models.documents (db s) !! job_document_id doc_info
    ∧ get_document_stats (job_tenant_id doc_info) (job_document_id doc_info)
        (milvus s')
      = (inr {| chunk_count := Z.of_nat (length (job_chunks doc_info));
                latest_version := 1 |}, milvus s').
Proof.
  intros Hempty Hne Hllama Hemb Hlen Hsrc.
  assert (Hnew : new_chunks doc_info s = job_chunks doc_info).
  { unfold new_chunks, stored_hashes. rewrite Hempty. apply select_new_all. }
  assert (Hidx : ∀ i chunk, job_chunks doc_info !! i = Some chunk →
            c_chunk_index chunk = Some (0 + Z.of_nat i)).
  { intros i chunk Hi.
    destruct (chunk_documents_pieces
                (_load_document (job_file_type doc_info)
                   (job_file_path doc_info) (job_source_url doc_info))
                (job_tenant_id doc_info) (job_document_id doc_info))
      as [Hnum _].
    destruct (Hnum i chunk Hi) as (-> & _). reflexivity. }
  destruct (store_new_in_step doc_info (stats_of (@nil (Row V)))
              (job_chunks doc_info) s embeddings 0
              Hllama Hemb Hlen Hidx Hsrc)
    as (c' & added & Hstore & Hrows & Hvec & Hprep & Hat & _).
  rewrite process_document_eq, process_body_eq, Hnew, Hempty.
  destruct (job_chunks doc_info) as [|c0 rest] eqn:Hchunks; [done|].
  rewrite Hstore. eexists _, added.
  assert (Hsame : length added = length (c0 :: rest))
    by (symmetry; eapply Forall2_length, Hprep).
  split_and!; [reflexivity|exact Hrows|exact Hvec|exact Hprep| |reflexivity| |].
  - intros i r Hr. rewrite (Hat i r Hr). lia.
  - rewrite recorded_documents, decide_True by reflexivity. reflexivity.
  - cbn [recorded set_db milvus].
    destruct (stats_after_append (job_tenant_id doc_info)
                (job_document_id doc_info) 1 (milvus s) c' added Hrows)
      as [Hstats _].
    + apply Forall_forall. intros r Hr.
      destruct (Forall2_elem_of_r _ _ _ _ Hprep Hr) as (chunk & _ & Hp).
      destruct Hp as (Ht & Hd & _). split; assumption.
    + apply Forall_forall. intros r Hr.
      destruct (Forall2_elem_of_r _ _ _ _ Hprep Hr) as (chunk & _ & Hp).
      destruct Hp as (_ & _ & Hv & _). exact Hv.
    + intros ->. discriminate Hsame.
    + rewrite Hempty. cbn. lia.
    + rewrite Hstats, Hempty, Hsame. reflexivity.
Qed.

(** X: after a pass that found new chunks and left the document
    'ready', the table and the store agree: the statistics of the store
    are the chunk count and the version of the table row. *)
Theorem ready_document_matches_store (doc_info : Job)
    (s s' : DataIngestionService.t V) (doc' : DocModel) :
  _process_document doc_info s = (inr tt, s') →
  new_chunks doc_info s ≠ [] →
  Models.documents (db s') !! job_document_id doc_info = Some doc' →
  Models.d_status doc' = "ready"%string →
  get_document_stats (job_tenant_id doc_info) (job_document_id doc_info)
    (milvus s')
  = (inr {| chunk_count := Models.d_chunk_count doc';
            latest_version := Models.d_version doc' |}, milvus s').
Proof.
  intros Hrun Hne Hdoc Hready.
  rewrite process_document_eq, process_body_eq in Hrun.
  destruct (new_chunks doc_info s) as [|c0 rest] eqn:Hnew; [done|].
  destruct (store_new _ _ _ s) as [[e|[]] s1] eqn:Hstore.
  - injection Hrun as <-. rewrite marked_documents in Hdoc.
    rewrite decide_True in Hdoc by reflexivity.
    destruct (Models.documents (db s1) !! job_document_id doc_info) as [doc|];
      [|discriminate Hdoc].
    injection Hdoc as <-. discriminate Hready.
  - injection Hrun as <-.
    destruct (store_new_inv _ _ _ _ _ _ Hstore)
      as (added & Hrows & Htag & _ & Hprep & Hdb & _).
    rewrite Hdb, recorded_documents, decide_True in Hdoc by reflexivity.
    destruct (Models.documents (db s) !! job_document_id doc_info) as [doc|];
      [|discriminate Hdoc].
    injection Hdoc as <-. cbn [with_result Models.d_chunk_count Models.d_version].
    assert (Hsame : length added = length (c0 :: rest))
      by (symmetry; eapply Forall2_length, Hprep).
    destruct (stats_after_append (job_tenant_id doc_info)
                (job_document_id doc_info)
                (latest_version
                   (stats_of (matching (milvus s) (job_tenant_id doc_info)
                                (job_document_id doc_info))) + 1)
                (milvus s) (milvus s1) added Hrows Htag)
      as [Hstats _].
    + apply Forall_forall. intros r Hr.
      destruct (Forall2_elem_of_r _ _ _ _ Hprep Hr) as (chunk & _ & Hp).
      destruct Hp as (_ & _ & Hv & _). exact Hv.
    + intros ->. discriminate Hsame.
    + lia.
    + rewrite Hstats, Hsame. reflexivity.
Qed.

(** A pass only appends rows, and they carry its tenant and document. *)
Lemma process_document_appends doc_info (s : DataIngestionService.t V) :
  ∃ added,
    rows (milvus (_process_document doc_info s).2) = rows (milvus s) ++ added
    ∧ Forall (tagged (job_tenant_id doc_info) (job_document_id doc_info)) added.
Proof.
  rewrite process_document_eq, process_body_eq.
  destruct (new_chunks doc_info s) as [|c0 rest].
  - exists []. rewrite app_nil_r. split; [reflexivity|constructor].
  - destruct (store_new _ _ _ s) as [[e|[]] s1] eqn:Hstore;
      destruct (store_new_inv _ _ _ _ _ _ Hstore) as (added & Hrows & Htag & _);
      exists added; split; assumption.
Qed.

Lemma run_all_appends batch : ∀ s : DataIngestionService.t V,
  ∃ added,
    rows (milvus (run_all batch s)) = rows (milvus s) ++ added
    ∧ Forall (λ r, ∃ doc_info, doc_info ∈ batch
                ∧ tagged (job_tenant_id doc_info) (job_document_id doc_info) r)
        added.
Proof.
  induction batch as [|doc_info batch IH]; intros s.
  - exists []. rewrite app_nil_r. split; [reflexivity|constructor].
  - rewrite run_all_cons.
    destruct (process_document_appends doc_info s) as (added1 & Hrows1 & Htag1).
    destruct (IH (_process_document doc_info s).2) as (added2 & Hrows2 & Htag2).
    exists (added1 ++ added2). split.
    + rewrite Hrows2, Hrows1, <- app_assoc. reflexivity.
    + apply Forall_app. split.
      * eapply Forall_impl; [exact Htag1|]. intros r Hr.
        exists doc_info. split; [by left|exact Hr].
      * eapply Forall_impl; [exact Htag2|]. intros r (j & Hj & Hr).
        exists j. split; [by right|exact Hr].
Qed.

Lemma process_batch_run_all batch (s s' : DataIngestionService.t V) :
  _process_batch batch s = (inr tt, s') → s' = run_all batch s.
Proof.
  destruct (process_batch_outcomes batch s) as (s1 & Hrun & _).
  unfold _process_batch, bind, ret, run_all. rewrite Hrun.
  intros [= <-]. reflexivity.
Qed.

(** X: a batch never removes or rewrites a stored row: the collection
    afterwards is the collection before, followed by rows that carry
    the tenant and the document of a job of the batch; so the hashes
    stored for any document only grow. *)
Theorem batch_only_appends (batch : list Job) (s : DataIngestionService.t V) :
  ∃ s' added,
    _process_batch batch s = (inr tt, s')
    ∧ rows (milvus s') = rows (milvus s) ++ added
    ∧ Forall (λ r, ∃ doc_info, doc_info ∈ batch
                ∧ MilvusDB.tenant_id (fields r) = job_tenant_id doc_info
                ∧ MilvusDB.document_id (fields r) = job_document_id doc_info)
        added
    ∧ ∀ tenant_id document_id,
        stored_hashes (milvus s) tenant_id document_id
        ⊆ stored_hashes (milvus s') tenant_id document_id.
Proof.
  destruct (process_batch_outcomes batch s) as (s' & Hrun & _).
  assert (Hbatch : _process_batch batch s = (inr tt, s'))
    by (unfold _process_batch, bind, ret; rewrite Hrun; reflexivity).
  destruct (run_all_appends batch s) as (added & Hrows & Htag).
  rewrite <- (process_batch_run_all _ _ _ Hbatch) in Hrows.
  exists s', added. split_and!; [exact Hbatch|exact Hrows| |].
  - eapply Forall_impl; [exact Htag|]. intros r (j & Hj & Ht & Hd). eauto.
  - intros t d. eapply stored_hashes_mono, Hrows.
Qed.

(** X: content that a pass has stored and left 'ready' is never stored
    again: whatever batch is processed afterwards, also one that stores
    other content for the same document, a later pass over the same
    content embeds nothing, stores nothing and leaves version and chunk
    count as they are; it only writes 'ready'. *)
Theorem known_content_is_not_stored_again (doc_info : Job)
    (batch : list Job) (s s1 s2 : DataIngestionService.t V) :
  _process_document doc_info s = (inr tt, s1) →
  status_of s1 (job_document_id doc_info) = Some "ready"%string →
  _process_batch batch s1 = (inr tt, s2) →
  ∃ s3,
    _process_document doc_info s2 = (inr tt, s3)
    ∧ milvus s3 = milvus s2
    ∧ embedding_calls s3 = embedding_calls s2
    ∧ ∀ d,
        Models.documents (db s3) !! d
        = if decide (d = job_document_id doc_info)
          then with_status "ready" <$> Models.documents (db s2) !! d
          else Models.documents (db s2) !! d.
Proof.
  intros Hrun Hready Hbatch.
  pose proof (ready_means_stored _ _ _ Hrun Hready) as Hstored.
  apply process_batch_run_all in Hbatch. subst s2.
  destruct (run_all_appends batch s1) as (added & Hrows & _).
  assert (Hnew : new_chunks doc_info (run_all batch s1) = []).
  { unfold new_chunks. apply select_new_nil. intros chunk Hchunk.
    eapply stored_hashes_mono; [exact Hrows|]. apply Hstored, Hchunk. }
  rewrite process_document_eq, process_body_eq, Hnew.
  eexists. split_and!; [reflexivity|reflexivity|reflexivity|].
  intros d. apply marked_documents.
Qed.

Lemma load_document_unknown file_type file_path source_url :
  file_type ∉ known_types →
  _load_document file_type file_path source_url = [].
Proof.
  intros Hnot. unfold _load_document.
  assert (Hne : ∀ ty, ty ∈ known_types → String.eqb file_type ty = false).
  { intros ty Hty. apply String.eqb_neq. intros ->. exact (Hnot Hty). }
  unfold known_types in Hne.
  rewrite !Hne by (repeat (first [by left | right])).
  rewrite bool_decide_eq_false_2; [reflexivity|].
  intros Him. apply Hnot. unfold known_types.
  do 5 right. exact Him.
Qed.

Lemma load_document_unavailable file_type file_path source_url :
  LLAMA_INDEX_AVAILABLE = false →
  _load_document file_type file_path source_url = [].
Proof.
  intros Hllama.
  unfold _load_document, _load_pdf, _load_csv, _load_txt, _load_pptx,
    _load_url, _load_image.
  rewrite Hllama. cbn [negb].
  repeat (destruct (String.eqb _ _); [reflexivity|]).
  destruct (bool_decide _); reflexivity.
Qed.

(** X: a document for which nothing is loaded is marked 'ready' with
    nothing embedded and nothing stored.  Nothing is loaded for a file
    type without a loader, for any document when the llama-index package
    is missing, and for a pdf or text file whose reader raises. *)
Theorem nothing_loaded_is_marked_ready :
  (∀ file_type file_path source_url,
     file_type ∉ known_types →
     _load_document file_type file_path source_url = [])
  ∧ (∀ file_type file_path source_url,
       LLAMA_INDEX_AVAILABLE = false →
       _load_document file_type file_path source_url = [])
  ∧ (∀ file_path source_url e,
       SimpleDirectoryReader_load_data file_path = inl e →
       _load_document "pdf" file_path source_url = []
       ∧ _load_document "txt" file_path source_url = [])
  ∧ ∀ doc_info (s : DataIngestionService.t V),
      _load_document (job_file_type doc_info) (job_file_path doc_info)
        (job_source_url doc_info) = [] →
      ∃ s', _process_document doc_info s = (inr tt, s')
        ∧ milvus s' = milvus s
        ∧ embedding_calls s' = embedding_calls s
        ∧ ∀ d,
            Models.documents (db s') !! d
            = if decide (d = job_document_id doc_info)
              then with_status "ready" <$> Models.documents (db s) !! d
              else Models.documents (db s) !! d.
Proof.
  split_and!.
  - apply load_document_unknown.
  - apply load_document_unavailable.
  - intros file_path source_url e He.
    unfold _load_document, _load_pdf, _load_txt. cbn [String.eqb Ascii.eqb].
    cbn. rewrite He. destruct LLAMA_INDEX_AVAILABLE; split; reflexivity.
  - intros doc_info s Hload.
    assert (Hnew : new_chunks doc_info s = []).
    { unfold new_chunks, job_chunks. rewrite Hload. reflexivity. }
    rewrite process_document_eq, process_body_eq, Hnew.
    eexists. split_and!; [reflexivity|reflexivity|reflexivity|].
    intros d. apply marked_documents.
Qed.

End Facts.

End PassFacts.

(** ** The properties at concrete inputs *)

Module CoverageScenario.
Import MilvusDB MilvusService DataIngestionService InsertFacts InsertClaims IngestionFacts IngestionClaims ScopeFacts SearchScenario IngestionScenario StoreFacts AlignmentFacts ChunkFacts PassFacts InsertSpec InsertInputs IngestionSpec BatchSpec ScopeSpec SharedCollection SmallCorpus AlignmentSpec ChunkSpec PassSpec CoverageInputs.

Lemma search_scoped_witness :
  (∃ results, found.1 = inr results ∧ length results = 1%nat)
  ∧ found.2 = shared
  ∧ (5 ≤ 0 → ∃ e, found.1 = inl e)
  ∧ ∀ results, found.1 = inr results →
      0 < 5
      ∧ ∃ hits,
          results = format_hit <$> hits
          ∧ (length hits ≤ Z.to_nat 5)%nat
          ∧ ∀ h, h ∈ hits →
              h.2 ∈ rows shared ∧ MilvusDB.tenant_id (fields h.2) = 1.
Proof.
  split; [eexists; split; [vm_compute; reflexivity|reflexivity]|].
  apply (search_scoped (H := squared_l2) 1 [0; 0] 5 None shared found.2 found.1);
    [left; reflexivity|vm_compute; reflexivity].
Defined.

Lemma get_document_stats_counts_all_versions_witness :
  counted.1 = inr {| chunk_count := 2; latest_version := 1 |}
  ∧ counted.2 = two_rows
  ∧ ∀ st, counted.1 = inr st →
      chunk_count st = Z.of_nat (length (matching two_rows 1 7))
      ∧ (matching two_rows 1 7 = [] → latest_version st = 0)
      ∧ (matching two_rows 1 7 ≠ [] →
           ∃ r, r ∈ matching two_rows 1 7
                ∧ chunk_version (fields r) = latest_version st)
      ∧ ∀ r, r ∈ rows two_rows →
          MilvusDB.tenant_id (fields r) = 1 →
          MilvusDB.document_id (fields r) = 7 →
          chunk_version (fields r) ≤ latest_version st.
Proof.
  split; [vm_compute; reflexivity|].
  apply (get_document_stats_counts_all_versions 1 7 two_rows counted.2 counted.1).
  vm_compute. reflexivity.
Defined.

Lemma insert_chunks_then_stats_witness :
  get_document_stats 1 7 two_rows
  = (inr {| chunk_count := 0 + Z.of_nat (length pair_of_chunks);
            latest_version := 1 |}, two_rows)
  ∧ ∀ t' d', (t', d') ≠ (1, 7) → matching two_rows t' d' = matching no_rows t' d'.
Proof.
  apply (insert_chunks_then_stats 1 7 pair_of_chunks 1 (Some [[10]; [20]])
           no_rows two_rows [0; 1] {| chunk_count := 0; latest_version := 0 |}).
  - vm_compute. reflexivity.
  - discriminate.
  - vm_compute. reflexivity.
  - cbn. lia.
Defined.

Lemma consecutive_chunks_keep_their_embeddings_witness :
  ∃ c' added,
    insert_chunks 1 7 pair_of_chunks 1 (Some [[10]; [20]]) no_rows
    = (inr (pk <$> added), c')
    ∧ rows c' = rows no_rows ++ added
    ∧ vector <$> added = [[10]; [20]]
    ∧ Forall2 (λ chunk r, prepared 1 7 1 chunk (fields r)) pair_of_chunks added
    ∧ ∀ i r, added !! i = Some r → chunk_index (fields r) = 5 + Z.of_nat i.
Proof.
  apply (consecutive_chunks_keep_their_embeddings 1 7 pair_of_chunks 1
           [[10]; [20]] no_rows 5).
  - reflexivity.
  - intros [|[|i]] chunk; cbn; intros [= <-]; reflexivity.
  - intros chunk Hc. exists EmptyString.
    assert (Hall : Forall (λ c, default (PStr EmptyString) (c_source c)
                                = PStr EmptyString) pair_of_chunks)
      by (repeat constructor).
    eapply Forall_forall in Hall; [exact Hall|exact Hc].
Defined.

Lemma fallback_chunks_cover_the_text_witness :
  join "" (c_text <$> _chunk_documents (H0 := no_llama)
                        [ {| doc_text := "hello"; doc_metadata := ∅ |};
                          {| doc_text := ""; doc_metadata := ∅ |};
                          {| doc_text := "world"; doc_metadata := ∅ |} ] 1 7)
  = join "" ["hello"; ""; "world"]%string
  ∧ ∀ chunk,
      chunk ∈ _chunk_documents (H0 := no_llama)
                [ {| doc_text := "hello"; doc_metadata := ∅ |};
                  {| doc_text := ""; doc_metadata := ∅ |};
                  {| doc_text := "world"; doc_metadata := ∅ |} ] 1 7 →
      (1 ≤ String.length (c_text chunk) ≤ 4096)%nat.
Proof.
  apply (fallback_chunks_cover_the_text (H := no_llama)
           [ {| doc_text := "hello"; doc_metadata := ∅ |};
             {| doc_text := ""; doc_metadata := ∅ |};
             {| doc_text := "world"; doc_metadata := ∅ |} ] 1 7).
  reflexivity.
Defined.

Lemma first_ingestion_stores_every_chunk_witness :
  ∃ s' added,
    _process_document (job 7 "v1.txt") start = (inr tt, s')
    ∧ rows (milvus s') = rows (milvus start) ++ added
    ∧ vector <$> added = [[1; 97]; [1; 98]; [1; 99]]
    ∧ Forall2 (λ chunk r, prepared 1 7 1 chunk (fields r))
        (job_chunks (job 7 "v1.txt")) added
    ∧ (∀ i r, added !! i = Some r → chunk_index (fields r) = Z.of_nat i)
    ∧ embedding_calls s'
      = embedding_calls start ++ [c_text <$> job_chunks (job 7 "v1.txt")]
    ∧ Models.documents (db s') !! 7
      = with_result (Z.of_nat (length (job_chunks (job 7 "v1.txt")))) 1
        <$> Models.documents (db start) !! 7
    ∧ get_document_stats 1 7 (milvus s')
      = (inr {| chunk_count := Z.of_nat (length (job_chunks (job 7 "v1.txt")));
                latest_version := 1 |}, milvus s').
Proof.
  apply (first_ingestion_stores_every_chunk (job 7 "v1.txt") start
           [[1; 97]; [1; 98]; [1; 99]]).
  - vm_compute. reflexivity.
  - intros E. vm_compute in E. discriminate E.
  - reflexivity.
  - vm_compute. reflexivity.
  - vm_compute. reflexivity.
  - apply sources_are_strings_spec. vm_compute. reflexivity.
Defined.

Lemma delta_of_consecutive_chunks_is_stored_witness :
  ∃ s' added,
    _process_document (job 7 "v3.txt") ingested = (inr tt, s')
    ∧ rows (milvus s') = rows (milvus ingested) ++ added
    ∧ vector <$> added = [[1; 122]]
    ∧ Forall2 (λ chunk r,
                 text (fields r) = str_take 65535 (c_text chunk)
                 ∧ Some (chunk_index (fields r)) = c_chunk_index chunk
                 ∧ MilvusDB.tenant_id (fields r) = 1
                 ∧ MilvusDB.document_id (fields r) = 7
                 ∧ chunk_version (fields r)
                   = latest_version (stats_of (matching (milvus ingested) 1 7)) + 1)
        (new_chunks (job 7 "v3.txt") ingested) added
    ∧ embedding_calls s'
      = embedding_calls ingested
          ++ [c_text <$> new_chunks (job 7 "v3.txt") ingested]
    ∧ ∀ d,
        Models.documents (db s') !! d
        = if decide (d = 7)
          then with_result
                 (chunk_count (stats_of (matching (milvus ingested) 1 7))
                  + Z.of_nat (length (new_chunks (job 7 "v3.txt") ingested)))
                 (latest_version (stats_of (matching (milvus ingested) 1 7)) + 1)
               <$> Models.documents (db ingested) !! d
          else Models.documents (db ingested) !! d.
Proof.
  apply (delta_of_consecutive_chunks_is_stored (job 7 "v3.txt") ingested
           [[1; 122]] 2).
  - intros E. vm_compute in E. discriminate E.
  - reflexivity.
  - vm_compute. reflexivity.
  - vm_compute. reflexivity.
  - apply indices_from_spec. vm_compute. reflexivity.
  - apply sources_are_strings_spec. vm_compute. reflexivity.
Defined.

Lemma ready_document_matches_store_witness :
  get_document_stats 1 7 (milvus ingested)
  = (inr {| chunk_count := 3; latest_version := 1 |}, milvus ingested).
Proof.
  apply (ready_document_matches_store (job 7 "v1.txt") start ingested
           (Models.mkDocument 1 "notes" "ready" 3 1)).
  - vm_compute. reflexivity.
  - intros E. vm_compute in E. discriminate E.
  - vm_compute. reflexivity.
  - reflexivity.
Defined.

Lemma known_content_is_not_stored_again_witness :
  ∃ s3,
    _process_document (job 7 "v1.txt") changed = (inr tt, s3)
    ∧ milvus s3 = milvus changed
    ∧ embedding_calls s3 = embedding_calls changed
    ∧ ∀ d,
        Models.documents (db s3) !! d
        = if decide (d = 7)
          then with_status "ready" <$> Models.documents (db changed) !! d
          else Models.documents (db changed) !! d.
Proof.
  apply (known_content_is_not_stored_again (job 7 "v1.txt")
           [job 7 "v3.txt"] start ingested changed).
  - vm_compute. reflexivity.
  - vm_compute. reflexivity.
  - vm_compute. reflexivity.
Defined.

End CoverageScenario.

(** ** The inference service *)

Module InferenceFacts.
Import Models MilvusDB MilvusService vLLMService LoRAManager InferenceService ExprFacts LoRAFacts LoRAClaims ScopeFacts NameFacts ManagerFacts ExprSpec LoRASpec LoRAOutcomes ScopeSpec NameSpec ManagerSpec InferenceSpec.

Section Facts.

Context {V P : Type} `{Metric V} `{Server} `{Backend V P}.

Lemma inference_llm_no_model tenant_id model_id user_input adapter_ids use_rag
    (params : P) (s : InferenceService.t V) :
  model_of s tenant_id model_id = None →
  inference_llm tenant_id model_id user_input adapter_ids use_rag params s
  = (inl (ValueError ("Model " +:+ int_str model_id
                        +:+ " not found for tenant " +:+ int_str tenant_id)),
     s).
Proof.
  unfold model_of, inference_llm. unfold bind at 1. unfold get. cbv zeta.
  destruct (models (db (lora_manager s)) !! model_id) as [model|];
    [|intros _; reflexivity].
  change (option_list (Some model)) with [model].
  rewrite filter_cons, filter_nil.
  destruct (decide (m_tenant_id model = tenant_id)); [discriminate|].
  intros _. reflexivity.
Qed.

(** [inference_llm] for a model of the tenant, step by step. *)
Lemma inference_llm_eq tenant_id model_id user_input adapter_ids use_rag
    (params : P) (s : InferenceService.t V) model :
  model_of s tenant_id model_id = Some model →
  inference_llm tenant_id model_id user_input adapter_ids use_rag params s
  = match base_models (db (lora_manager s)) !! m_base_model_id model with
    | None => (inl (ValueError "Base model not found"), s)
    | Some _ =>
        match context_step use_rag tenant_id user_input s with
        | (inl e, s1) => (inl e, s1)
        | (inr context, s1) =>
            match ensure_base_model_loaded (m_base_model_id model)
                    (lora_manager s1) with
            | (inl e, m1) => (inl e, set_lora_manager m1 s1)
            | (inr model_name, m1) =>
                match adapters_step model_id adapter_ids m1 with
                | (inl e, m2) =>
                    (inl e, set_lora_manager m2 (set_lora_manager m1 s1))
                | (inr adapter_names, m2) =>
                    let prompt :=
                      build_prompt (system_prompt s tenant_id) context
                        user_input in
                    let headers := headers_of (default [] adapter_names) in
                    (match chat_completions_create model_name prompt params
                             headers with
                     | inl e => inl e
                     | inr r =>
                         inr {| result := r;
                                context := if use_rag then Some context else None;
                                answer_model_id := model_id;
                                adapters_used := default [] adapter_names |}
                     end,
                     requested (model_name, prompt, headers)
                       (set_lora_manager m2 (set_lora_manager m1 s1)))
                end
            end
        end
    end.
Proof.
  unfold model_of. intros Hm. unfold inference_llm. unfold bind at 1. unfold get.
  cbv zeta.
  destruct (models (db (lora_manager s)) !! model_id) as [model'|];
    [|discriminate].
  change (option_list (Some model')) with [model'].
  rewrite filter_cons, filter_nil.
  destruct (decide (m_tenant_id model' = tenant_id)) as [Htenant|];
    [|discriminate].
  injection Hm as ->.
  destruct (base_models (db (lora_manager s)) !! m_base_model_id model);
    [|reflexivity].
  fold (system_prompt s tenant_id). fold (context_step use_rag tenant_id user_input).
  unfold bind at 1.
  destruct (context_step use_rag tenant_id user_input s) as [[e|ctx] s1];
    [reflexivity|].
  unfold bind at 1. unfold zoom at 1.
  destruct (ensure_base_model_loaded (m_base_model_id model) (lora_manager s1))
    as [[e|name] m1]; [reflexivity|].
  unfold bind at 1. unfold adapters_step.
  destruct adapter_ids as [[|adapter_id rest]|].
  - cbv beta iota zeta delta [ret bind inference modify lift requested headers_of
                                default from_option id set_lora_manager].
    cbn [milvus lora_manager prompt_templates embed_model completions].
    destruct (chat_completions_create _ _ _ _); reflexivity.
  - cbv beta iota zeta delta [ret bind zoom inference modify lift requested
                                default from_option id set_lora_manager].
    cbn [milvus lora_manager prompt_templates embed_model completions].
    destruct (load_adapters_for_inference model_id (adapter_id :: rest) m1)
      as [[e|names] m2]; [reflexivity|].
    cbn [milvus lora_manager prompt_templates embed_model completions].
    destruct names as [|n ns]; cbn [headers_of];
      destruct (chat_completions_create _ _ _ _); reflexivity.
  - cbv beta iota zeta delta [ret bind inference modify lift requested headers_of
                                default from_option id set_lora_manager].
    cbn [milvus lora_manager prompt_templates embed_model completions].
    destruct (chat_completions_create _ _ _ _); reflexivity.
Qed.

Lemma search_tenant (tenant_id : Z) (q : V) (top_k : Z) (c : Collection V) :
  0 < top_k →
  MilvusService.search tenant_id q top_k None c
  = (inr (format_hit <$>
            take (Z.to_nat top_k)
              (nearest_first q
                 (filter (λ r, of_tenant tenant_id r = true) (rows c)))),
     c).
Proof.
  intros Hpos. unfold MilvusService.search, MilvusDB.search. cbv zeta.
  destruct (Z.leb_spec top_k 0) as [Hle|_]; [lia|].
  unfold bind, lift, get, ret. rewrite compile_tenant_expr. reflexivity.
Qed.

Lemma search_tenant_refused (tenant_id : Z) (q : V) (top_k : Z)
    (c : Collection V) :
  top_k ≤ 0 →
  ∃ x, MilvusService.search tenant_id q top_k None c = (inl x, c).
Proof.
  intros Hle. unfold MilvusService.search. cbv zeta. unfold bind.
  destruct (search_refused q top_k (search_expr tenant_id None) c Hle)
    as [x ->].
  eexists. reflexivity.
Qed.

Lemma context_of_hits (hits : list (score * Row V)) :
  match format_hit <$> hits with
  | _ :: _ => join (nl +:+ nl) (hit_text <$> (format_hit <$> hits))
  | [] => EmptyString
  end = context_of (snd <$> hits).
Proof.
  unfold context_of. destruct hits as [|h hits]; [reflexivity|].
  rewrite <- !list_fmap_compose. reflexivity.
Qed.

Lemma nearest_spec tenant_id q top_k c r :
  r ∈ nearest tenant_id q top_k c →
  r ∈ rows c ∧ MilvusDB.tenant_id (fields r) = tenant_id.
Proof.
  unfold nearest. intros Hr.
  apply list_elem_of_fmap in Hr as (h & -> & Hh).
  apply (subseteq_take (Z.to_nat top_k)) in Hh.
  apply nearest_first_elem_of in Hh as [Hh _].
  apply list_elem_of_filter in Hh as [Hp Hin].
  split; [exact Hin|apply Z.eqb_eq, Hp].
Qed.

Lemma nearest_length tenant_id q top_k c :
  (length (nearest tenant_id q top_k c) ≤ Z.to_nat top_k)%nat.
Proof. unfold nearest. rewrite length_fmap, length_take. lia. Qed.

(** What [_retrieve_context] does to the state, and what it returns. *)
Lemma retrieve_context_cases tenant_id query top_k (s : InferenceService.t V)
    res s' :
  _retrieve_context tenant_id query top_k s = (res, s') →
  milvus s' = milvus s ∧ lora_manager s' = lora_manager s
  ∧ prompt_templates s' = prompt_templates s
  ∧ completions s' = completions s
  ∧ ∀ ctx, res = inr ctx →
      ∃ q, get_text_embedding query = inr q
        ∧ ctx = context_of (nearest tenant_id q top_k (milvus s)).
Proof.
  assert (Hfound : ∀ (q : V) (st : InferenceService.t V),
            milvus st = milvus s → lora_manager st = lora_manager s →
            prompt_templates st = prompt_templates s →
            completions st = completions s →
            get_text_embedding query = inr q →
            (let (r0, s0) :=
               let (r, c) :=
                 MilvusService.search tenant_id q top_k None (milvus st) in
               (r, set_milvus c st) in
             match r0 with
             | inl e => (inl e, s0)
             | inr results =>
                 match results with
                 | _ :: _ => ret (join (nl +:+ nl) (hit_text <$> results))
                 | [] => ret EmptyString
                 end s0
             end) = (res, s') →
            milvus s' = milvus s ∧ lora_manager s' = lora_manager s
            ∧ prompt_templates s' = prompt_templates s
            ∧ completions s' = completions s
            ∧ ∀ ctx, res = inr ctx →
                ∃ q, get_text_embedding query = inr q
                  ∧ ctx = context_of (nearest tenant_id q top_k (milvus s))).
  { intros q st Hmil Hman Htpl Hcom Hq.
    destruct (Z.le_gt_cases top_k 0) as [Hle|Hpos].
    { destruct (search_tenant_refused tenant_id q top_k (milvus st) Hle)
        as [x ->].
      intros [= <- <-]. cbn. split_and!; done. }
    rewrite (search_tenant _ _ _ _ Hpos), Hmil.
    unfold nearest. set (hits := take _ _).
    intros Hrun.
    assert (Hres : res = inr (context_of (snd <$> hits))
                   ∧ s' = set_milvus (milvus s) st).
    { clearbody hits. rewrite <- context_of_hits.
      destruct hits; cbn in Hrun |- *; injection Hrun as <- <-;
        split; reflexivity. }
    destruct Hres as [-> ->]. cbn. split_and!; try done.
    intros ctx [= <-]. exists q. split; [exact Hq|reflexivity]. }
  unfold _retrieve_context, _get_embed_model.
  destruct HuggingFaceEmbedding as [construct|].
  2: { cbv [bind raise]. intros [= <- <-]. split_and!; done. }
  cbv beta iota zeta delta [bind get raise lift modify zoom].
  destruct (embed_model s).
  - unfold ret at 1. cbv beta iota.
    destruct (get_text_embedding query) as [e|q] eqn:Hq.
    + intros [= <- <-]. split_and!; done.
    + apply (Hfound q s); done.
  - destruct construct as [e|[]].
    + intros [= <- <-]. split_and!; done.
    + unfold ret at 1. cbv beta iota.
      destruct (get_text_embedding query) as [e|q] eqn:Hq.
      * intros [= <- <-]. split_and!; done.
      * apply (Hfound q); done.
Qed.

Lemma context_step_frame use_rag tenant_id user_input
    (s : InferenceService.t V) res s' :
  context_step use_rag tenant_id user_input s = (res, s') →
  milvus s' = milvus s ∧ lora_manager s' = lora_manager s
  ∧ prompt_templates s' = prompt_templates s
  ∧ completions s' = completions s.
Proof.
  unfold context_step. destruct use_rag.
  - intros Hrun.
    destruct (retrieve_context_cases _ _ _ _ _ _ Hrun) as (?&?&?&?&_).
    split_and!; assumption.
  - intros [= <- <-]. split_and!; reflexivity.
Qed.

(** What [ensure_base_model_loaded] leaves alone, and what holds when
    it returns. *)
Lemma ensure_base_model_loaded_frame base_model_id (m : LoRAManager.t) res m1 :
  ensure_base_model_loaded base_model_id m = (res, m1) →
  adapter_cache m1 = adapter_cache m
  ∧ loaded_adapters (vllm m1) = loaded_adapters (vllm m)
  ∧ models (db m1) = models (db m)
  ∧ lora_adapters (db m1) = lora_adapters (db m)
  ∧ (sent (vllm m1) = sent (vllm m)
     ∨ ∃ name path, sent (vllm m1) = sent (vllm m) ++ [ModelsLoad name path])
  ∧ ∀ name, res = inr name →
      ∃ base_model, base_models (db m) !! base_model_id = Some base_model
        ∧ name = bm_name base_model
        ∧ is_Some (loaded_models (vllm m1) !! name).
Proof.
  unfold ensure_base_model_loaded.
  cbv beta iota zeta delta [bind get].
  destruct (base_models (db m) !! base_model_id) as [base_model|];
    [|intros [= <- <-]; split_and!; try done; by left].
  destruct (loaded_models (vllm m) !! bm_name base_model) as [path|] eqn:Hl.
  - intros [= <- <-]. split_and!; try done; [by left|].
    intros name [= <-]. exists base_model.
    split_and!; try done; rewrite Hl; by eexists.
  - cbv beta iota zeta delta
      [zoom load_base_model bind send modify ret raise set_vllm set_db
       set_base_models].
    cbn [vllm adapter_cache adapter_base_path db sent loaded_models
         loaded_adapters].
    destruct (post _ _) as [code|].
    + destruct (code =? 200).
      * intros [= <- <-]. cbn. split_and!; try done; [right; by eauto|].
        intros name [= <-]. exists base_model.
        split_and!; try done; rewrite lookup_insert_eq; by eexists.
      * intros [= <- <-]. cbn. split_and!; try done. right; by eauto.
    + intros [= <- <-]. cbn. split_and!; try done. right; by eauto.
Qed.

Lemma load_each_keeps_models base_model l : ∀ m res m1,
  load_each base_model l m = (res, m1) →
  loaded_models (vllm m1) = loaded_models (vllm m).
Proof.
  induction l as [|a l IH]; intros m res m1 Hrun.
  - cbn in Hrun. injection Hrun as <- <-. reflexivity.
  - rewrite load_each_cons in Hrun.
    destruct (adapter_cache m !! cache_key base_model a) as [n|] eqn:Hc.
    + rewrite (load_one_hit _ _ _ _ Hc) in Hrun.
      destruct (load_each base_model l m) as [[e|ns] m'] eqn:Hl;
        injection Hrun as <- <-; apply (IH _ _ _ Hl).
    + rewrite (load_one_miss _ _ _ Hc) in Hrun.
      case_bool_decide as Hpost.
      * destruct (load_each base_model l (loaded m base_model a))
          as [[e|ns] m'] eqn:Hl;
          injection Hrun as <- <-; apply (IH _ _ _ Hl).
      * injection Hrun as <- <-. reflexivity.
Qed.

(** [load_adapters_for_inference] never touches the registry of base
    models; when it returns, it returns one cached name per id. *)
Lemma load_adapters_frame model_id adapter_ids (m : LoRAManager.t) res m1 :
  load_adapters_for_inference model_id adapter_ids m = (res, m1) →
  loaded_models (vllm m1) = loaded_models (vllm m)
  ∧ ∀ names, res = inr names →
      length names = length adapter_ids
      ∧ ∀ name, name ∈ names →
          ∃ key, adapter_cache m1 !! key = Some name.
Proof.
  rewrite load_adapters_unfold.
  destruct (models (db m) !! model_id) as [model|];
    [|intros [= <- <-]; split; [reflexivity|discriminate]].
  destruct (base_models (db m) !! m_base_model_id model) as [base_model|];
    [|intros [= <- <-]; split; [reflexivity|discriminate]].
  case_bool_decide as Hlen;
    [intros [= <- <-]; split; [reflexivity|discriminate]|].
  intros Hrun. split; [apply (load_each_keeps_models _ _ _ _ _ Hrun)|].
  intros names ->.
  destruct (load_each_success _ _ _ _ _ Hrun) as (_ & _ & _ & Hall & _).
  split.
  - rewrite <- (Forall2_length _ _ _ Hall).
    destruct (decide (length (resolved m model_id adapter_ids)
                      = length adapter_ids)); [assumption|contradiction].
  - intros name Hn. apply list_elem_of_lookup in Hn as [i Hi].
    destruct (Forall2_lookup_r _ _ _ _ _ Hall Hi) as (a & _ & Ha).
    eexists. exact Ha.
Qed.

(** The adapter step, for any outcome. *)
Lemma adapters_step_frame model_id adapter_ids (m : LoRAManager.t) res m1 :
  adapters_step model_id adapter_ids m = (res, m1) →
  loaded_models (vllm m1) = loaded_models (vllm m)
  ∧ ∀ names, res = inr names →
      length (default [] names) = length (default [] adapter_ids)
      ∧ ∀ name, name ∈ default [] names →
          ∃ key, adapter_cache m1 !! key = Some name.
Proof.
  unfold adapters_step.
  destruct adapter_ids as [[|adapter_id rest]|].
  - intros [= <- <-]. split; [reflexivity|]. intros names [= <-].
    split; [reflexivity|]. intros name Hn. inversion Hn.
  - unfold bind, ret.
    destruct (load_adapters_for_inference model_id (adapter_id :: rest) m)
      as [[e|loaded_names] m2] eqn:Hl; intros [= <- <-];
      destruct (load_adapters_frame _ _ _ _ _ Hl) as [Hreg Hn];
      (split; [exact Hreg|]); [discriminate|].
    intros names [= <-]. apply Hn. reflexivity.
  - intros [= <- <-]. split; [reflexivity|]. intros names [= <-].
    split; [reflexivity|]. intros name Hn. inversion Hn.
Qed.

Lemma model_of_Some (s : InferenceService.t V) tenant_id model_id model :
  models (db (lora_manager s)) !! model_id = Some model →
  m_tenant_id model = tenant_id →
  model_of s tenant_id model_id = Some model.
Proof.
  unfold model_of. intros -> Ht.
  destruct (decide (m_tenant_id model = tenant_id)); [reflexivity|contradiction].
Qed.

Lemma model_of_inv (s : InferenceService.t V) tenant_id model_id model :
  model_of s tenant_id model_id = Some model →
  models (db (lora_manager s)) !! model_id = Some model
  ∧ m_tenant_id model = tenant_id.
Proof.
  unfold model_of.
  destruct (models (db (lora_manager s)) !! model_id) as [model'|];
    [|discriminate].
  destruct (decide (m_tenant_id model' = tenant_id)) as [Ht|]; [|discriminate].
  intros [= <-]. split; [reflexivity|exact Ht].
Qed.

(** A model id that is unknown, or that belongs to another tenant,
    is refused with the "not found" error before anything else happens:
    the state is the one the call started from. *)
Theorem inference_llm_rejects_foreign_model (tenant_id model_id : Z)
    (user_input : string) (adapter_ids : option (list Z)) (use_rag : bool)
    (params : P) (s : InferenceService.t V) :
  (∀ model, models (db (lora_manager s)) !! model_id = Some model →
            m_tenant_id model ≠ tenant_id) →
  inference_llm tenant_id model_id user_input adapter_ids use_rag params s
  = (inl (ValueError ("Model " +:+ int_str model_id
                        +:+ " not found for tenant " +:+ int_str tenant_id)),
     s).
Proof.
  intros Hforeign. apply inference_llm_no_model.
  destruct (model_of s tenant_id model_id) as [model|] eqn:Hm; [|reflexivity].
  apply model_of_inv in Hm as [Hm Ht]. destruct (Hforeign model Hm Ht).
Qed.

(** The context [_retrieve_context] returns is made of the texts of
    at most [top_k] stored rows of the caller's tenant, joined by blank
    lines; the store, the adapter manager, the templates and the chat
    log are as before. *)
Theorem retrieved_context_is_of_the_tenant (tenant_id : Z) (query : string)
    (top_k : Z) (s s' : InferenceService.t V) (ctx : string) :
  0 < top_k →
  _retrieve_context tenant_id query top_k s = (inr ctx, s') →
  (∃ used : list (Row V),
     ctx = join (nl +:+ nl) ((λ r, text (fields r)) <$> used)
     ∧ (length used ≤ Z.to_nat top_k)%nat
     ∧ ∀ r, r ∈ used →
         r ∈ rows (milvus s) ∧ MilvusDB.tenant_id (fields r) = tenant_id)
  ∧ milvus s' = milvus s ∧ lora_manager s' = lora_manager s
  ∧ prompt_templates s' = prompt_templates s
  ∧ completions s' = completions s.
Proof.
  intros _ Hrun.
  destruct (retrieve_context_cases _ _ _ _ _ _ Hrun)
    as (Hmil & Hman & Htpl & Hcom & Hctx).
  destruct (Hctx ctx eq_refl) as (q & _ & ->).
  split_and!; try assumption.
  exists (nearest tenant_id q top_k (milvus s)).
  split_and!; [reflexivity|apply nearest_length|].
  intros r Hr. apply (nearest_spec _ _ _ _ _ Hr).
Qed.

(** A retrieval that fails ends the request with its error, before
    the base model or an adapter is asked of the runtime and before any
    chat request. *)
Theorem failed_retrieval_ends_the_request (tenant_id model_id : Z)
    (user_input : string) (adapter_ids : option (list Z)) (params : P)
    (s s1 : InferenceService.t V) (model : Model) (base_model : BaseModel)
    (e : exn) :
  models (db (lora_manager s)) !! model_id = Some model →
  m_tenant_id model = tenant_id →
  base_models (db (lora_manager s)) !! m_base_model_id model = Some base_model →
  _retrieve_context tenant_id user_input 3 s = (inl e, s1) →
  inference_llm tenant_id model_id user_input adapter_ids true params s
  = (inl e, s1)
  ∧ lora_manager s1 = lora_manager s ∧ completions s1 = completions s
  ∧ milvus s1 = milvus s.
Proof.
  intros Hm Ht Hb Hctx.
  rewrite (inference_llm_eq _ _ _ _ _ _ _ _ (model_of_Some _ _ _ _ Hm Ht)), Hb.
  unfold context_step. rewrite Hctx.
  destruct (retrieve_context_cases _ _ _ _ _ _ Hctx) as (?&?&?&?&_).
  split_and!; done.
Qed.

(** When [inference_llm] returns, the model was the tenant's, its
    base model is in the gateway's registry, exactly one chat request
    was made (the last thing recorded), for that base model, with the
    prompt built from the tenant's template, the context and the input,
    and with the adapter header of the adapters reported; one adapter
    name is reported per requested id, each of them cached; the context
    is reported only for a RAG request; the store is as before. *)
Theorem inference_llm_answers_after_loading (tenant_id model_id : Z)
    (user_input : string) (adapter_ids : option (list Z)) (use_rag : bool)
    (params : P) (s s' : InferenceService.t V) (answer : Answer) :
  inference_llm tenant_id model_id user_input adapter_ids use_rag params s
  = (inr answer, s') →
  ∃ model base_model ctx,
    models (db (lora_manager s)) !! model_id = Some model
    ∧ m_tenant_id model = tenant_id
    ∧ base_models (db (lora_manager s)) !! m_base_model_id model
      = Some base_model
    ∧ is_Some (loaded_models (vllm (lora_manager s')) !! bm_name base_model)
    ∧ completions s'
      = completions s
          ++ [(bm_name base_model,
               build_prompt (system_prompt s tenant_id) ctx user_input,
               headers_of (adapters_used answer))]
    ∧ chat_completions_create (bm_name base_model)
        (build_prompt (system_prompt s tenant_id) ctx user_input) params
        (headers_of (adapters_used answer))
      = inr (result answer)
    ∧ context answer = (if use_rag then Some ctx else None)
    ∧ (use_rag = false → ctx = EmptyString)
    ∧ answer_model_id answer = model_id
    ∧ length (adapters_used answer) = length (default [] adapter_ids)
    ∧ (∀ name, name ∈ adapters_used answer →
         ∃ key, adapter_cache (lora_manager s') !! key = Some name)
    ∧ milvus s' = milvus s.
Proof.
  intros Hrun.
  destruct (model_of s tenant_id model_id) as [model|] eqn:Hm;
    [|rewrite (inference_llm_no_model _ _ _ _ _ _ _ Hm) in Hrun; discriminate].
  rewrite (inference_llm_eq _ _ _ _ _ _ _ _ Hm) in Hrun.
  apply model_of_inv in Hm as [Hm Ht].
  destruct (base_models (db (lora_manager s)) !! m_base_model_id model)
    as [base_model|] eqn:Hb; [|discriminate].
  destruct (context_step use_rag tenant_id user_input s) as [[e|ctx] s1]
    eqn:Hctx; [discriminate|].
  destruct (context_step_frame _ _ _ _ _ _ Hctx) as (Hmil & Hman & Htpl & Hcom).
  destruct (ensure_base_model_loaded (m_base_model_id model) (lora_manager s1))
    as [[e|name] m1] eqn:Hens; [discriminate|].
  destruct (ensure_base_model_loaded_frame _ _ _ _ Hens)
    as (_ & _ & _ & _ & _ & Hname).
  destruct (Hname name eq_refl) as (base_model' & Hb' & -> & Hreg).
  rewrite Hman, Hb in Hb'. injection Hb' as <-.
  destruct (adapters_step model_id adapter_ids m1) as [[e|names] m2] eqn:Had;
    [discriminate|].
  destruct (adapters_step_frame _ _ _ _ _ Had) as [Hkeep Hnames].
  destruct (Hnames names eq_refl) as [Hlen Hcached].
  cbv zeta in Hrun.
  destruct (chat_completions_create _ _ _ _) as [e|r] eqn:Hchat;
    [discriminate|].
  injection Hrun as <- <-.
  exists model, base_model, ctx.
  cbn [result context answer_model_id adapters_used requested set_lora_manager
       milvus lora_manager completions].
  split_and!; try done.
  - rewrite Hkeep. exact Hreg.
  - rewrite Hcom. reflexivity.
  - intros ->. unfold context_step in Hctx. by injection Hctx as <- _.
Qed.

(** Without adapter ids ([None] or the empty list) no adapter is
    asked of the runtime: the adapter cache and the gateway's adapter
    registry are as before, the only request the runtime may have got
    is the load of the base model, and an answer reports no adapter and
    its chat request carried no adapter header. *)
Theorem inference_without_adapters (tenant_id model_id : Z)
    (user_input : string) (adapter_ids : option (list Z)) (use_rag : bool)
    (params : P) (s s' : InferenceService.t V) (res : exn + Answer) :
  adapter_ids = None ∨ adapter_ids = Some [] →
  inference_llm tenant_id model_id user_input adapter_ids use_rag params s
  = (res, s') →
  adapter_cache (lora_manager s') = adapter_cache (lora_manager s)
  ∧ loaded_adapters (vllm (lora_manager s'))
    = loaded_adapters (vllm (lora_manager s))
  ∧ (sent (vllm (lora_manager s')) = sent (vllm (lora_manager s))
     ∨ ∃ name path,
         sent (vllm (lora_manager s'))
         = sent (vllm (lora_manager s)) ++ [ModelsLoad name path])
  ∧ ∀ answer, res = inr answer →
      adapters_used answer = []
      ∧ ∃ name prompt,
          completions s' = completions s ++ [(name, prompt, [])].
Proof.
  intros Hids Hrun.
  destruct (model_of s tenant_id model_id) as [model|] eqn:Hm.
  2: { rewrite (inference_llm_no_model _ _ _ _ _ _ _ Hm) in Hrun.
       injection Hrun as <- <-. split_and!; try done. by left. }
  rewrite (inference_llm_eq _ _ _ _ _ _ _ _ Hm) in Hrun.
  destruct (base_models (db (lora_manager s)) !! m_base_model_id model)
    as [base_model|] eqn:Hb.
  2: { injection Hrun as <- <-. split_and!; try done. by left. }
  destruct (context_step use_rag tenant_id user_input s) as [[e|ctx] s1]
    eqn:Hctx;
    destruct (context_step_frame _ _ _ _ _ _ Hctx) as (Hmil & Hman & Htpl & Hcom).
  { injection Hrun as <- <-. rewrite Hman. split_and!; try done. by left. }
  destruct (ensure_base_model_loaded (m_base_model_id model) (lora_manager s1))
    as [[e|name] m1] eqn:Hens;
    destruct (ensure_base_model_loaded_frame _ _ _ _ Hens)
      as (Hcache & Hreg & _ & _ & Hsent & _);
    rewrite Hman in Hcache, Hreg, Hsent.
  { injection Hrun as <- <-. cbn. split_and!; done. }
  assert (Had : adapters_step model_id adapter_ids m1 = (inr None, m1)).
  { destruct Hids as [->| ->]; reflexivity. }
  rewrite Had in Hrun. cbv zeta in Hrun.
  cbn [default from_option id headers_of] in Hrun.
  destruct (chat_completions_create _ _ _ _) as [e|r];
    injection Hrun as <- <-; cbn; split_and!; try done.
  intros answer [= <-]. cbn. split; [reflexivity|].
  rewrite Hcom. eauto.
Qed.

(** A request that fails leaves the vector store and the templates
    as they were, and no chat request was made unless the error is the
    one the chat endpoint raised, in which case that request is the last
    thing recorded. *)
Theorem failed_inference_made_no_chat_request (tenant_id model_id : Z)
    (user_input : string) (adapter_ids : option (list Z)) (use_rag : bool)
    (params : P) (s s' : InferenceService.t V) (e : exn) :
  inference_llm tenant_id model_id user_input adapter_ids use_rag params s
  = (inl e, s') →
  milvus s' = milvus s
  ∧ prompt_templates s' = prompt_templates s
  ∧ (completions s' = completions s
     ∨ ∃ name prompt headers,
         completions s' = completions s ++ [(name, prompt, headers)]
         ∧ chat_completions_create name prompt params headers = inl e).
Proof.
  intros Hrun.
  destruct (model_of s tenant_id model_id) as [model|] eqn:Hm.
  2: { rewrite (inference_llm_no_model _ _ _ _ _ _ _ Hm) in Hrun.
       injection Hrun as _ <-. split_and!; try done. by left. }
  rewrite (inference_llm_eq _ _ _ _ _ _ _ _ Hm) in Hrun.
  destruct (base_models (db (lora_manager s)) !! m_base_model_id model)
    as [base_model|] eqn:Hb.
  2: { injection Hrun as _ <-. split_and!; try done. by left. }
  destruct (context_step use_rag tenant_id user_input s) as [[e1|ctx] s1]
    eqn:Hctx;
    destruct (context_step_frame _ _ _ _ _ _ Hctx) as (Hmil & Hman & Htpl & Hcom).
  { injection Hrun as _ <-. split_and!; try done. by left. }
  destruct (ensure_base_model_loaded (m_base_model_id model) (lora_manager s1))
    as [[e1|name] m1] eqn:Hens.
  { injection Hrun as _ <-. cbn. split_and!; try done. by left. }
  destruct (adapters_step model_id adapter_ids m1) as [[e1|names] m2] eqn:Had.
  { injection Hrun as _ <-. cbn. split_and!; try done. by left. }
  cbv zeta in Hrun.
  destruct (chat_completions_create _ _ _ _) as [e1|r] eqn:Hchat;
    [|discriminate].
  injection Hrun as <- <-. cbn. split_and!; try done.
  right. rewrite Hcom. eauto.
Qed.

End Facts.

End InferenceFacts.

(** ** A front desk with one model *)

Module InferenceScenario.
Import Models MilvusDB MilvusService vLLMService LoRAManager InferenceService SearchScenario ManagerScenario InferenceFacts SharedCollection WillingRuntime InferenceSpec FrontDesk.

Lemma inference_llm_rejects_foreign_model_witness :
  inference_llm (H := squared_l2) (H0 := willing) (H1 := scripted)
    1 2 "When do you open?" None true tt desk
  = (inl (ValueError ("Model " +:+ int_str 2
                        +:+ " not found for tenant " +:+ int_str 1)),
     desk).
Proof.
  apply (inference_llm_rejects_foreign_model (H := squared_l2) (H0 := willing)
           (H1 := scripted)).
  intros model Hm. vm_compute in Hm. injection Hm as <-. discriminate.
Defined.

Lemma retrieved_context_is_of_the_tenant_witness :
  (∃ used : list (Row (list Z)),
     "opening hours of tenant 1"%string
     = join (nl +:+ nl) ((λ r, text (fields r)) <$> used)
     ∧ (length used ≤ Z.to_nat 3)%nat
     ∧ ∀ r, r ∈ used →
         r ∈ rows (milvus desk) ∧ MilvusDB.tenant_id (fields r) = 1)
  ∧ milvus retrieved = milvus desk ∧ lora_manager retrieved = lora_manager desk
  ∧ prompt_templates retrieved = prompt_templates desk
  ∧ completions retrieved = completions desk.
Proof.
  apply (retrieved_context_is_of_the_tenant (H := squared_l2) (H1 := scripted)
           1 "When do you open?" 3 desk retrieved);
    [reflexivity|vm_compute; reflexivity].
Defined.

Lemma failed_retrieval_ends_the_request_witness :
  inference_llm (H := squared_l2) (H0 := willing) (H1 := stalled)
    1 1 "When do you open?" (Some [1]) true tt desk
  = (inl (Exception "CUDA out of memory"), unretrieved)
  ∧ lora_manager unretrieved = lora_manager desk
  ∧ completions unretrieved = completions desk
  ∧ milvus unretrieved = milvus desk.
Proof.
  apply (failed_retrieval_ends_the_request (H := squared_l2) (H0 := willing)
           (H1 := stalled) 1 1 "When do you open?" (Some [1]) tt desk
           unretrieved (mkModel 1 "assistant" 1)
           (mkBaseModel "base" "llm" "org/base" false));
    vm_compute; reflexivity.
Defined.

Lemma inference_llm_answers_after_loading_witness :
  ∃ model base_model ctx,
    models (db (lora_manager desk)) !! 1 = Some model
    ∧ m_tenant_id model = 1
    ∧ base_models (db (lora_manager desk)) !! m_base_model_id model
      = Some base_model
    ∧ is_Some (loaded_models (vllm (lora_manager asked.2)) !! bm_name base_model)
    ∧ completions asked.2
      = completions desk
          ++ [(bm_name base_model,
               build_prompt (system_prompt desk 1) ctx "When do you open?",
               headers_of (adapters_used reply))]
    ∧ chat_completions_create (Backend := scripted) (bm_name base_model)
        (build_prompt (system_prompt desk 1) ctx "When do you open?") tt
        (headers_of (adapters_used reply))
      = inr (result reply)
    ∧ context reply = (if true then Some ctx else None)
    ∧ (true = false → ctx = EmptyString)
    ∧ answer_model_id reply = 1
    ∧ length (adapters_used reply) = length (default [] (Some [1]))
    ∧ (∀ name, name ∈ adapters_used reply →
         ∃ key, adapter_cache (lora_manager asked.2) !! key = Some name)
    ∧ milvus asked.2 = milvus desk.
Proof.
  apply (inference_llm_answers_after_loading (H := squared_l2) (H0 := willing)
           (H1 := scripted) 1 1 "When do you open?" (Some [1]) true tt desk
           asked.2 reply).
  vm_compute. reflexivity.
Defined.

Lemma inference_without_adapters_witness :
  adapter_cache (lora_manager plain.2) = adapter_cache (lora_manager desk)
  ∧ loaded_adapters (vllm (lora_manager plain.2))
    = loaded_adapters (vllm (lora_manager desk))
  ∧ (sent (vllm (lora_manager plain.2)) = sent (vllm (lora_manager desk))
     ∨ ∃ name path,
         sent (vllm (lora_manager plain.2))
         = sent (vllm (lora_manager desk)) ++ [ModelsLoad name path])
  ∧ ∀ answer, plain.1 = inr answer →
      adapters_used answer = []
      ∧ ∃ name prompt,
          completions plain.2 = completions desk ++ [(name, prompt, [])].
Proof.
  apply (inference_without_adapters (H := squared_l2) (H0 := willing)
           (H1 := scripted) 1 1 "When do you open?" None false tt desk
           plain.2 plain.1); [left; reflexivity|vm_compute; reflexivity].
Defined.

Lemma failed_inference_made_no_chat_request_witness :
  milvus unanswered.2 = milvus desk
  ∧ prompt_templates unanswered.2 = prompt_templates desk
  ∧ (completions unanswered.2 = completions desk
     ∨ ∃ name prompt headers,
         completions unanswered.2 = completions desk ++ [(name, prompt, headers)]
         ∧ chat_completions_create (Backend := stalled) name prompt tt headers
           = inl (Exception "Connection error.")).
Proof.
  apply (failed_inference_made_no_chat_request (H := squared_l2) (H0 := willing)
           (H1 := stalled) 1 1 "When do you open?" None false tt desk
           unanswered.2 (Exception "Connection error.")).
  vm_compute. reflexivity.
Defined.

End InferenceScenario.
